(** * Name normalisation and phonetic matching of the Arabic name mediator

    A shallow embedding of the name-matching core of the mediator
    (the JavaScript service that exports [normalizeArabicName],
    [normalizeEnglishName], [arabicSoundex] and [jaroWinkler], and serves
    [/soundex/:name] and [/compare]), together with the properties its
    specification states about it.

    Conventions of the embedding.
    - A JavaScript string is the list of its UTF-16 code units ([Z]);
      [s.length] is [length s] and [s[i]] is [s !! i], which is [None]
      where JavaScript yields [undefined].
    - A call either returns, throws, or never returns: [outcome].
    - Number values are exact rationals ([Q]); the rounding of IEEE
      doubles is not modelled.
    - [String.prototype.toLowerCase] and [toUpperCase] belong to the
      language runtime, not to the service: they are parameters. *)

From Stdlib Require Import ZArith QArith Qminmax Lia Lqa String Ascii.
From stdpp Require Import base list gmap.

Open Scope Z_scope.

(** ** Strings, outcomes *)

Abbreviation codeunit := Z (only parsing).
Abbreviation jsstring := (list Z) (only parsing).

(** The code units of an ASCII literal. *)
Definition lit (s : string) : jsstring :=
  map (fun a => Z.of_N (N_of_ascii a)) (list_ascii_of_string s).

Definition jsstring_eqb (a b : jsstring) : bool := bool_decide (a = b).

Inductive error : Type := TypeError.

Inductive outcome (A : Type) : Type :=
| Returns (a : A)
| Throws (e : error)
| Diverges.
Arguments Returns {A} a.
Arguments Throws {A} e.
Arguments Diverges {A}.

#[global] Instance outcome_ret : MRet outcome := fun A a => Returns a.

#[global] Instance outcome_bind : MBind outcome := fun A B k m =>
  match m with
  | Returns a => k a
  | Throws e => Throws e
  | Diverges => Diverges
  end.

(** [array.map(f)] for a callback that may throw. *)
Fixpoint mapOutcome {A B} (f : A -> outcome B) (l : list A) : outcome (list B) :=
  match l with
  | [] => Returns []
  | a :: l' => b ← f a; bs ← mapOutcome f l'; Returns (b :: bs)
  end.

(** ** Built-in string operations used by the service *)

(** [s.startsWith(prefix)] *)
Fixpoint startsWith (s prefix : jsstring) : bool :=
  match prefix, s with
  | [], _ => true
  | p :: prefix', c :: s' => (c =? p) && startsWith s' prefix'
  | _ :: _, [] => false
  end.

(** [s.substring(n)] for [0 <= n] *)
Definition substring (s : jsstring) (n : nat) : jsstring := drop n s.

(** The class [\s] of regular expressions, which is also what [trim]
    strips: WhiteSpace and LineTerminator code points. *)
Definition isWhitespace (c : codeunit) : bool :=
  ((0x09 <=? c) && (c <=? 0x0D)) || (c =? 0x20) || (c =? 0xA0)
  || (c =? 0x1680) || ((0x2000 <=? c) && (c <=? 0x200A))
  || (c =? 0x2028) || (c =? 0x2029) || (c =? 0x202F) || (c =? 0x205F)
  || (c =? 0x3000) || (c =? 0xFEFF).

(** [s.replace(/\s+/g, ' ')]: every maximal run of whitespace becomes one
    space. [inRun] tells that the previous code unit was whitespace. *)
Fixpoint collapseRuns (inRun : bool) (s : jsstring) : jsstring :=
  match s with
  | [] => []
  | c :: s' =>
      if isWhitespace c
      then (if inRun then collapseRuns true s' else 0x20 :: collapseRuns true s')
      else c :: collapseRuns false s'
  end.

Definition collapseWhitespace (s : jsstring) : jsstring := collapseRuns false s.

(** [s.replace(/\s/g, '')] *)
Definition removeWhitespace (s : jsstring) : jsstring :=
  List.filter (fun c => negb (isWhitespace c)) s.

Fixpoint trimStart (s : jsstring) : jsstring :=
  match s with
  | [] => []
  | c :: s' => if isWhitespace c then trimStart s' else s
  end.

Definition trimEnd (s : jsstring) : jsstring := rev (trimStart (rev s)).

(** [s.trim()] *)
Definition trim (s : jsstring) : jsstring := trimEnd (trimStart s).

(** [s.split(sep)] for a separator of one code unit; the empty string
    splits into one empty part. *)
Fixpoint split (sep : codeunit) (s : jsstring) : list jsstring :=
  match s with
  | [] => [[]]
  | c :: s' =>
      if c =? sep then [] :: split sep s'
      else match split sep s' with
           | p :: ps => (c :: p) :: ps
           | [] => [[c]]
           end
  end.

(** [parts.join(sep)] *)
Fixpoint join (sep : jsstring) (parts : list jsstring) : jsstring :=
  match parts with
  | [] => []
  | [p] => p
  | p :: ps => p ++ sep ++ join sep ps
  end.

(** [s.charAt(0)] and [s.slice(1)] *)
Definition charAt0 (s : jsstring) : jsstring := take 1 s.
Definition slice1 (s : jsstring) : jsstring := drop 1 s.

(** ** The tables of the service *)

(** [ARABIC_DIACRITICS]: the class of U+064B to U+065F and U+0670. *)
Definition isDiacritic (c : codeunit) : bool :=
  ((0x064B <=? c) && (c <=? 0x065F)) || (c =? 0x0670).

(** [ARABIC_NORMALIZATIONS], as [Object.entries] lists it (keys that are
    not array indices come in declaration order). *)
Definition ARABIC_NORMALIZATIONS : list (codeunit * codeunit) :=
  [ (0x0622, 0x0627); (0x0623, 0x0627); (0x0625, 0x0627); (0x0671, 0x0627);
    (0x0629, 0x0647);
    (0x0649, 0x064A);
    (0x0624, 0x0648);
    (0x0626, 0x064A) ].

(** [PREFIXES], in declaration order. *)
Definition PREFIXES : list (jsstring * jsstring) :=
  [ ([0x0627; 0x0644], []);
    ([0x0639; 0x0628; 0x062F; 0x20; 0x0627; 0x0644],
     [0x0639; 0x0628; 0x062F; 0x0627; 0x0644]);
    ([0x0639; 0x0628; 0x062F; 0x0627; 0x0644],
     [0x0639; 0x0628; 0x062F; 0x0627; 0x0644]);
    ([0x0627; 0x0628; 0x0648; 0x20], [0x0627; 0x0628; 0x0648]);
    ([0x0623; 0x0628; 0x0648; 0x20], [0x0627; 0x0628; 0x0648]);
    ([0x0627; 0x0628; 0x0646; 0x20], [0x0627; 0x0628; 0x0646]);
    ([0x0628; 0x0646; 0x20], [0x0628; 0x0646]);
    ([0x0627; 0x0645; 0x20], [0x0627; 0x0645]);
    ([0x0623; 0x0645; 0x20], [0x0627; 0x0645]) ].

(** [ENGLISH_PREFIXES], in declaration order. *)
Definition ENGLISH_PREFIXES : list (jsstring * jsstring) :=
  [ (lit "al-", []); (lit "al ", []);
    (lit "el-", []); (lit "el ", []);
    (lit "abd-", lit "abd"); (lit "abd ", lit "abd");
    (lit "abdel-", lit "abdel"); (lit "abdel ", lit "abdel");
    (lit "abdul-", lit "abdul"); (lit "abdul ", lit "abdul");
    (lit "abu-", lit "abu"); (lit "abu ", lit "abu");
    (lit "ibn-", lit "ibn"); (lit "ibn ", lit "ibn");
    (lit "bin-", lit "bin"); (lit "bin ", lit "bin") ].

(** [ARABIC_SOUNDEX]: the phonetic group digit of a letter, as a string of
    one character; only ever read by key. *)
Definition ARABIC_SOUNDEX_entries : list (codeunit * jsstring) :=
  [ (0x0628, lit "1"); (0x0641, lit "1"); (0x0648, lit "1");
    (0x062C, lit "2"); (0x0632, lit "2"); (0x0633, lit "2"); (0x0634, lit "2");
    (0x0635, lit "2"); (0x0636, lit "2"); (0x0638, lit "2");
    (0x062F, lit "3"); (0x0630, lit "3"); (0x062A, lit "3"); (0x0637, lit "3");
    (0x062B, lit "3");
    (0x0644, lit "4");
    (0x0645, lit "5"); (0x0646, lit "5");
    (0x0631, lit "6");
    (0x0642, lit "7"); (0x0643, lit "7"); (0x063A, lit "7"); (0x062E, lit "7");
    (0x0647, lit "8"); (0x062D, lit "8"); (0x0639, lit "8"); (0x0621, lit "8");
    (0x0623, lit "8");
    (0x064A, lit "9") ].

(** [ARABIC_SOUNDEX[char]] is [ARABIC_SOUNDEX !! char]: [None] is
    JavaScript's [undefined]. *)
Definition ARABIC_SOUNDEX : gmap Z (list Z) := list_to_map ARABIC_SOUNDEX_entries.

(** ** Normalisation steps *)

(** [text.replace(ARABIC_DIACRITICS, '')] *)
Definition removeDiacritics (text : jsstring) : jsstring :=
  List.filter (fun c => negb (isDiacritic c)) text.

(** [s.replace(new RegExp(from, 'g'), to)] for a pattern and a replacement
    of one code unit each. *)
Definition replaceAll (from to : codeunit) (s : jsstring) : jsstring :=
  map (fun c => if c =? from then to else c) s.

Definition normalizeArabicLetters (text : jsstring) : jsstring :=
  fold_left (fun normalized '(from, to) => replaceAll from to normalized)
            ARABIC_NORMALIZATIONS text.

(** The body shared by both prefix loops:
    [if (normalized.startsWith(prefix))
       normalized = replacement + normalized.substring(prefix.length)]. *)
Definition prefixStep (normalized : jsstring) (entry : jsstring * jsstring)
  : jsstring :=
  let '(prefix, replacement) := entry in
  if startsWith normalized prefix
  then replacement ++ substring normalized (length prefix)
  else normalized.

Definition normalizeArabicPrefixes (text : jsstring) : jsstring :=
  fold_left prefixStep PREFIXES text.

(** ** The phonetic encoder *)

(** The [for] loop of [arabicSoundex]: [rest] is [normalized] from index
    [i] on; the loop stops when [rest] is exhausted or [soundex.length]
    has reached 6. *)
Fixpoint soundexLoop (rest : jsstring) (soundex lastCode : jsstring) : jsstring :=
  match rest with
  | [] => soundex
  | char :: rest' =>
      if (length soundex <? 6)%nat then
        match ARABIC_SOUNDEX !! char with
        | Some code =>
            if negb (bool_decide (code = [])) && negb (bool_decide (code = lastCode))
            then soundexLoop rest' (soundex ++ code) code
            else soundexLoop rest' soundex lastCode
        | None => soundexLoop rest' soundex lastCode
        end
      else soundex
  end.

(** [while (soundex.length < 6) soundex += '0']: every round adds one
    character, so the guard ends the loop within six rounds. *)
Fixpoint padZeros (rounds : nat) (soundex : jsstring) : jsstring :=
  match rounds with
  | O => soundex
  | S rounds' =>
      if (length soundex <? 6)%nat then padZeros rounds' (soundex ++ lit "0")
      else soundex
  end.

(** When [normalized] is empty, [firstLetter] and [soundex] are
    [undefined]; the [for] loop's guard fails on [i < normalized.length]
    before [soundex.length] is read, and the padding loop's guard then
    reads [undefined.length], which throws a [TypeError]. *)
Definition arabicSoundex (text : jsstring) : outcome jsstring :=
  if bool_decide (text = []) then Returns []
  else
    let normalized := removeDiacritics text in
    let normalized := normalizeArabicLetters normalized in
    match normalized !! 0%nat with
    | None => Throws TypeError
    | Some firstLetter =>
        let soundex := [firstLetter] in
        let lastCode := default [] (ARABIC_SOUNDEX !! firstLetter) in
        Returns (padZeros 6 (soundexLoop (drop 1 normalized) soundex lastCode))
    end.

(** ** Name normalisation *)

Record NamePart : Type := {
  part_original : jsstring;
  part_soundex : jsstring
}.

Record ArabicName : Type := {
  original : jsstring;
  normalized : jsstring;
  soundex : jsstring;
  parts : list NamePart
}.

Definition normalizeArabicName (name : jsstring) : outcome ArabicName :=
  if bool_decide (name = []) then
    Returns {| original := []; normalized := []; soundex := []; parts := [] |}
  else
    let normalized := removeDiacritics name in
    let normalized := normalizeArabicLetters normalized in
    let normalized := normalizeArabicPrefixes normalized in
    let normalized := trim (collapseWhitespace normalized) in
    parts ← mapOutcome
              (fun part =>
                 code ← arabicSoundex part;
                 Returns {| part_original := part; part_soundex := code |})
              (split 0x20 normalized);
    fullSoundex ← arabicSoundex (removeWhitespace normalized);
    Returns {| original := name; normalized := normalized;
               soundex := fullSoundex; parts := parts |}.

Record EnglishName : Type := {
  en_original : jsstring;
  en_normalized : jsstring;
  en_parts : list jsstring
}.

Section CaseConversion.

(** [String.prototype.toLowerCase] and [toUpperCase] of the runtime. *)
Variable toLowerCase toUpperCase : jsstring -> jsstring.

Definition normalizeEnglishPrefixes (text : jsstring) : jsstring :=
  fold_left prefixStep ENGLISH_PREFIXES (toLowerCase text).

Definition capitalize (part : jsstring) : jsstring :=
  toUpperCase (charAt0 part) ++ slice1 part.

Definition normalizeEnglishName (name : jsstring) : EnglishName :=
  if bool_decide (name = []) then
    {| en_original := []; en_normalized := []; en_parts := [] |}
  else
    let normalized := normalizeEnglishPrefixes name in
    let normalized := trim (collapseWhitespace normalized) in
    let normalized := join (lit " ") (map capitalize (split 0x20 normalized)) in
    {| en_original := name; en_normalized := normalized;
       en_parts := split 0x20 normalized |}.

(** The script test of the [/soundex/:name] route and of
    [normalizePatientNames]: some code unit lies in U+0600 to U+06FF. *)
Definition isArabic (name : jsstring) : bool :=
  existsb (fun c => (0x0600 <=? c) && (c <=? 0x06FF)) name.

(** The handler of [GET /soundex/:name], on the decoded name: the
    normalisation chosen by script. *)
Definition soundexHandler (name : jsstring) : outcome (ArabicName + EnglishName) :=
  if isArabic name then
    result ← normalizeArabicName name; Returns (inl result)
  else
    Returns (inr (normalizeEnglishName name)).

End CaseConversion.

(** ** The similarity scorer *)

Record matchState : Type := {
  s1Matches : list bool;
  s2Matches : list bool;
  matches : Z
}.

(** An array element read as a condition: [undefined] is falsy. *)
Definition flag (a : list bool) (i : nat) : bool := default false (a !! i).

(** One round of the outer matching loop of [jaroWinkler]: the inner loop
    looks for the first [j] in [start, end) that is not [continue]d. *)
Definition matchStep (s1 s2 : jsstring) (matchWindow : Z)
    (st : matchState) (i : nat) : matchState :=
  let start := Z.max 0 (Z.of_nat i - matchWindow) in
  let end_ := Z.min (Z.of_nat (length s2)) (Z.of_nat i + matchWindow + 1) in
  match List.find
          (fun j => negb (flag (s2Matches st) j || bool_decide (s1 !! i ≠ s2 !! j)))
          (seq (Z.to_nat start) (Z.to_nat (end_ - start))) with
  | Some j =>
      {| s1Matches := <[i := true]> (s1Matches st);
         s2Matches := <[j := true]> (s2Matches st);
         matches := matches st + 1 |}
  | None => st
  end.

Definition findMatches (s1 s2 : jsstring) (matchWindow : Z) : matchState :=
  fold_left (matchStep s1 s2 matchWindow) (seq 0 (length s1))
    {| s1Matches := replicate (length s1) false;
       s2Matches := replicate (length s2) false;
       matches := 0 |}.

(** [while (!s2Matches[k]) k++]. Past the end of the array every read is
    [undefined] and the loop never ends: [None]. The recursion is on
    [fuel], which [length s2Matches + 1] never exhausts before the end
    of the array is reached. *)
Fixpoint skipUnmatched (fuel : nat) (s2Matches : list bool) (k : nat) : option nat :=
  match fuel with
  | O => None
  | S fuel' =>
      match s2Matches !! k with
      | Some true => Some k
      | Some false => skipUnmatched fuel' s2Matches (S k)
      | None => None
      end
  end.

(** One round of the transposition loop, on the pair [(k, transpositions)]. *)
Definition transpositionStep (s1 s2 : jsstring) (s1Matches s2Matches : list bool)
    (acc : outcome (nat * Z)) (i : nat) : outcome (nat * Z) :=
  st ← acc;
  if negb (flag s1Matches i) then Returns st
  else
    match skipUnmatched (S (length s2Matches)) s2Matches (fst st) with
    | None => Diverges
    | Some k =>
        Returns (S k, if bool_decide (s1 !! i ≠ s2 !! k)
                      then snd st + 1 else snd st)
    end.

Definition countTranspositions (s1 s2 : jsstring) (s1Matches s2Matches : list bool)
  : outcome Z :=
  st ← fold_left (transpositionStep s1 s2 s1Matches s2Matches)
        (seq 0 (length s1)) (Returns (0%nat, 0));
  Returns (snd st).

(** The prefix loop: [for (i = 0; i < Math.min(4, len1, len2); i++)] with
    its [break] at the first difference. *)
Fixpoint commonPrefix (bound : nat) (s1 s2 : jsstring) : Z :=
  match bound, s1, s2 with
  | S bound', c1 :: s1', c2 :: s2' =>
      if c1 =? c2 then 1 + commonPrefix bound' s1' s2' else 0
  | _, _, _ => 0
  end.

Definition jaroWinkler (s1 s2 : jsstring) : outcome Q :=
  if bool_decide (s1 = s2) then Returns 1%Q
  else if bool_decide (s1 = []) || bool_decide (s2 = []) then Returns 0%Q
  else
    let len1 := Z.of_nat (length s1) in
    let len2 := Z.of_nat (length s2) in
    let matchWindow := Z.max len1 len2 / 2 - 1 in
    let st := findMatches s1 s2 matchWindow in
    if matches st =? 0 then Returns 0%Q
    else
      transpositions ← countTranspositions s1 s2 (s1Matches st) (s2Matches st);
      let jaro :=
        ((inject_Z (matches st) / inject_Z len1
          + inject_Z (matches st) / inject_Z len2
          + (inject_Z (matches st) - inject_Z transpositions / 2)
            / inject_Z (matches st)) / 3)%Q in
      let prefix := commonPrefix 4 s1 s2 in
      Returns (jaro + inject_Z prefix * 0.1 * (1 - jaro))%Q.

(** ** The comparison route *)

Record Comparison : Type := {
  name1 : ArabicName;
  name2 : ArabicName;
  soundexMatch : bool;
  similarity : Q;
  matchScore : Q
}.

(** The handler of [POST /compare], on the two names of the request body. *)
Definition compareHandler (n1 n2 : jsstring) : outcome Comparison :=
  norm1 ← normalizeArabicName n1;
  norm2 ← normalizeArabicName n2;
  let soundexMatch := bool_decide (soundex norm1 = soundex norm2) in
  similarity ← jaroWinkler (normalized norm1) (normalized norm2);
  Returns {| name1 := norm1; name2 := norm2;
             soundexMatch := soundexMatch;
             similarity := similarity;
             matchScore := if soundexMatch then Qmax similarity 0.85
                           else similarity |}.

(** ** The case conversion of Basic Latin

    On strings of Basic Latin letters, digits and punctuation the
    runtime's conversions act code unit by code unit on [A-Z] and [a-z]. *)
Definition asciiToLower (s : jsstring) : jsstring :=
  map (fun c => if (0x41 <=? c) && (c <=? 0x5A) then c + 0x20 else c) s.

Definition asciiToUpper (s : jsstring) : jsstring :=
  map (fun c => if (0x61 <=? c) && (c <=? 0x7A) then c - 0x20 else c) s.

(** * Vocabulary of the properties *)

(** The number of raised flags of an array. *)
Fixpoint countTrue (l : list bool) : nat :=
  match l with
  | [] => 0
  | b :: l' => (if b then 1 else 0) + countTrue l'
  end.

(** A matching between the positions of two strings is saturated when every
    admissible pair has an end that is matched no later than the other end.
    The property does not mention the side the search started from. *)
Record saturatedMatching (admissible M : nat -> nat -> Prop) : Prop := {
  sm_admissible : forall i j, M i j -> admissible i j;
  sm_functional : forall i j j', M i j -> M i j' -> j = j';
  sm_injective : forall i i' j, M i j -> M i' j -> i = i';
  sm_saturated : forall i j, admissible i j ->
      (exists j', (j' <= j)%nat /\ M i j') \/ (exists i', (i' <= i)%nat /\ M i' j)
}.
Arguments sm_admissible {admissible M}.
Arguments sm_functional {admissible M}.
Arguments sm_injective {admissible M}.
Arguments sm_saturated {admissible M}.

(** The positions [i] of the first string and [j] of the second are at most
    [w] apart. *)
Definition inWindow (w : Z) (i j : nat) : Prop :=
  Z.of_nat i - w <= Z.of_nat j <= Z.of_nat i + w.

(** A pair of positions the inner loop may match: equal code units, at
    most [w] apart. *)
Definition admissiblePair (s1 s2 : list Z) (w : Z) (i j : nat) : Prop :=
  (exists c, s1 !! i = Some c /\ s2 !! j = Some c) /\ inWindow w i j.

(** What holds after the rounds [0 .. n-1] of the outer loop; [P] lists the
    pairs [(i, j)] matched so far. *)
Record matchInv (s1 s2 : list Z) (w : Z)
    (n : nat) (st : matchState) (P : list (nat * nat)) : Prop := {
  mi_len1 : length (s1Matches st) = length s1;
  mi_len2 : length (s2Matches st) = length s2;
  mi_flag1 : forall i, flag (s1Matches st) i = true <-> exists j, (i, j) ∈ P;
  mi_flag2 : forall j, flag (s2Matches st) j = true <-> exists i, (i, j) ∈ P;
  mi_adm : forall i j, (i, j) ∈ P -> admissiblePair s1 s2 w i j /\ (i < n)%nat;
  mi_fun : forall i j j', (i, j) ∈ P -> (i, j') ∈ P -> j = j';
  mi_inj : forall i i' j, (i, j) ∈ P -> (i', j) ∈ P -> i = i';
  mi_sat : forall i j, (i < n)%nat -> admissiblePair s1 s2 w i j ->
      (exists j', (j' <= j)%nat /\ (i, j') ∈ P)
      \/ (exists i', (i' <= i)%nat /\ (i', j) ∈ P);
  mi_count1 : matches st = Z.of_nat (countTrue (s1Matches st));
  mi_count2 : matches st = Z.of_nat (countTrue (s2Matches st))
}.
Arguments mi_len1 {s1 s2 w n st P}.
Arguments mi_len2 {s1 s2 w n st P}.
Arguments mi_flag1 {s1 s2 w n st P}.
Arguments mi_flag2 {s1 s2 w n st P}.
Arguments mi_adm {s1 s2 w n st P}.
Arguments mi_fun {s1 s2 w n st P}.
Arguments mi_inj {s1 s2 w n st P}.
Arguments mi_sat {s1 s2 w n st P}.
Arguments mi_count1 {s1 s2 w n st P}.
Arguments mi_count2 {s1 s2 w n st P}.

(** The state before the first round. *)
Definition initialState (s1 s2 : list Z) : matchState :=
  {| s1Matches := replicate (length s1) false;
     s2Matches := replicate (length s2) false;
     matches := 0 |}.

(** The code units of a string at its flagged positions, in order. *)
Fixpoint picked (s : list Z) (flags : list bool) : list Z :=
  match s, flags with
  | c :: s', b :: flags' => if b then c :: picked s' flags' else picked s' flags'
  | _, _ => []
  end.

(** The number of positions at which two sequences differ. *)
Fixpoint mismatches (a b : list Z) : Z :=
  match a, b with
  | x :: a', y :: b' => (if x =? y then 0 else 1) + mismatches a' b'
  | _, _ => 0
  end.

(** The arithmetic at the end of [jaroWinkler], as a function of the
    counters. *)
Definition score (m t len1 len2 prefix : Z) : Q :=
  let jaro :=
    ((inject_Z m / inject_Z len1 + inject_Z m / inject_Z len2
      + (inject_Z m - inject_Z t / 2) / inject_Z m) / 3)%Q in
  (jaro + inject_Z prefix * 0.1 * (1 - jaro))%Q.

(** No code unit of [s] is matched by [ARABIC_DIACRITICS]. *)
Definition clean (s : list Z) : Prop := Forall (fun c => isDiacritic c = false) s.

(** The [normalized] field computed by [normalizeArabicName]. *)
Definition arabicNormalForm (name : list Z) : list Z :=
  trim (collapseWhitespace
          (normalizeArabicPrefixes (normalizeArabicLetters (removeDiacritics name)))).

(** The [normalized] field computed by [normalizeEnglishName]. *)
Definition englishNormalForm (toLowerCase toUpperCase : list Z -> list Z)
    (name : list Z) : list Z :=
  join (lit " ")
    (map (capitalize toUpperCase)
       (split 0x20 (trim (collapseWhitespace (normalizeEnglishPrefixes toLowerCase name))))).

(** The [normalized] field of either result. *)
Definition normalizedField (r : ArabicName + EnglishName) : list Z :=
  match r with
  | inl arabic => normalized arabic
  | inr english => en_normalized english
  end.

(** The contract of the prefix normaliser in the words of the
    specification: every entry is tried in table order; a matching entry
    rewrites the head of the string, and the entries after it are tried on
    the rewritten string. *)
Fixpoint scanPrefixes (table : list (list Z * list Z)) (s : list Z) : list Z :=
  match table with
  | [] => s
  | (prefix, replacement) :: later =>
      if startsWith s prefix
      then scanPrefixes later (replacement ++ drop (length prefix) s)
      else scanPrefixes later s
  end.

(** The other reading, which the service does not follow: the scan ends at
    the first matching entry. *)
Fixpoint stopAtFirstPrefix (table : list (list Z * list Z)) (s : list Z) : list Z :=
  match table with
  | [] => s
  | (prefix, replacement) :: later =>
      if startsWith s prefix
      then replacement ++ drop (length prefix) s
      else stopAtFirstPrefix later s
  end.

(** Every code unit of [s] is whitespace. *)
Definition blank (s : list Z) : Prop := Forall (fun c => isWhitespace c = true) s.

(** The letter a code unit becomes under [normalizeArabicLetters]. *)
Definition canonicalLetter (c : Z) : Z :=
  fold_left (fun c '(from, to) => if c =? from then to else c) ARABIC_NORMALIZATIONS c.

(** No table prefix begins with whitespace. *)
Definition startsWithLetter (entry : list Z * list Z) : Prop :=
  exists c rest, entry.1 = c :: rest /\ isWhitespace c = false.

(** * Callers of the normalisers *)

(** ** [normalizePatientNames]

    The name entries and the extensions of a FHIR Patient, with the
    properties the service reads or writes. Arrays that the function
    updates in place live in a heap of arrays, addressed by their index:
    the copy [{ ...patient }] shares the [extension] array of [patient]. *)

Record HumanName : Type := {
  text : option jsstring;
  family : option jsstring;
  given : option (list jsstring)
}.

Record Extension : Type := {
  url : jsstring;
  valueString : option jsstring;
  valueCode : option jsstring;
  valueBoolean : option bool;
  conceptCode : option jsstring   (* [valueCodeableConcept?.coding?.[0]?.code] *)
}.

(** A name entry after normalisation: the properties of the entry it was
    copied from, and the three properties written on the copy. *)
Record NormalizedHumanName : Type := {
  source : HumanName;
  _originalText : option jsstring;
  _normalized : jsstring;
  _soundex : option jsstring
}.

Record Patient : Type := {
  patient_name : option (list HumanName);
  patient_extension : option nat
}.

Record EnrichedPatient : Type := {
  enriched_name : option (list NormalizedHumanName);
  enriched_extension : option nat
}.

Abbreviation heap := (list (list Extension)) (only parsing).

(** A string property as a condition: [undefined] and [''] are falsy. *)
Definition truthy (o : option jsstring) : option jsstring :=
  match o with
  | Some (c :: s) => Some (c :: s)
  | _ => None
  end.

(** [name.text || name.family || ''] *)
Definition scriptProbe (name : HumanName) : jsstring :=
  default (default [] (truthy (family name))) (truthy (text name)).

(** [name.text || [name.family, ...(name.given || [])].filter(Boolean).join(' ')] *)
Definition fullName (name : HumanName) : jsstring :=
  match truthy (text name) with
  | Some t => t
  | None =>
      join (lit " ")
        (omap truthy (family name :: map Some (default [] (given name))))
  end.

Definition URL_NORMALIZED_ARABIC : jsstring :=
  lit "https://fhir.healthflow.eg/StructureDefinition/name-normalized-arabic".
Definition URL_SOUNDEX_ARABIC : jsstring :=
  lit "https://fhir.healthflow.eg/StructureDefinition/name-soundex-arabic".
Definition URL_NORMALIZED_ENGLISH : jsstring :=
  lit "https://fhir.healthflow.eg/StructureDefinition/name-normalized-english".

(** The object [{ url, valueString }]. *)
Definition stringExtension (u v : jsstring) : Extension :=
  {| url := u; valueString := Some v; valueCode := None;
     valueBoolean := None; conceptCode := None |}.

(** [enriched.extension.push(x)] on the array at address [l]. *)
Definition push (l : nat) (x : Extension) (h : heap) : heap :=
  alter (fun array => array ++ [x]) l h.

Section PatientNames.

Variable toLowerCase toUpperCase : jsstring -> jsstring.

(** The callback of [enriched.name.map]. *)
Definition normalizeName (l : nat) (h : heap) (name : HumanName)
  : outcome (heap * NormalizedHumanName) :=
  if isArabic (scriptProbe name) then
    normResult ← normalizeArabicName (fullName name);
    let h := push l (stringExtension URL_NORMALIZED_ARABIC (normalized normResult)) h in
    let h := push l (stringExtension URL_SOUNDEX_ARABIC (soundex normResult)) h in
    Returns (h, {| source := name; _originalText := text name;
                   _normalized := normalized normResult;
                   _soundex := Some (soundex normResult) |})
  else
    let normResult := normalizeEnglishName toLowerCase toUpperCase (fullName name) in
    let h := push l (stringExtension URL_NORMALIZED_ENGLISH (en_normalized normResult)) h in
    Returns (h, {| source := name; _originalText := text name;
                   _normalized := en_normalized normResult;
                   _soundex := None |}).

(** [enriched.name.map(callback)], the heap threaded through the calls. *)
Fixpoint mapNames (l : nat) (h : heap) (names : list HumanName)
  : outcome (heap * list NormalizedHumanName) :=
  match names with
  | [] => Returns (h, [])
  | name :: names' =>
      first ← normalizeName l h name;
      others ← mapNames l (fst first) names';
      Returns (fst others, snd first :: snd others)
  end.

Definition normalizePatientNames (h : heap) (patient : Patient)
  : outcome (heap * EnrichedPatient) :=
  match patient_name patient with
  | None =>
      Returns (h, {| enriched_name := None;
                     enriched_extension := patient_extension patient |})
  | Some names =>
      let '(h, l) :=
        match patient_extension patient with
        | Some l => (h, l)
        | None => (h ++ [[]], length h)
        end in
      result ← mapNames l h names;
      Returns (fst result, {| enriched_name := Some (snd result);
                              enriched_extension := Some l |})
  end.

End PatientNames.

(** ** [extractExtension] of the registry bridge *)

Inductive jsvalue : Type :=
| VUndefined
| VNull
| VString (s : jsstring)
| VBool (b : bool).

(** [s.includes(sub)] *)
Fixpoint includes (s sub : jsstring) : bool :=
  startsWith s sub
  || match s with
     | [] => false
     | _ :: s' => includes s' sub
     end.

(** [ext.valueString || ext.valueCode || ext.valueBoolean
     || ext.valueCodeableConcept?.coding?.[0]?.code] *)
Definition extensionValue (ext : Extension) : jsvalue :=
  match truthy (valueString ext) with
  | Some s => VString s
  | None =>
      match truthy (valueCode ext) with
      | Some s => VString s
      | None =>
          match valueBoolean ext with
          | Some true => VBool true
          | _ =>
              match conceptCode ext with
              | Some s => VString s
              | None => VUndefined
              end
          end
      end
  end.

(** [extractExtension(patient, name)], on the heap and the [extension]
    property of the patient. *)
Definition extractExtension (h : heap) (extension : option nat) (name : jsstring)
  : jsvalue :=
  match extension ≫= (fun l => h !! l) with
  | None => VNull
  | Some array =>
      match List.find (fun e => includes (url e) name) array with
      | None => VNull
      | Some ext => extensionValue ext
      end
  end.

(** * The Java sibling: [ArabicNameNormalizer]

    The class of the registry that implements the same operations. A Java
    [String] is the list of its UTF-16 code units, an [int] is an integer
    with its wrap-around to 32 bits written where a sum can leave the range,
    a [double] is an exact rational, and a call returns normally or raises
    an exception. The iteration order of a [HashMap] is a parameter. *)
Module Java.

Inductive exception : Type :=
| NullPointerException
| StringIndexOutOfBoundsException
| ArrayIndexOutOfBoundsException
| NumberFormatException
| DateTimeException.

Inductive result (A : Type) : Type :=
| Normal (a : A)
| Raise (e : exception).
Arguments Normal {A} a.
Arguments Raise {A} e.

#[global] Instance result_ret : MRet result := fun A a => Normal a.

#[global] Instance result_bind : MBind result := fun A B k m =>
  match m with
  | Normal a => k a
  | Raise e => Raise e
  end.

(** The value of an [int] expression whose exact value is [x]. *)
Definition wrap32 (x : Z) : Z := (x + 2 ^ 31) mod 2 ^ 32 - 2 ^ 31.

(** A map filled by successive [put]s. *)
Definition puts {V} (entries : list (Z * V)) : gmap Z V :=
  foldl (fun m e => <[e.1 := e.2]> m) ∅ entries.

Definition ARABIC_NORMALIZATIONS : gmap Z Z :=
  puts [ (0x0622, 0x0627); (0x0623, 0x0627); (0x0625, 0x0627); (0x0671, 0x0627);
         (0x0629, 0x0647); (0x0649, 0x064A); (0x0624, 0x0648); (0x0626, 0x064A) ].

Definition ARABIC_SOUNDEX : gmap Z Z :=
  puts [ (0x0628, 0x31); (0x0641, 0x31); (0x0648, 0x31);
         (0x062C, 0x32); (0x0632, 0x32); (0x0633, 0x32); (0x0634, 0x32);
         (0x0635, 0x32); (0x0636, 0x32); (0x0638, 0x32);
         (0x062F, 0x33); (0x0630, 0x33); (0x062A, 0x33); (0x0637, 0x33);
         (0x062B, 0x33);
         (0x0644, 0x34);
         (0x0645, 0x35); (0x0646, 0x35);
         (0x0631, 0x36);
         (0x0642, 0x37); (0x0643, 0x37); (0x063A, 0x37); (0x062E, 0x37);
         (0x0647, 0x38); (0x062D, 0x38); (0x0639, 0x38); (0x0621, 0x38);
         (0x0623, 0x38);
         (0x064A, 0x39) ].

(** The entries put into [ARABIC_PREFIXES] and [ENGLISH_PREFIXES]; their
    keys are distinct, so these are the entries of the maps. *)
Definition ARABIC_PREFIXES : list (list Z * list Z) :=
  [ ([0x0627; 0x0644], []);
    ([0x0639; 0x0628; 0x062F; 0x20; 0x0627; 0x0644],
     [0x0639; 0x0628; 0x062F; 0x0627; 0x0644]);
    ([0x0639; 0x0628; 0x062F; 0x0627; 0x0644],
     [0x0639; 0x0628; 0x062F; 0x0627; 0x0644]) ].

Definition ENGLISH_PREFIXES : list (list Z * list Z) :=
  [ (lit "al-", []); (lit "al ", []);
    (lit "el-", []); (lit "el ", []);
    (lit "abd-", lit "abd"); (lit "abd ", lit "abd");
    (lit "abdel-", lit "abdel"); (lit "abdel ", lit "abdel");
    (lit "abdul-", lit "abdul"); (lit "abdul ", lit "abdul");
    (lit "abu-", lit "abu"); (lit "abu ", lit "abu") ].

(** [ARABIC_DIACRITICS.matcher(text).replaceAll("")], for [text] not null. *)
Definition removeDiacritics (text : list Z) : list Z :=
  List.filter (fun c => negb (isDiacritic c)) text.

Definition normalizeArabicLetters (text : list Z) : list Z :=
  map (fun c => default c (ARABIC_NORMALIZATIONS !! c)) text.

(** The loop over [entrySet()] with its [break] at the first entry whose
    key starts the string. *)
Fixpoint prefixLoop (entrySet : list (list Z * list Z)) (normalized : list Z)
  : list Z :=
  match entrySet with
  | [] => normalized
  | (key, value) :: entries =>
      if startsWith normalized key
      then value ++ drop (length key) normalized
      else prefixLoop entries normalized
  end.

Section Runtime.

(** The orders in which the two maps are iterated. *)
Variable arabicEntrySet englishEntrySet : list (list Z * list Z).

(** [String.toLowerCase()] in the default locale and
    [Character.toUpperCase(char)]. *)
Variable toLowerCase : list Z -> list Z.
Variable toUpperCase : Z -> Z.

Definition normalizeArabicPrefixes (text : list Z) : list Z :=
  prefixLoop arabicEntrySet text.

Definition normalizeEnglishPrefixes (text : list Z) : list Z :=
  prefixLoop englishEntrySet (toLowerCase text).

End Runtime.

(** The [for] loop of [arabicSoundex]; [lastCode] is [None] for [null]. *)
Fixpoint soundexLoop (rest : list Z) (soundex : list Z) (lastCode : option Z)
  : list Z :=
  match rest with
  | [] => soundex
  | c :: rest' =>
      if (length soundex <? 6)%nat then
        match ARABIC_SOUNDEX !! c with
        | Some code =>
            if negb (bool_decide (Some code = lastCode))
            then soundexLoop rest' (soundex ++ [code]) (Some code)
            else soundexLoop rest' soundex lastCode
        | None => soundexLoop rest' soundex lastCode
        end
      else soundex
  end.

(** [arabicSoundex(text)] for [text] not null; [normalized.charAt(0)]
    raises on the empty string. *)
Definition arabicSoundex (text : list Z) : result (list Z) :=
  if bool_decide (text = []) then Normal []
  else
    let normalized := removeDiacritics text in
    let normalized := normalizeArabicLetters normalized in
    match normalized !! 0%nat with
    | None => Raise StringIndexOutOfBoundsException
    | Some firstLetter =>
        let lastCode := ARABIC_SOUNDEX !! firstLetter in
        Normal (padZeros 6 (soundexLoop (drop 1 normalized) [firstLetter] lastCode))
    end.

(** A character that [.] matches: any but a line terminator. *)
Definition isDot (c : Z) : bool :=
  negb ((c =? 0x0A) || (c =? 0x0D) || (c =? 0x85) || (c =? 0x2028) || (c =? 0x2029)).

(** [text.matches(".*[X].*")], where [X] is the class of U+0600 to U+06FF,
    for [text] not null: the whole string is some characters matched by
    [.], a character of the class, and again characters matched by [.]. *)
Fixpoint isArabic (text : list Z) : bool :=
  match text with
  | [] => false
  | c :: text' =>
      ((0x0600 <=? c) && (c <=? 0x06FF) && forallb isDot text')
      || (isDot c && isArabic text')
  end.

(** One round of the outer matching loop of [jaroWinkler]. *)
Definition matchStep (s1 s2 : list Z) (matchWindow : Z)
    (st : matchState) (i : nat) : matchState :=
  let start := Z.max 0 (Z.of_nat i - matchWindow) in
  let end_ := Z.min (Z.of_nat (length s2))
                    (wrap32 (wrap32 (Z.of_nat i + matchWindow) + 1)) in
  match List.find
          (fun j => negb (flag (s2Matches st) j || bool_decide (s1 !! i ≠ s2 !! j)))
          (seq (Z.to_nat start) (Z.to_nat (end_ - start))) with
  | Some j =>
      {| s1Matches := <[i := true]> (s1Matches st);
         s2Matches := <[j := true]> (s2Matches st);
         matches := matches st + 1 |}
  | None => st
  end.

Definition findMatches (s1 s2 : list Z) (matchWindow : Z) : matchState :=
  fold_left (matchStep s1 s2 matchWindow) (seq 0 (length s1))
    {| s1Matches := replicate (length s1) false;
       s2Matches := replicate (length s2) false;
       matches := 0 |}.

(** [while (!s2Matches[k]) k++]: reading past the end of the array raises
    [ArrayIndexOutOfBoundsException], which is [None]. *)
Fixpoint skipUnmatched (fuel : nat) (s2Matches : list bool) (k : nat) : option nat :=
  match fuel with
  | O => None
  | S fuel' =>
      match s2Matches !! k with
      | Some true => Some k
      | Some false => skipUnmatched fuel' s2Matches (S k)
      | None => None
      end
  end.

Definition transpositionStep (s1 s2 : list Z) (s1Matches s2Matches : list bool)
    (acc : result (nat * Z)) (i : nat) : result (nat * Z) :=
  st ← acc;
  if negb (flag s1Matches i) then Normal st
  else
    match skipUnmatched (S (length s2Matches)) s2Matches (fst st) with
    | None => Raise ArrayIndexOutOfBoundsException
    | Some k =>
        Normal (S k, if bool_decide (s1 !! i ≠ s2 !! k)
                     then snd st + 1 else snd st)
    end.

Definition countTranspositions (s1 s2 : list Z) (s1Matches s2Matches : list bool)
  : result Z :=
  st ← fold_left (transpositionStep s1 s2 s1Matches s2Matches)
        (seq 0 (length s1)) (Normal (0%nat, 0));
  Normal (snd st).

(** [jaroWinkler(s1, s2)]; [None] is [null]. *)
Definition jaroWinkler (s1 s2 : option (list Z)) : result Q :=
  match s1, s2 with
  | Some s1, Some s2 =>
      if bool_decide (s1 = s2) then Normal 1%Q
      else if bool_decide (s1 = []) || bool_decide (s2 = []) then Normal 0%Q
      else
        let len1 := Z.of_nat (length s1) in
        let len2 := Z.of_nat (length s2) in
        let matchWindow := Z.max 0 (Z.max len1 len2 ÷ 2 - 1) in
        let st := findMatches s1 s2 matchWindow in
        if matches st =? 0 then Normal 0%Q
        else
          transpositions ← countTranspositions s1 s2 (s1Matches st) (s2Matches st);
          let jaro :=
            ((inject_Z (matches st) / inject_Z len1
              + inject_Z (matches st) / inject_Z len2
              + (inject_Z (matches st) - inject_Z transpositions / 2)
                / inject_Z (matches st)) / 3)%Q in
          let prefix := commonPrefix 4 s1 s2 in
          Normal (jaro + inject_Z prefix * 0.1 * (1 - jaro))%Q
  | _, _ => Normal 0%Q
  end.

(** ** Name normalisation *)

(** The class [\s] of [java.util.regex]: space, tab, line feed, vertical
    tab, form feed and carriage return. *)
Definition isWhitespace (c : Z) : bool :=
  (c =? 0x20) || ((0x09 <=? c) && (c <=? 0x0D)).

(** [s.replaceAll("\\s+", " ")]; [inRun] tells that the previous
    character was whitespace. *)
Fixpoint collapseRuns (inRun : bool) (s : list Z) : list Z :=
  match s with
  | [] => []
  | c :: s' =>
      if isWhitespace c
      then (if inRun then collapseRuns true s' else 0x20 :: collapseRuns true s')
      else c :: collapseRuns false s'
  end.

Definition collapseWhitespace (s : list Z) : list Z := collapseRuns false s.

(** [s.trim()] strips the characters up to U+0020 at both ends. *)
Fixpoint trimStart (s : list Z) : list Z :=
  match s with
  | [] => []
  | c :: s' => if c <=? 0x20 then trimStart s' else s
  end.

Definition trim (s : list Z) : list Z := rev (trimStart (rev (trimStart s))).

(** The trailing empty strings that [String.split] removes. *)
Fixpoint dropTrailingEmpty (parts : list (list Z)) : list (list Z) :=
  match parts with
  | [] => []
  | p :: ps =>
      match dropTrailingEmpty ps with
      | [] => if bool_decide (p = []) then [] else [p]
      | ps' => p :: ps'
      end
  end.

(** [s.split(" ")]: the string itself when it has no space, otherwise the
    pieces between the spaces without the trailing empty ones. *)
Definition splitOnSpace (s : list Z) : list (list Z) :=
  if existsb (fun c => c =? 0x20) s
  then dropTrailingEmpty (split 0x20 s)
  else [s].

(** [s.replace(" ", "")] *)
Definition removeSpaces (s : list Z) : list Z :=
  List.filter (fun c => negb (c =? 0x20)) s.

(** [NormalizedName]; a field that is [null] is [None]. *)
Record NormalizedName : Type := {
  original : option (list Z);
  normalized : list Z;
  soundex : option (list Z);
  parts : list (list Z)
}.

Section Runtime.

Variable arabicEntrySet englishEntrySet : list (list Z * list Z).
Variable toLowerCase : list Z -> list Z.
Variable toUpperCase : Z -> Z.

Definition normalizeArabicName (name : option (list Z)) : result NormalizedName :=
  match name with
  | Some text =>
      if bool_decide (text = []) then
        Normal {| original := name; normalized := []; soundex := Some [];
                  parts := [] |}
      else
        let normalized := removeDiacritics text in
        let normalized := normalizeArabicLetters normalized in
        let normalized := normalizeArabicPrefixes arabicEntrySet normalized in
        let normalized := trim (collapseWhitespace normalized) in
        let parts := splitOnSpace normalized in
        fullSoundex ← arabicSoundex (removeSpaces normalized);
        Normal {| original := name; normalized := normalized;
                  soundex := Some fullSoundex; parts := parts |}
  | None =>
      Normal {| original := None; normalized := []; soundex := Some [];
                parts := [] |}
  end.

(** One round of the capitalising loop, without the separator. *)
Definition capitalizeWord (word : list Z) : list Z :=
  match word with
  | [] => []
  | c :: rest =>
      toUpperCase c :: (if (1 <? length word)%nat then toLowerCase rest else [])
  end.

(** [normalizeEnglishName]; the loop appends a space before every word but
    the first, which is [join]. *)
Definition normalizeEnglishName (name : option (list Z)) : NormalizedName :=
  match name with
  | Some text =>
      if bool_decide (text = []) then
        {| original := name; normalized := []; soundex := None; parts := [] |}
      else
        let normalized := normalizeEnglishPrefixes englishEntrySet toLowerCase text in
        let normalized := trim (collapseWhitespace normalized) in
        let words := splitOnSpace normalized in
        let capitalized := join (lit " ") (map capitalizeWord words) in
        {| original := name; normalized := capitalized; soundex := None;
           parts := splitOnSpace capitalized |}
  | None =>
      {| original := None; normalized := []; soundex := None; parts := [] |}
  end.

(** [a.equals(b)] on strings that may be [null]. *)
Definition equals (a b : option (list Z)) : result bool :=
  match a with
  | Some _ => Normal (bool_decide (a = b))
  | None => Raise NullPointerException
  end.

Definition calculateNameSimilarity (name1 name2 : option (list Z)) : result Q :=
  match name1, name2 with
  | Some text1, Some text2 =>
      let isArabic1 := isArabic text1 in
      let isArabic2 := isArabic text2 in
      if isArabic1 && isArabic2 then
        norm1 ← normalizeArabicName name1;
        norm2 ← normalizeArabicName name2;
        soundexMatch ← equals (soundex norm1) (soundex norm2);
        jw ← jaroWinkler (Some (normalized norm1)) (Some (normalized norm2));
        Normal (if soundexMatch : bool then Qmax jw 0.85 else jw)
      else if negb isArabic1 && negb isArabic2 then
        let norm1 := normalizeEnglishName name1 in
        let norm2 := normalizeEnglishName name2 in
        jaroWinkler (Some (normalized norm1)) (Some (normalized norm2))
      else
        norm1 ← (if isArabic1 then normalizeArabicName name1
                 else Normal (normalizeEnglishName name1));
        norm2 ← (if isArabic2 then normalizeArabicName name2
                 else Normal (normalizeEnglishName name2));
        jaroWinkler (Some (normalized norm1)) (Some (normalized norm2))
  | _, _ => Normal 0%Q
  end.

End Runtime.

End Java.

(** [Character.toUpperCase] on Basic Latin; the characters outside [a-z],
    Arabic letters among them, have no upper case. *)
Definition asciiCharToUpper (c : Z) : Z :=
  if (0x61 <=? c) && (c <=? 0x7A) then c - 0x20 else c.

(** * The Java validator of national identity numbers:
      [EgyptNationalIdValidator]

    The class that follows [ArabicNameNormalizer] in the same file. *)
Module EgyptNationalIdValidator.

Import Java.

Definition isDigit (c : Z) : bool := (0x30 <=? c) && (c <=? 0x39).

(** [NID_PATTERN.matcher(s).matches()]: the whole string is a [2] or a [3]
    and thirteen digits. *)
Definition NID_PATTERN (s : list Z) : bool :=
  match s with
  | c :: rest =>
      ((c =? 0x32) || (c =? 0x33)) && (length rest =? 13)%nat && forallb isDigit rest
  | [] => false
  end.

Definition GOVERNORATES : gmap (list Z) (list Z) :=
  foldl (fun m e => <[e.1 := e.2]> m) ∅
    [ (lit "01", lit "Cairo"); (lit "02", lit "Alexandria");
      (lit "03", lit "Port Said"); (lit "04", lit "Suez");
      (lit "11", lit "Damietta"); (lit "12", lit "Dakahlia");
      (lit "13", lit "Sharqia"); (lit "14", lit "Qalyubia");
      (lit "15", lit "Kafr El Sheikh"); (lit "16", lit "Gharbia");
      (lit "17", lit "Monufia"); (lit "18", lit "Beheira");
      (lit "19", lit "Ismailia"); (lit "21", lit "Giza");
      (lit "22", lit "Beni Suef"); (lit "23", lit "Fayoum");
      (lit "24", lit "Minya"); (lit "25", lit "Asyut");
      (lit "26", lit "Sohag"); (lit "27", lit "Qena");
      (lit "28", lit "Aswan"); (lit "29", lit "Luxor");
      (lit "31", lit "Red Sea"); (lit "32", lit "New Valley");
      (lit "33", lit "Matruh"); (lit "34", lit "North Sinai");
      (lit "35", lit "South Sinai"); (lit "88", lit "Outside Egypt") ].

(** ** The library calls of [validate] *)

(** [java.time.LocalDate] in the ISO calendar. *)
Record LocalDate : Type := {
  year : Z;
  monthValue : Z;
  dayOfMonth : Z
}.

Definition isLeapYear (y : Z) : bool :=
  (y mod 4 =? 0) && (negb (y mod 100 =? 0) || (y mod 400 =? 0)).

Definition lengthOfMonth (y m : Z) : Z :=
  if m =? 2 then (if isLeapYear y then 29 else 28)
  else if (m =? 4) || (m =? 6) || (m =? 9) || (m =? 11) then 30
  else 31.

(** [LocalDate.of(year, month, dayOfMonth)], for the years that
    [validate] builds (1900 to 2099). *)
Definition LocalDate_of (y m d : Z) : result LocalDate :=
  if (1 <=? m) && (m <=? 12) && (1 <=? d) && (d <=? lengthOfMonth y m)
  then Normal {| year := y; monthValue := m; dayOfMonth := d |}
  else Raise DateTimeException.

(** [a.isAfter(b)] *)
Definition isAfter (a b : LocalDate) : bool :=
  (year b <? year a)
  || ((year a =? year b)
      && ((monthValue b <? monthValue a)
          || ((monthValue a =? monthValue b) && (dayOfMonth b <? dayOfMonth a)))).

(** [s.charAt(i)] *)
Definition charAt (s : list Z) (i : nat) : result Z :=
  match s !! i with
  | Some c => Normal c
  | None => Raise StringIndexOutOfBoundsException
  end.

(** [s.substring(beginIndex, endIndex)] *)
Definition substring (s : list Z) (beginIndex endIndex : nat) : result (list Z) :=
  if (beginIndex <=? endIndex)%nat && (endIndex <=? length s)%nat
  then Normal (take (endIndex - beginIndex) (drop beginIndex s))
  else Raise StringIndexOutOfBoundsException.

(** [Character.getNumericValue(c)] on the characters [0] to [9], the only
    ones that reach it: it is called on a string that [NID_PATTERN]
    matched. *)
Definition getNumericValue (c : Z) : Z := c - 0x30.

(** [Integer.parseInt(s)] on a string of digits without sign, as it is
    called here (on two characters of a string that [NID_PATTERN] matched). *)
Definition parseInt (s : list Z) : result Z :=
  if bool_decide (s = []) || negb (forallb isDigit s)
  then Raise NumberFormatException
  else Normal (fold_left (fun n c => 10 * n + (c - 0x30)) s 0).

(** [nid.replaceAll("[\\s-]", "")] *)
Definition removeSeparators (nid : list Z) : list Z :=
  List.filter (fun c => negb (Java.isWhitespace c || (c =? 0x2D))) nid.

(** ** [ValidationResult] *)

(** The check that refused a number, with the value that its message
    quotes; [error] and [errorArabic] are set together and hold the two
    messages of that check. *)
Inductive failure : Type :=
| Required
| WrongLength (length : nat)
| WrongPattern
| InvalidMonth (month : Z)
| InvalidDay (day : Z)
| FutureBirthDate
| InvalidBirthDate
| InvalidGovernorate (govCode : list Z).

(** A field that is [null] is [None]. *)
Record ValidationResult : Type := {
  valid : bool;
  nationalId : option (list Z);
  error : option failure;
  birthDate : option LocalDate;
  gender : option (list Z);
  governorateCode : option (list Z);
  governorateName : option (list Z);
  centuryDigit : Z
}.

(** [new ValidationResult()] *)
Definition newResult : ValidationResult :=
  {| valid := false; nationalId := None; error := None; birthDate := None;
     gender := None; governorateCode := None; governorateName := None;
     centuryDigit := 0 |}.

Definition setValid (v : bool) (r : ValidationResult) : ValidationResult :=
  {| valid := v; nationalId := nationalId r; error := error r;
     birthDate := birthDate r; gender := gender r;
     governorateCode := governorateCode r; governorateName := governorateName r;
     centuryDigit := centuryDigit r |}.

Definition setNationalId (v : list Z) (r : ValidationResult) : ValidationResult :=
  {| valid := valid r; nationalId := Some v; error := error r;
     birthDate := birthDate r; gender := gender r;
     governorateCode := governorateCode r; governorateName := governorateName r;
     centuryDigit := centuryDigit r |}.

(** [setError] and [setErrorArabic] *)
Definition setError (v : failure) (r : ValidationResult) : ValidationResult :=
  {| valid := valid r; nationalId := nationalId r; error := Some v;
     birthDate := birthDate r; gender := gender r;
     governorateCode := governorateCode r; governorateName := governorateName r;
     centuryDigit := centuryDigit r |}.

Definition setBirthDate (v : LocalDate) (r : ValidationResult) : ValidationResult :=
  {| valid := valid r; nationalId := nationalId r; error := error r;
     birthDate := Some v; gender := gender r;
     governorateCode := governorateCode r; governorateName := governorateName r;
     centuryDigit := centuryDigit r |}.

Definition setGender (v : list Z) (r : ValidationResult) : ValidationResult :=
  {| valid := valid r; nationalId := nationalId r; error := error r;
     birthDate := birthDate r; gender := Some v;
     governorateCode := governorateCode r; governorateName := governorateName r;
     centuryDigit := centuryDigit r |}.

Definition setGovernorateCode (v : list Z) (r : ValidationResult) : ValidationResult :=
  {| valid := valid r; nationalId := nationalId r; error := error r;
     birthDate := birthDate r; gender := gender r;
     governorateCode := Some v; governorateName := governorateName r;
     centuryDigit := centuryDigit r |}.

Definition setGovernorateName (v : list Z) (r : ValidationResult) : ValidationResult :=
  {| valid := valid r; nationalId := nationalId r; error := error r;
     birthDate := birthDate r; gender := gender r;
     governorateCode := governorateCode r; governorateName := Some v;
     centuryDigit := centuryDigit r |}.

Definition setCenturyDigit (v : Z) (r : ValidationResult) : ValidationResult :=
  {| valid := valid r; nationalId := nationalId r; error := error r;
     birthDate := birthDate r; gender := gender r;
     governorateCode := governorateCode r; governorateName := governorateName r;
     centuryDigit := v |}.

(** The three statements of every refusal. *)
Definition refuse (e : failure) (r : ValidationResult) : ValidationResult :=
  setError e (setValid false r).

(** ** [validateLuhn] *)

(** The loop of [validateLuhn], on the characters from the last to the
    first; [sum] is an [int]. *)
Fixpoint luhnLoop (rest : list Z) (sum : Z) (alternate : bool) : Z :=
  match rest with
  | [] => sum
  | c :: rest' =>
      let digit := getNumericValue c in
      let digit :=
        if alternate
        then (let digit := digit * 2 in if 9 <? digit then digit - 9 else digit)
        else digit in
      luhnLoop rest' (wrap32 (sum + digit)) (negb alternate)
  end.

Definition validateLuhn (nid : list Z) : bool :=
  Z.rem (luhnLoop (rev nid) 0 false) 10 =? 0.

(** ** [validate] *)

(** The body of the [try] block: [inl] is the result that a [return]
    inside the block hands back, [inr] the result with which the method
    goes on after the block. *)
Definition birthDateBlock (today : LocalDate) (cleanNid : list Z)
    (centuryBase : Z) (result : ValidationResult)
  : Java.result (ValidationResult + ValidationResult) :=
  yy ← substring cleanNid 1 3 ≫= parseInt;
  let year := centuryBase + yy in
  month ← substring cleanNid 3 5 ≫= parseInt;
  day ← substring cleanNid 5 7 ≫= parseInt;
  if (month <? 1) || (12 <? month) then
    Normal (inl (refuse (InvalidMonth month) result))
  else if (day <? 1) || (31 <? day) then
    Normal (inl (refuse (InvalidDay day) result))
  else
    birthDate ← LocalDate_of year month day;
    if isAfter birthDate today then
      Normal (inl (refuse FutureBirthDate result))
    else
      Normal (inr (setBirthDate birthDate result)).

(** [validate(nid)] on the day [today]; the boolean tells whether the
    warning about the checksum was logged. *)
Definition validate (today : LocalDate) (nid : option (list Z))
  : Java.result (ValidationResult * bool) :=
  let result := newResult in
  match nid with
  | None => Normal (refuse Required result, false)
  | Some nid =>
      if bool_decide (nid = []) then Normal (refuse Required result, false)
      else
        let cleanNid := removeSeparators nid in
        let result := setNationalId cleanNid result in
        if negb (length cleanNid =? 14)%nat then
          Normal (refuse (WrongLength (length cleanNid)) result, false)
        else if negb (NID_PATTERN cleanNid) then
          Normal (refuse WrongPattern result, false)
        else
          c ← charAt cleanNid 0;
          let century := getNumericValue c in
          let result := setCenturyDigit century result in
          let centuryBase := if century =? 2 then 1900 else 2000 in
          match birthDateBlock today cleanNid centuryBase result with
          | Raise _ => Normal (refuse InvalidBirthDate result, false)
          | Normal (inl result) => Normal (result, false)
          | Normal (inr result) =>
              govCode ← substring cleanNid 7 9;
              match GOVERNORATES !! govCode with
              | None => Normal (refuse (InvalidGovernorate govCode) result, false)
              | Some govName =>
                  let result := setGovernorateCode govCode result in
                  let result := setGovernorateName govName result in
                  c ← charAt cleanNid 12;
                  let genderDigit := getNumericValue c in
                  let result :=
                    setGender (if Z.rem genderDigit 2 =? 1 then lit "male"
                               else lit "female") result in
                  let warned := negb (validateLuhn cleanNid) in
                  Normal (setValid true result, warned)
              end
          end
  end.

Definition isValid (today : LocalDate) (nid : option (list Z)) : Java.result bool :=
  r ← validate today nid; Normal (valid r.1).

Definition extractBirthDate (today : LocalDate) (nid : option (list Z))
  : Java.result (option LocalDate) :=
  r ← validate today nid; Normal (if valid r.1 then birthDate r.1 else None).

Definition extractGender (today : LocalDate) (nid : option (list Z))
  : Java.result (option (list Z)) :=
  r ← validate today nid; Normal (if valid r.1 then gender r.1 else None).

Definition extractGovernorate (today : LocalDate) (nid : option (list Z))
  : Java.result (option (list Z)) :=
  r ← validate today nid; Normal (if valid r.1 then governorateName r.1 else None).

End EgyptNationalIdValidator.

(** * Vocabulary of the further properties *)

(** [digits] never repeats the digit before it; [lastCode] is the code
    before the first one. *)
Fixpoint collapsed (lastCode : list Z) (digits : list Z) : Prop :=
  match digits with
  | [] => True
  | d :: digits' => [d] <> lastCode /\ collapsed [d] digits'
  end.

(** Whitespace occurs in [s] only as single spaces; [afterSpace] tells that
    a space stands just before [s]. *)
Fixpoint singleSpaced (afterSpace : bool) (s : list Z) : Prop :=
  match s with
  | [] => True
  | c :: s' =>
      if isWhitespace c
      then c = 0x20 /\ afterSpace = false /\ singleSpaced true s'
      else singleSpaced false s'
  end.

(** A token: not empty and free of whitespace. *)
Definition isToken (p : list Z) : Prop :=
  p <> [] /\ Forall (fun c => isWhitespace c = false) p.

(** The extensions that [normalizePatientNames] pushes for one name entry. *)
Definition nameExtensions (toLowerCase toUpperCase : list Z -> list Z)
    (name : HumanName) : list Extension :=
  if isArabic (scriptProbe name) then
    match normalizeArabicName (fullName name) with
    | Returns r =>
        [ stringExtension URL_NORMALIZED_ARABIC (normalized r);
          stringExtension URL_SOUNDEX_ARABIC (soundex r) ]
    | _ => []
    end
  else
    [ stringExtension URL_NORMALIZED_ENGLISH
        (en_normalized (normalizeEnglishName toLowerCase toUpperCase (fullName name))) ].

(** How a normalised entry relates to the entry it was copied from. *)
Definition normalizedFrom (toLowerCase toUpperCase : list Z -> list Z)
    (name : HumanName) (out : NormalizedHumanName) : Prop :=
  source out = name
  /\ _originalText out = text name
  /\ if isArabic (scriptProbe name) then
       exists r, normalizeArabicName (fullName name) = Returns r
                 /\ _normalized out = normalized r
                 /\ _soundex out = Some (soundex r)
     else
       _normalized out
       = en_normalized (normalizeEnglishName toLowerCase toUpperCase (fullName name))
       /\ _soundex out = None.

(** The array that [enriched.extension] denotes when the names are mapped:
    the one of the patient, found in the heap, or a new empty one. *)
Definition extensionArray (h : list (list Extension)) (patient : Patient)
    (l : nat) (old : list Extension) : Prop :=
  match patient_extension patient with
  | Some l' => l = l' /\ h !! l = Some old
  | None => l = length h /\ old = []
  end.

(** The Java method ends the way the JavaScript function does: with the
    same value, or with an exception where the function throws or never
    returns. *)
Definition agrees {A} (o : outcome A) (r : Java.result A) : Prop :=
  match o, r with
  | Returns a, Java.Normal b => a = b
  | Throws TypeError, Java.Raise Java.StringIndexOutOfBoundsException => True
  | Diverges, Java.Raise Java.ArrayIndexOutOfBoundsException => True
  | _, _ => False
  end.

(** No key of [table] starts another key of it. *)
Definition prefixFree (table : list (list Z * list Z)) : bool :=
  forallb (fun e1 =>
             forallb (fun e2 => bool_decide (e1 = e2) || negb (startsWith e1.1 e2.1))
                     table)
          table.

(** What the matching loop keeps whatever its window is: the sizes of the
    two arrays, the counter as the number of flags set in either array, and
    no flag of [s1Matches] set from position [n] on. *)
Definition countersInv (s1 s2 : list Z) (n : nat) (st : matchState) : Prop :=
  length (s1Matches st) = length s1
  /\ length (s2Matches st) = length s2
  /\ matches st = Z.of_nat (countTrue (s1Matches st))
  /\ countTrue (s1Matches st) = countTrue (s2Matches st)
  /\ forall i, (n <= i)%nat -> flag (s1Matches st) i = false.

(** What one character adds to the checksum of [validateLuhn]. *)
Definition luhnDigit (alternate : bool) (c : Z) : Z :=
  let digit := c - 0x30 in
  if alternate then (if 9 <? digit * 2 then digit * 2 - 9 else digit * 2) else digit.

(** The checksum of the characters [rest], read in the order of the loop. *)
Fixpoint luhnTotal (rest : list Z) (alternate : bool) : Z :=
  match rest with
  | [] => 0
  | c :: rest' => luhnDigit alternate c + luhnTotal rest' (negb alternate)
  end.

(** * Properties *)

(** ** Flags and counting *)

Lemma countTrue_app (l1 l2 : list bool) :
  countTrue (l1 ++ l2) = (countTrue l1 + countTrue l2)%nat.
Proof. induction l1 as [|b l1 IH]; simpl; [done | rewrite IH; lia]. Qed.

Lemma countTrue_le_length (l : list bool) : (countTrue l <= length l)%nat.
Proof. induction l as [|[] l IH]; simpl; lia. Qed.

Lemma countTrue_replicate_false (n : nat) : countTrue (replicate n false) = 0%nat.
Proof. induction n; simpl; done. Qed.

Lemma countTrue_take_drop (n : nat) (l : list bool) :
  countTrue l = (countTrue (take n l) + countTrue (drop n l))%nat.
Proof. by rewrite <- countTrue_app, take_drop. Qed.

Lemma countTrue_take_S (n : nat) (l : list bool) (b : bool) :
  l !! n = Some b ->
  countTrue (take (S n) l) = (countTrue (take n l) + if b then 1 else 0)%nat.
Proof.
  intros H. rewrite (take_S_r _ _ _ H), countTrue_app. simpl. lia.
Qed.

Lemma countTrue_take_all (n : nat) (l : list bool) :
  (length l <= n)%nat -> countTrue (take n l) = countTrue l.
Proof. intros H. by rewrite take_ge. Qed.

Lemma countTrue_insert (i : nat) (l : list bool) :
  l !! i = Some false -> countTrue (<[i := true]> l) = S (countTrue l).
Proof.
  revert i. induction l as [|b l IH]; intros [|i] H; simpl in *; try done.
  - by inversion H.
  - rewrite IH; [lia | done].
Qed.

Lemma flag_true (l : list bool) (i : nat) : flag l i = true <-> l !! i = Some true.
Proof. unfold flag. destruct (l !! i) as [[]|]; simpl; split; congruence. Qed.

Lemma flag_false_lt (l : list bool) (i : nat) :
  (i < length l)%nat -> flag l i = false -> l !! i = Some false.
Proof.
  intros Hlt. unfold flag. destruct (lookup_lt_is_Some_2 l i Hlt) as [b ->].
  simpl. by intros ->.
Qed.

Lemma flag_insert (l : list bool) (i j : nat) :
  (i < length l)%nat ->
  flag (<[i := true]> l) j = true <-> j = i \/ flag l j = true.
Proof.
  intros Hlt. unfold flag. destruct (decide (i = j)) as [->|Hne].
  - rewrite list_lookup_insert_eq by done. simpl. tauto.
  - rewrite list_lookup_insert_ne by done. split; [tauto | intros [->|]; done].
Qed.

Lemma flags_ext (l1 l2 : list bool) :
  length l1 = length l2 -> (forall i, flag l1 i = flag l2 i) -> l1 = l2.
Proof.
  intros Hlen Hflag. apply list_eq_same_length with (n := length l1); try done.
  intros i x y Hi Hx Hy. specialize (Hflag i). unfold flag in Hflag.
  rewrite Hx, Hy in Hflag. done.
Qed.

(** The first element of a range that satisfies a test. *)
Lemma find_seq_Some (f : nat -> bool) (a n j : nat) :
  List.find f (seq a n) = Some j ->
  (a <= j < a + n)%nat /\ f j = true /\
  forall x, (a <= x < j)%nat -> f x = false.
Proof.
  revert a. induction n as [|n IH]; intros a; simpl; [done|].
  destruct (f a) eqn:Hfa.
  - intros [= <-]. repeat split; try lia; try done; intros; lia.
  - intros H. destruct (IH _ H) as (Hr & Hf & Hmin).
    repeat split; try lia; try done.
    intros x Hx. destruct (decide (x = a)) as [->|]; [done|]. apply Hmin. lia.
Qed.

Lemma find_seq_None (f : nat -> bool) (a n : nat) :
  List.find f (seq a n) = None -> forall x, (a <= x < a + n)%nat -> f x = false.
Proof.
  intros H x Hx. apply (List.find_none f _ H). apply in_seq. lia.
Qed.

(** ** Saturated matchings are unique

    Two saturated matchings for the same admissible pairs hold the same
    pairs: a pair of one that the other lacks would give a pair with both
    positions strictly smaller and the same defect. *)
Section Saturated.

Variable admissible : nat -> nat -> Prop.

Lemma saturatedMatching_incl (M M' : nat -> nat -> Prop) :
  saturatedMatching admissible M -> saturatedMatching admissible M' ->
  forall i j, M i j -> M' i j.
Proof.
  intros HM HM'.
  assert (forall n i j, (i + j < n)%nat -> M i j -> M' i j) as Hind.
  { induction n as [|n IH]; intros i j Hn Hij; [lia|].
    destruct (sm_saturated HM' i j (sm_admissible HM _ _ Hij))
      as [(j' & Hle & Hj') | (i' & Hle & Hi')].
    - destruct (decide (j' = j)) as [->|Hne]; [done|]. exfalso.
      destruct (sm_saturated HM i j' (sm_admissible HM' _ _ Hj'))
        as [(j'' & Hle' & Hj'') | (i'' & Hle' & Hi'')].
      + pose proof (sm_functional HM _ _ _ Hij Hj''). lia.
      + assert (i'' <> i) as Hne'.
        { intros ->. pose proof (sm_functional HM _ _ _ Hij Hi''). lia. }
        assert (M' i'' j') as H' by (apply IH; [lia | done]).
        pose proof (sm_injective HM' _ _ _ Hj' H'). lia.
    - destruct (decide (i' = i)) as [->|Hne]; [done|]. exfalso.
      destruct (sm_saturated HM i' j (sm_admissible HM' _ _ Hi'))
        as [(j'' & Hle' & Hj'') | (i'' & Hle' & Hi'')].
      + assert (j'' <> j) as Hne'.
        { intros ->. pose proof (sm_injective HM _ _ _ Hij Hj''). lia. }
        assert (M' i' j'') as H' by (apply IH; [lia | done]).
        pose proof (sm_functional HM' _ _ _ Hi' H'). lia.
      + pose proof (sm_injective HM _ _ _ Hij Hi''). lia. }
  intros i j. apply (Hind (S (i + j))). lia.
Qed.

End Saturated.

(** ** The matching loop of [jaroWinkler] *)
Section Matching.

Variables (s1 s2 : list Z) (w : Z).

Lemma flag_replicate_false (n i : nat) : flag (replicate n false) i = false.
Proof.
  unfold flag. destruct (replicate n false !! i) as [b|] eqn:H; [|done].
  apply lookup_replicate in H as [-> _]. done.
Qed.

Lemma matchInv_initial : matchInv s1 s2 w 0 (initialState s1 s2) [].
Proof.
  constructor; simpl.
  - apply length_replicate.
  - apply length_replicate.
  - intros i. rewrite flag_replicate_false. split; [done|].
    intros [j H]. by apply elem_of_nil in H.
  - intros j. rewrite flag_replicate_false. split; [done|].
    intros [i H]. by apply elem_of_nil in H.
  - intros i j H. by apply elem_of_nil in H.
  - intros i j j' H. by apply elem_of_nil in H.
  - intros i i' j H. by apply elem_of_nil in H.
  - intros i j H. lia.
  - by rewrite countTrue_replicate_false.
  - by rewrite countTrue_replicate_false.
Qed.

(** The range scanned by the inner loop holds the positions of [s2] in
    the window of [i]. *)
Lemma scanned_range (i j : nat) :
  let start := Z.max 0 (Z.of_nat i - w) in
  let end_ := Z.min (Z.of_nat (length s2)) (Z.of_nat i + w + 1) in
  (Z.to_nat start <= j < Z.to_nat start + Z.to_nat (end_ - start))%nat
  <-> (j < length s2)%nat /\ inWindow w i j.
Proof. unfold inWindow. lia. Qed.

Lemma candidate_spec (st : matchState) (i j : nat) :
  negb (flag (s2Matches st) j || bool_decide (s1 !! i ≠ s2 !! j)) = true
  <-> flag (s2Matches st) j = false /\ s1 !! i = s2 !! j.
Proof.
  rewrite negb_true_iff, orb_false_iff, bool_decide_eq_false.
  split; intros [H1 H2]; split; try done.
  - by destruct (decide (s1 !! i = s2 !! j)).
  - intros H. done.
Qed.

Lemma matchStep_inv (n : nat) (st : matchState) (P : list (nat * nat)) :
  (n < length s1)%nat -> matchInv s1 s2 w n st P ->
  exists P', matchInv s1 s2 w (S n) (matchStep s1 s2 w st n) P'.
Proof.
  intros Hn HI. unfold matchStep.
  destruct (lookup_lt_is_Some_2 s1 n Hn) as [c Hc].
  assert (flag (s1Matches st) n = false) as Hfresh.
  { destruct (flag (s1Matches st) n) eqn:E; [|done].
    apply (mi_flag1 HI) in E as [j Hj].
    apply (mi_adm HI) in Hj. lia. }
  match goal with |- context [List.find ?f ?l] =>
    destruct (List.find f l) as [j|] eqn:Hfind end.
  - apply find_seq_Some in Hfind as (Hrange & Hcand & Hmin).
    apply scanned_range in Hrange as [Hj Hwin].
    apply candidate_spec in Hcand as [Hfree Heq].
    exists ((n, j) :: P). constructor; simpl.
    + rewrite length_insert. apply (mi_len1 HI).
    + rewrite length_insert. apply (mi_len2 HI).
    + intros i. rewrite flag_insert by (rewrite (mi_len1 HI); done).
      rewrite (mi_flag1 HI). split.
      * intros [->|[j0 Hj0]]; [exists j | exists j0]; apply elem_of_cons; auto.
      * intros [j0 [Heq0|Hin]%elem_of_cons]; [left; by simplify_eq | right; by exists j0].
    + intros j0. rewrite flag_insert by (rewrite (mi_len2 HI); done).
      rewrite (mi_flag2 HI). split.
      * intros [->|[i0 Hi0]]; [exists n | exists i0]; apply elem_of_cons; auto.
      * intros [i0 [Heq0|Hin]%elem_of_cons]; [left; by simplify_eq | right; by exists i0].
    + intros i j0 [[= -> ->]|H]%elem_of_cons.
      * split; [|lia]. split; [|done]. exists c. by rewrite <- Heq.
      * destruct (mi_adm HI _ _ H). split; [done | lia].
    + intros i j0 j1 [?|H]%elem_of_cons [?|H']%elem_of_cons; simplify_eq; try done.
      * apply (mi_adm HI) in H'. lia.
      * apply (mi_adm HI) in H. lia.
      * by apply (mi_fun HI i).
    + assert (forall i', (i', j) ∉ P) as Hunused.
      { intros i' Hin.
        assert (flag (s2Matches st) j = true) by (apply (mi_flag2 HI); eauto).
        congruence. }
      intros i i' j0 [?|H]%elem_of_cons [?|H']%elem_of_cons; simplify_eq; try done.
      * by apply Hunused in H'.
      * by apply Hunused in H.
      * by apply (mi_inj HI _ _ j0).
    + intros i j0 Hi Hadm. destruct (decide (i = n)) as [->|Hne].
      * destruct Hadm as [(c' & Hc' & Hc2) Hwin0].
        destruct (flag (s2Matches st) j0) eqn:Hfl.
        -- apply (mi_flag2 HI) in Hfl as [i' Hi'].
           right. exists i'. split; [|apply elem_of_cons; by right].
           apply (mi_adm HI) in Hi'. lia.
        -- left. exists j. split; [|apply elem_of_cons; by left].
           destruct (decide (j <= j0)%nat) as [|Hgt]; [done|]. exfalso.
           assert (negb (flag (s2Matches st) j0
                         || bool_decide (s1 !! n ≠ s2 !! j0)) = false) as Hno.
           { apply Hmin. split; [|lia].
             assert (j0 < length s2)%nat as Hj0 by (by apply lookup_lt_Some in Hc2).
             pose proof (proj2 (scanned_range n j0) (conj Hj0 Hwin0)). simpl in *. lia. }
           assert (negb (flag (s2Matches st) j0
                         || bool_decide (s1 !! n ≠ s2 !! j0)) = true) as Hyes.
           { apply candidate_spec. split; [done | congruence]. }
           congruence.
      * destruct (mi_sat HI i j0) as [(j' & ? & ?)|(i' & ? & ?)]; [lia | done | |].
        -- left. exists j'. split; [done | apply elem_of_cons; by right].
        -- right. exists i'. split; [done | apply elem_of_cons; by right].
    + rewrite countTrue_insert, (mi_count1 HI); [lia|].
      apply flag_false_lt; [rewrite (mi_len1 HI)|]; done.
    + rewrite countTrue_insert, (mi_count2 HI); [lia|].
      apply flag_false_lt; [rewrite (mi_len2 HI)|]; done.
  - exists P. destruct HI. constructor; try done.
    + intros i j H. destruct (mi_adm0 _ _ H). split; [done | lia].
    + intros i j0 Hi Hadm. destruct (decide (i = n)) as [->|Hne].
      * destruct Hadm as [(c' & Hc' & Hc2) Hwin0].
        assert (j0 < length s2)%nat as Hj0 by (by apply lookup_lt_Some in Hc2).
        pose proof (find_seq_None _ _ _ Hfind j0
                      (proj2 (scanned_range n j0) (conj Hj0 Hwin0))) as Hno.
        destruct (flag (s2Matches st) j0) eqn:Hfl.
        -- apply mi_flag4 in Hfl as [i' Hi'].
           right. exists i'. split; [|done]. apply mi_adm0 in Hi'. lia.
        -- exfalso.
           assert (negb (flag (s2Matches st) j0
                         || bool_decide (s1 !! n ≠ s2 !! j0)) = true) as Hyes.
           { apply candidate_spec. split; [done | congruence]. }
           congruence.
      * apply mi_sat0; [lia | done].
Qed.

Lemma matchLoop_inv (n : nat) :
  (n <= length s1)%nat ->
  exists P, matchInv s1 s2 w n (fold_left (matchStep s1 s2 w) (seq 0 n) (initialState s1 s2)) P.
Proof.
  induction n as [|n IH]; intros Hn.
  - exists []. apply matchInv_initial.
  - destruct IH as [P HP]; [lia|].
    rewrite seq_S, fold_left_app. simpl. apply (matchStep_inv n _ P); [lia | done].
Qed.

Lemma findMatches_inv :
  exists P, matchInv s1 s2 w (length s1) (findMatches s1 s2 w) P.
Proof. apply matchLoop_inv. lia. Qed.

Lemma matchInv_saturated (st : matchState) (P : list (nat * nat)) :
  matchInv s1 s2 w (length s1) st P ->
  saturatedMatching (admissiblePair s1 s2 w) (fun i j => (i, j) ∈ P).
Proof.
  intros HI. constructor.
  - intros i j H. by apply (mi_adm HI).
  - apply (mi_fun HI).
  - apply (mi_inj HI).
  - intros i j Hadm. apply (mi_sat HI); [|done].
    destruct Hadm as [(c & Hc & _) _]. by apply lookup_lt_Some in Hc.
Qed.

End Matching.

Lemma admissiblePair_sym (s1 s2 : list Z) (w : Z) (i j : nat) :
  admissiblePair s1 s2 w i j <-> admissiblePair s2 s1 w j i.
Proof.
  unfold admissiblePair, inWindow.
  split; intros [(c & H1 & H2) Hw]; (split; [exists c; done | lia]).
Qed.

Lemma saturatedMatching_flip (s1 s2 : list Z) (w : Z) (M : nat -> nat -> Prop) :
  saturatedMatching (admissiblePair s2 s1 w) M ->
  saturatedMatching (admissiblePair s1 s2 w) (fun i j => M j i).
Proof.
  intros [Ha Hf Hi Hs]. constructor.
  - intros i j H. apply admissiblePair_sym. by apply Ha.
  - intros i j j' H H'. by apply (Hi _ _ _ H H').
  - intros i i' j H H'. by apply (Hf _ _ _ H H').
  - intros i j H. apply admissiblePair_sym in H.
    destruct (Hs _ _ H) as [?|?]; [by right | by left].
Qed.

(** Swapping the two strings swaps the two flag arrays and keeps the
    number of matches: the greedy search finds the same pairs from either
    side. *)
Lemma findMatches_swap (s1 s2 : list Z) (w : Z) :
  s1Matches (findMatches s1 s2 w) = s2Matches (findMatches s2 s1 w)
  /\ s2Matches (findMatches s1 s2 w) = s1Matches (findMatches s2 s1 w)
  /\ matches (findMatches s1 s2 w) = matches (findMatches s2 s1 w).
Proof.
  destruct (findMatches_inv s1 s2 w) as [P HP].
  destruct (findMatches_inv s2 s1 w) as [P' HP'].
  pose proof (matchInv_saturated _ _ _ _ _ HP) as HM.
  pose proof (saturatedMatching_flip s1 s2 w _ (matchInv_saturated _ _ _ _ _ HP')) as HM'.
  pose proof (saturatedMatching_incl _ _ _ HM HM') as Hincl.
  pose proof (saturatedMatching_incl _ _ _ HM' HM) as Hincl'.
  simpl in Hincl, Hincl'.
  assert (s1Matches (findMatches s1 s2 w) = s2Matches (findMatches s2 s1 w)) as E1.
  { apply flags_ext.
    - by rewrite (mi_len1 HP), (mi_len2 HP').
    - intros i. apply eq_true_iff_eq.
      rewrite (mi_flag1 HP), (mi_flag2 HP').
      split; intros [j Hj]; exists j; [by apply Hincl | by apply Hincl']. }
  assert (s2Matches (findMatches s1 s2 w) = s1Matches (findMatches s2 s1 w)) as E2.
  { apply flags_ext.
    - by rewrite (mi_len2 HP), (mi_len1 HP').
    - intros j. apply eq_true_iff_eq.
      rewrite (mi_flag2 HP), (mi_flag1 HP').
      split; intros [i Hi]; exists i; [by apply Hincl | by apply Hincl']. }
  repeat split; try done.
  rewrite (mi_count1 HP), (mi_count2 HP'). by rewrite E1.
Qed.

(** ** The transposition loop of [jaroWinkler] *)

Lemma picked_length (s : list Z) (flags : list bool) :
  length s = length flags -> length (picked s flags) = countTrue flags.
Proof.
  revert flags. induction s as [|c s IH]; intros [|[] flags] H; simpl in *;
    try done; rewrite IH; lia.
Qed.

Lemma picked_lookup (s : list Z) (flags : list bool) (k : nat) (c : Z) :
  flags !! k = Some true -> s !! k = Some c ->
  picked s flags !! countTrue (take k flags) = Some c.
Proof.
  revert flags k. induction s as [|c0 s IH]; intros [|b flags] [|k] Hf Hs;
    simpl in *; try done.
  - by simplify_eq.
  - destruct b; simpl; by apply IH.
Qed.

Lemma mismatches_snoc (a b : list Z) (x y : Z) :
  length a = length b ->
  mismatches (a ++ [x]) (b ++ [y]) = mismatches a b + (if x =? y then 0 else 1).
Proof.
  revert b. induction a as [|x0 a IH]; intros [|y0 b] H; simpl in *; try done.
  - lia.
  - rewrite IH by lia. lia.
Qed.

Lemma mismatches_sym (a b : list Z) : mismatches a b = mismatches b a.
Proof.
  revert b. induction a as [|x a IH]; intros [|y b]; simpl; try done.
  by rewrite IH, (Z.eqb_sym x y).
Qed.

Lemma mismatches_bounds (a b : list Z) :
  0 <= mismatches a b <= Z.of_nat (length a).
Proof.
  revert b. induction a as [|x a IH]; intros [|y b]; simpl; try lia.
  specialize (IH b). destruct (x =? y); lia.
Qed.

Lemma skipUnmatched_spec (flags : list bool) (fuel k : nat) :
  (length flags < fuel + k)%nat -> (0 < countTrue (drop k flags))%nat ->
  exists k', skipUnmatched fuel flags k = Some k'
             /\ flags !! k' = Some true
             /\ countTrue (take k' flags) = countTrue (take k flags).
Proof.
  revert k. induction fuel as [|fuel IH]; intros k Hfuel Hpos.
  - rewrite drop_ge in Hpos by lia. simpl in Hpos. lia.
  - simpl. destruct (flags !! k) as [[]|] eqn:Hk.
    + exists k. done.
    + rewrite (drop_S _ _ _ Hk) in Hpos. simpl in Hpos.
      destruct (IH (S k)) as (k' & H1 & H2 & H3); [lia | done |].
      exists k'. repeat split; try done.
      rewrite H3, (countTrue_take_S _ _ _ Hk). lia.
    + apply lookup_ge_None in Hk. rewrite drop_ge in Hpos by lia.
      simpl in Hpos. lia.
Qed.

#[local] Arguments skipUnmatched : simpl never.

Section Transpositions.

Variables (s1 s2 : list Z) (A B : list bool).
Hypothesis lenA : length A = length s1.
Hypothesis lenB : length B = length s2.
Hypothesis enough : (countTrue A <= countTrue B)%nat.

Lemma transpositionLoop_inv (n : nat) :
  (n <= length s1)%nat ->
  exists k t,
    fold_left (transpositionStep s1 s2 A B) (seq 0 n) (Returns (0%nat, 0))
      = Returns (k, t)
    /\ countTrue (take k B) = countTrue (take n A)
    /\ t = mismatches (take (countTrue (take n A)) (picked s1 A))
                      (take (countTrue (take n A)) (picked s2 B)).
Proof.
  induction n as [|n IH]; intros Hn.
  - exists 0%nat, 0. simpl. done.
  - destruct IH as (k & t & Hloop & Hcount & Ht); [lia|].
    rewrite seq_S, fold_left_app, Hloop. simpl.
    destruct (lookup_lt_is_Some_2 A n) as [b Hb]; [lia|].
    destruct (lookup_lt_is_Some_2 s1 n) as [c1 Hc1]; [lia|].
    unfold transpositionStep. simpl. unfold flag. rewrite Hb. simpl.
    rewrite (countTrue_take_S _ _ _ Hb).
    destruct b; simpl.
    + destruct (skipUnmatched_spec B (S (length B)) k) as (k' & Hskip & Hk' & Hsame).
      { lia. }
      { pose proof (countTrue_take_drop k B).
        pose proof (countTrue_take_drop (S n) A).
        rewrite (countTrue_take_S _ _ _ Hb) in *. lia. }
      rewrite Hskip.
      destruct (lookup_lt_is_Some_2 s2 k') as [c2 Hc2].
      { rewrite <- lenB. by apply lookup_lt_Some in Hk'. }
      exists (S k'), (if bool_decide (s1 !! n ≠ s2 !! k') then t + 1 else t).
      split; [done|]. split.
      { rewrite (countTrue_take_S _ _ _ Hk'). lia. }
      pose proof (picked_lookup _ _ _ _ Hb Hc1) as HX.
      pose proof (picked_lookup _ _ _ _ Hk' Hc2) as HY.
      rewrite Hsame, Hcount in HY.
      replace (countTrue (take n A) + 1)%nat with (S (countTrue (take n A))) by lia.
      rewrite (take_S_r _ _ _ HX), (take_S_r _ _ _ HY).
      rewrite mismatches_snoc.
      2:{ rewrite !length_take. apply lookup_lt_Some in HX, HY. lia. }
      rewrite <- Ht, Hc1, Hc2.
      destruct (Z.eqb_spec c1 c2) as [->|Hne].
      * rewrite bool_decide_eq_false_2 by (intros H; done). lia.
      * rewrite bool_decide_eq_true_2 by congruence. lia.
    + exists k, t. split; [done|]. rewrite Nat.add_0_r. done.
Qed.

Lemma countTranspositions_spec :
  countTrue A = countTrue B ->
  countTranspositions s1 s2 A B
  = Returns (mismatches (picked s1 A) (picked s2 B)).
Proof.
  intros Heq. unfold countTranspositions.
  destruct (transpositionLoop_inv (length s1)) as (k & t & -> & _ & ->); [lia|].
  simpl. rewrite countTrue_take_all by lia.
  rewrite !take_ge; [done | |].
  - rewrite picked_length by done. lia.
  - rewrite picked_length by done. lia.
Qed.

End Transpositions.

(** ** The score of [jaroWinkler] *)

Lemma commonPrefix_sym (bound : nat) (s1 s2 : list Z) :
  commonPrefix bound s1 s2 = commonPrefix bound s2 s1.
Proof.
  revert s1 s2. induction bound as [|bound IH]; intros [|c1 s1] [|c2 s2];
    simpl; try done.
  rewrite (Z.eqb_sym c1 c2), IH. done.
Qed.

Lemma commonPrefix_bounds (bound : nat) (s1 s2 : list Z) :
  0 <= commonPrefix bound s1 s2 <= Z.of_nat bound.
Proof.
  revert s1 s2. induction bound as [|bound IH]; intros [|c1 s1] [|c2 s2];
    simpl commonPrefix; try lia.
  specialize (IH s1 s2). destruct (c1 =? c2); lia.
Qed.

(** What [jaroWinkler] returns past its three early exits. *)
Lemma jaroWinkler_scored (s1 s2 : list Z) :
  s1 <> s2 -> s1 <> [] -> s2 <> [] ->
  let w := Z.max (Z.of_nat (length s1)) (Z.of_nat (length s2)) / 2 - 1 in
  let st := findMatches s1 s2 w in
  matches st <> 0 ->
  jaroWinkler s1 s2
  = Returns (score (matches st)
               (mismatches (picked s1 (s1Matches st)) (picked s2 (s2Matches st)))
               (Z.of_nat (length s1)) (Z.of_nat (length s2))
               (commonPrefix 4 s1 s2)).
Proof.
  intros Hne H1 H2 w st Hm. unfold jaroWinkler.
  rewrite bool_decide_eq_false_2 by done.
  rewrite (bool_decide_eq_false_2 (s1 = [])) by done.
  rewrite (bool_decide_eq_false_2 (s2 = [])) by done.
  simpl orb. cbv iota. fold w. fold st.
  destruct (Z.eqb_spec (matches st) 0) as [|_]; [done|].
  destruct (findMatches_inv s1 s2 w) as [P HP]. fold st in HP.
  rewrite countTranspositions_spec.
  - done.
  - apply (mi_len1 HP).
  - apply (mi_len2 HP).
  - pose proof (mi_count1 HP). pose proof (mi_count2 HP). lia.
  - pose proof (mi_count1 HP). pose proof (mi_count2 HP). lia.
Qed.

Lemma findMatches_bounds (s1 s2 : list Z) (w : Z) :
  let st := findMatches s1 s2 w in
  0 <= matches st <= Z.of_nat (length s1)
  /\ matches st <= Z.of_nat (length s2)
  /\ mismatches (picked s1 (s1Matches st)) (picked s2 (s2Matches st)) <= matches st.
Proof.
  intros st. destruct (findMatches_inv s1 s2 w) as [P HP]. fold st in HP.
  pose proof (mi_count1 HP) as C1.
  pose proof (mi_count2 HP) as C2.
  pose proof (countTrue_le_length (s1Matches st)) as L1.
  pose proof (countTrue_le_length (s2Matches st)) as L2.
  rewrite (mi_len1 HP) in L1. rewrite (mi_len2 HP) in L2.
  pose proof (mismatches_bounds (picked s1 (s1Matches st)) (picked s2 (s2Matches st))) as Hb.
  rewrite picked_length in Hb by (symmetry; apply (mi_len1 HP)).
  lia.
Qed.

Lemma Qdiv_unit (x y : Q) :
  (0 <= x)%Q -> (x <= y)%Q -> (0 < y)%Q -> (0 <= x / y <= 1)%Q.
Proof.
  intros Hx Hxy Hy.
  split; [apply Qle_shift_div_l | apply Qle_shift_div_r]; try done; lra.
Qed.

Lemma score_range (m t len1 len2 prefix : Z) :
  0 < m -> m <= len1 -> m <= len2 -> 0 <= t <= m -> 0 <= prefix <= 4 ->
  (0 <= score m t len1 len2 prefix <= 1)%Q.
Proof.
  intros Hm H1 H2 Ht Hp. unfold score.
  assert (0 < inject_Z m)%Q as Qm by (rewrite <- (Zlt_Qlt 0); lia).
  assert (0 < inject_Z len1)%Q as Ql1 by (rewrite <- (Zlt_Qlt 0); lia).
  assert (0 < inject_Z len2)%Q as Ql2 by (rewrite <- (Zlt_Qlt 0); lia).
  assert (inject_Z m <= inject_Z len1)%Q as Qm1 by (rewrite <- Zle_Qle; lia).
  assert (inject_Z m <= inject_Z len2)%Q as Qm2 by (rewrite <- Zle_Qle; lia).
  assert (0 <= inject_Z t)%Q as Qt0 by (rewrite <- (Zle_Qle 0); lia).
  assert (inject_Z t <= inject_Z m)%Q as Qtm by (rewrite <- Zle_Qle; lia).
  assert (0 <= inject_Z prefix)%Q as Qp0 by (rewrite <- (Zle_Qle 0); lia).
  assert (inject_Z prefix <= 4)%Q as Qp4 by (rewrite <- (Zle_Qle _ 4); lia).
  clear Hm H1 H2 Ht Hp.
  set (qm := inject_Z m) in *. set (q1 := inject_Z len1) in *.
  set (q2 := inject_Z len2) in *. set (qt := inject_Z t) in *.
  set (p := inject_Z prefix) in *. clearbody qm q1 q2 qt p.
  pose proof (Qdiv_unit qm q1) as Ha.
  pose proof (Qdiv_unit qm q2) as Hb.
  pose proof (Qdiv_unit (qm - qt / 2) qm) as Hc.
  assert (0 <= qm - qt / 2)%Q as Hd.
  { assert (qt / 2 <= qm)%Q; [apply Qle_shift_div_r|]; lra. }
  assert (qm - qt / 2 <= qm)%Q as He.
  { assert (0 <= qt / 2)%Q; [apply Qle_shift_div_l|]; lra. }
  specialize (Ha ltac:(lra) Qm1 Ql1). specialize (Hb ltac:(lra) Qm2 Ql2).
  specialize (Hc Hd He Qm).
  generalize dependent (qm / q1)%Q. intros a Ha.
  generalize dependent (qm / q2)%Q. intros b Hb.
  generalize dependent ((qm - qt / 2) / qm)%Q. intros c Hc.
  pose proof (Qdiv_unit (a + b + c) 3 ltac:(lra) ltac:(lra) ltac:(lra)) as Hj.
  generalize dependent ((a + b + c) / 3)%Q. intros j Hj.
  split; nra.
Qed.

Lemma Qplus_swap (x y : Q) : (x + y)%Q = (y + x)%Q.
Proof. unfold Qplus. f_equal; [lia | apply Pos.mul_comm]. Qed.

Lemma score_swap (m t len1 len2 prefix : Z) :
  score m t len1 len2 prefix = score m t len2 len1 prefix.
Proof.
  unfold score.
  by rewrite (Qplus_swap (inject_Z m / inject_Z len1) (inject_Z m / inject_Z len2)).
Qed.

(** [jaroWinkler] always returns, and its value lies between 0 and 1. *)
Lemma jaroWinkler_returns (s1 s2 : list Z) :
  exists q, jaroWinkler s1 s2 = Returns q /\ (0 <= q <= 1)%Q.
Proof.
  destruct (decide (s1 = s2)) as [Heq|Hne].
  { exists 1%Q. unfold jaroWinkler. rewrite bool_decide_eq_true_2 by done.
    split; [done | lra]. }
  destruct (decide (s1 = [])) as [H1|H1].
  { exists 0%Q. unfold jaroWinkler. rewrite bool_decide_eq_false_2 by done.
    rewrite (bool_decide_eq_true_2 (s1 = [])) by done. split; [done | lra]. }
  destruct (decide (s2 = [])) as [H2|H2].
  { exists 0%Q. unfold jaroWinkler. rewrite bool_decide_eq_false_2 by done.
    rewrite (bool_decide_eq_true_2 (s2 = [])) by done. rewrite orb_true_r.
    split; [done | lra]. }
  set (w := Z.max (Z.of_nat (length s1)) (Z.of_nat (length s2)) / 2 - 1).
  destruct (decide (matches (findMatches s1 s2 w) = 0)) as [Hm|Hm].
  { exists 0%Q. unfold jaroWinkler. rewrite bool_decide_eq_false_2 by done.
    rewrite (bool_decide_eq_false_2 (s1 = [])) by done.
    rewrite (bool_decide_eq_false_2 (s2 = [])) by done.
    simpl orb. cbv iota. fold w. rewrite Hm. split; [done | lra]. }
  eexists. split; [by apply jaroWinkler_scored|].
  fold w. destruct (findMatches_bounds s1 s2 w) as (Hb1 & Hb2 & Hb3).
  pose proof (mismatches_bounds (picked s1 (s1Matches (findMatches s1 s2 w)))
                (picked s2 (s2Matches (findMatches s1 s2 w)))) as Hb4.
  pose proof (commonPrefix_bounds 4 s1 s2) as Hb5.
  apply score_range; lia.
Qed.

Lemma jaroWinkler_swap (s1 s2 : list Z) : jaroWinkler s1 s2 = jaroWinkler s2 s1.
Proof.
  destruct (decide (s1 = s2)) as [->|Hne]; [done|].
  destruct (decide (s1 = [] \/ s2 = [])) as [He|He].
  { unfold jaroWinkler.
    rewrite (bool_decide_eq_false_2 (s1 = s2)), (bool_decide_eq_false_2 (s2 = s1)) by done.
    destruct He as [E|E].
    - rewrite (bool_decide_eq_true_2 (s1 = [])) by done. by rewrite orb_true_r.
    - rewrite (bool_decide_eq_true_2 (s2 = [])) by done. by rewrite orb_true_r. }
  assert (s1 <> []) as H1 by tauto. assert (s2 <> []) as H2 by tauto.
  set (w := Z.max (Z.of_nat (length s1)) (Z.of_nat (length s2)) / 2 - 1).
  assert (Z.max (Z.of_nat (length s2)) (Z.of_nat (length s1)) / 2 - 1 = w) as Hw.
  { unfold w. by rewrite Z.max_comm. }
  destruct (findMatches_swap s1 s2 w) as (E1 & E2 & E3).
  destruct (decide (matches (findMatches s1 s2 w) = 0)) as [Hm|Hm].
  { unfold jaroWinkler. rewrite !bool_decide_eq_false_2 by done.
    simpl orb. cbv iota. rewrite Hw. fold w. rewrite <- E3, Hm. done. }
  rewrite (jaroWinkler_scored s1 s2) by done.
  rewrite (jaroWinkler_scored s2 s1); [| done | done | done | rewrite Hw, <- E3; done].
  rewrite Hw. fold w. rewrite <- E1, <- E2, <- E3.
  rewrite (mismatches_sym (picked s2 _)), (commonPrefix_sym 4 s2 s1).
  by rewrite score_swap.
Qed.

(** ** Strings free of diacritics *)

Lemma isDiacritic_false (c : Z) :
  isDiacritic c = false <-> ~ (0x064B <= c <= 0x065F) /\ c <> 0x0670.
Proof. unfold isDiacritic. lia. Qed.

Lemma removeDiacritics_clean (text : list Z) : clean (removeDiacritics text).
Proof.
  unfold clean, removeDiacritics. induction text as [|c text IH]; simpl; [done|].
  destruct (isDiacritic c) eqn:E; simpl; [done|]. by constructor.
Qed.

Lemma removeDiacritics_id (text : list Z) : clean text -> removeDiacritics text = text.
Proof.
  unfold clean, removeDiacritics. induction 1 as [|c text Hc _ IH]; simpl; [done|].
  by rewrite Hc, IH.
Qed.

Lemma replaceAll_clean (from to : Z) (s : list Z) :
  isDiacritic to = false -> clean s -> clean (replaceAll from to s).
Proof.
  intros Hto. unfold clean, replaceAll. induction 1 as [|c s Hc _ IH]; simpl.
  - done.
  - constructor; [|done]. by destruct (c =? from).
Qed.

Lemma replaceAll_length (from to : Z) (s : list Z) :
  length (replaceAll from to s) = length s.
Proof. unfold replaceAll. by rewrite length_map. Qed.

Lemma normalizeArabicLetters_clean (text : list Z) :
  clean text -> clean (normalizeArabicLetters text).
Proof.
  unfold normalizeArabicLetters.
  assert (Forall (fun e => isDiacritic e.2 = false) ARABIC_NORMALIZATIONS) as Htable.
  { repeat constructor. }
  revert text. induction Htable as [|[from to] table Hto _ IH]; intros text Hc; simpl.
  - done.
  - apply IH. by apply replaceAll_clean.
Qed.

Lemma normalizeArabicLetters_length (text : list Z) :
  length (normalizeArabicLetters text) = length text.
Proof.
  unfold normalizeArabicLetters. revert text.
  induction ARABIC_NORMALIZATIONS as [|[from to] table IH]; intros text; simpl.
  - done.
  - by rewrite IH, replaceAll_length.
Qed.

Lemma prefixStep_clean (s : list Z) (entry : list Z * list Z) :
  clean entry.2 -> clean s -> clean (prefixStep s entry).
Proof.
  destruct entry as [prefix replacement]. simpl. intros Hr Hs.
  destruct (startsWith s prefix); [|done].
  apply Forall_app. split; [done|]. by apply Forall_drop.
Qed.

Lemma prefixes_clean (table : list (list Z * list Z)) (s : list Z) :
  Forall (fun e => clean e.2) table -> clean s -> clean (fold_left prefixStep table s).
Proof.
  intros Htable. revert s. induction Htable as [|e table He _ IH]; intros s Hs; simpl.
  - done.
  - apply IH. by apply prefixStep_clean.
Qed.

(** The two prefix normalisers as scans of their table. Later proofs
    rewrite with these equations rather than unfold the scan. *)
Lemma normalizeArabicPrefixes_unfold (text : list Z) :
  normalizeArabicPrefixes text = fold_left prefixStep PREFIXES text.
Proof. reflexivity. Qed.

Lemma normalizeEnglishPrefixes_unfold (toLowerCase : list Z -> list Z) (text : list Z) :
  normalizeEnglishPrefixes toLowerCase text
  = fold_left prefixStep ENGLISH_PREFIXES (toLowerCase text).
Proof. reflexivity. Qed.

Lemma PREFIXES_clean : Forall (fun e => clean e.2) PREFIXES.
Proof. repeat constructor. Qed.

Lemma ENGLISH_PREFIXES_clean : Forall (fun e => clean e.2) ENGLISH_PREFIXES.
Proof. repeat constructor. Qed.

Lemma collapseRuns_clean (inRun : bool) (s : list Z) :
  clean s -> clean (collapseRuns inRun s).
Proof.
  intros Hs. revert inRun. induction Hs as [|c s Hc _ IH]; intros inRun; simpl.
  - constructor.
  - destruct (isWhitespace c), inRun; try apply IH; constructor; try done; apply IH.
Qed.

Lemma collapseWhitespace_clean (s : list Z) : clean s -> clean (collapseWhitespace s).
Proof. apply collapseRuns_clean. Qed.

Lemma trimStart_clean (s : list Z) : clean s -> clean (trimStart s).
Proof.
  induction 1 as [|c s Hc Hs IH]; simpl; [constructor|].
  destruct (isWhitespace c); [done | by constructor].
Qed.

Lemma trim_clean (s : list Z) : clean s -> clean (trim s).
Proof.
  intros Hs. unfold trim, trimEnd.
  apply Forall_rev, trimStart_clean, Forall_rev. by apply trimStart_clean.
Qed.

Lemma removeWhitespace_clean (s : list Z) : clean s -> clean (removeWhitespace s).
Proof.
  unfold removeWhitespace. induction 1 as [|c s Hc _ IH]; simpl; [constructor|].
  destruct (isWhitespace c); simpl; [done | by constructor].
Qed.

Lemma split_clean (sep : Z) (s : list Z) :
  clean s -> Forall clean (split sep s).
Proof.
  induction 1 as [|c s Hc Hs IH]; simpl.
  - repeat constructor.
  - destruct (c =? sep).
    + constructor; [constructor | done].
    + destruct (split sep s) as [|p ps]; [repeat constructor; done|].
      inversion IH; subst. constructor; [by constructor | done].
Qed.

Lemma join_clean (sep : list Z) (parts : list (list Z)) :
  clean sep -> Forall clean parts -> clean (join sep parts).
Proof.
  intros Hsep. induction 1 as [|p ps Hp Hps IH]; simpl; [constructor|].
  destruct ps as [|p' ps]; [done|].
  apply Forall_app. split; [done|]. apply Forall_app. split; [done|]. apply IH.
Qed.

(** ** The phonetic encoder *)

Lemma ARABIC_SOUNDEX_code (char : Z) (code : list Z) :
  ARABIC_SOUNDEX !! char = Some code -> length code = 1%nat.
Proof.
  intros H. apply elem_of_list_to_map_2 in H.
  assert (Forall (fun e => length e.2 = 1%nat) ARABIC_SOUNDEX_entries) as Hall.
  { repeat constructor. }
  rewrite Forall_forall in Hall. apply (Hall (char, code)). done.
Qed.

#[local] Opaque ARABIC_SOUNDEX.

Lemma soundexLoop_shape (rest soundex lastCode : list Z) :
  (length soundex <= 6)%nat ->
  exists digits, soundexLoop rest soundex lastCode = soundex ++ digits
                 /\ (length soundex + length digits <= 6)%nat.
Proof.
  revert soundex lastCode. induction rest as [|char rest IH]; intros soundex lastCode Hlen.
  - exists []. simpl. rewrite app_nil_r. split; [done | simpl; lia].
  - simpl. destruct (Nat.ltb_spec (length soundex) 6) as [Hlt|Hge].
    2:{ exists []. rewrite app_nil_r. split; [done | simpl; lia]. }
    destruct (ARABIC_SOUNDEX !! char) as [code|] eqn:Hcode; [|by apply IH].
    destruct (negb (bool_decide (code = [])) && negb (bool_decide (code = lastCode)));
      [|by apply IH].
    apply ARABIC_SOUNDEX_code in Hcode.
    destruct (IH (soundex ++ code) code) as (digits & -> & Hd).
    { rewrite length_app. lia. }
    exists (code ++ digits). rewrite <- app_assoc. split; [done|].
    rewrite length_app in *. lia.
Qed.

Lemma padZeros_shape (rounds : nat) (soundex : list Z) :
  (length soundex <= 6 <= length soundex + rounds)%nat ->
  exists zeros, padZeros rounds soundex = soundex ++ zeros
                /\ (length soundex + length zeros = 6)%nat.
Proof.
  revert soundex. induction rounds as [|rounds IH]; intros soundex Hlen; simpl.
  - exists []. rewrite app_nil_r. split; [done | simpl; lia].
  - destruct (Nat.ltb_spec (length soundex) 6) as [Hlt|Hge].
    2:{ exists []. rewrite app_nil_r. split; [done | simpl; lia]. }
    destruct (IH (soundex ++ lit "0")) as (zeros & -> & Hz).
    { rewrite length_app. simpl. lia. }
    exists (lit "0" ++ zeros). rewrite <- app_assoc. split; [done|].
    rewrite length_app in *. simpl in *. lia.
Qed.

(** The three behaviours of [arabicSoundex]. *)
Lemma arabicSoundex_empty : arabicSoundex [] = Returns [].
Proof. done. Qed.

Lemma arabicSoundex_only_diacritics (text : list Z) :
  text <> [] -> removeDiacritics text = [] -> arabicSoundex text = Throws TypeError.
Proof.
  intros Hne Hrem. unfold arabicSoundex.
  rewrite bool_decide_eq_false_2 by done. rewrite Hrem. done.
Qed.

Lemma arabicSoundex_code (text : list Z) :
  removeDiacritics text <> [] ->
  exists first rest,
    normalizeArabicLetters (removeDiacritics text) !! 0%nat = Some first
    /\ arabicSoundex text = Returns (first :: rest) /\ length rest = 5%nat.
Proof.
  intros Hrem. unfold arabicSoundex.
  assert (text <> []) as Hne by (intros ->; done).
  rewrite bool_decide_eq_false_2 by done.
  destruct (normalizeArabicLetters (removeDiacritics text) !! 0%nat) as [first|] eqn:Hfirst.
  2:{ apply lookup_ge_None in Hfirst. rewrite normalizeArabicLetters_length in Hfirst.
      destruct (removeDiacritics text); [done | simpl in Hfirst; lia]. }
  destruct (soundexLoop_shape
              (drop 1 (normalizeArabicLetters (removeDiacritics text)))
              [first] (default [] (ARABIC_SOUNDEX !! first)))
    as (digits & -> & Hd); [simpl; lia|].
  destruct (padZeros_shape 6 ([first] ++ digits)) as (zeros & -> & Hz).
  { rewrite length_app. simpl in *. lia. }
  exists first, (digits ++ zeros). split; [done|]. split; [by rewrite <- app_assoc|].
  rewrite !length_app in *. simpl in *. lia.
Qed.

Lemma arabicSoundex_clean (text : list Z) :
  clean text -> exists code, arabicSoundex text = Returns code.
Proof.
  intros Hc. destruct text as [|c text]; [by exists []|].
  destruct (arabicSoundex_code (c :: text)) as (first & rest & _ & -> & _).
  - by rewrite removeDiacritics_id.
  - by eexists.
Qed.

(** ** [normalizeArabicName] *)

Lemma bind_Returns {A B} (a : A) (k : A -> outcome B) : (Returns a ≫= k) = k a.
Proof. reflexivity. Qed.

Lemma mapOutcome_returns {A B} (f : A -> outcome B) (l : list A) :
  Forall (fun a => exists b, f a = Returns b) l ->
  exists bs, mapOutcome f l = Returns bs
             /\ Forall2 (fun a b => f a = Returns b) l bs.
Proof.
  induction 1 as [|a l [b Hb] _ (bs & IH & IH2)]; simpl.
  - by exists [].
  - rewrite Hb, IH. exists (b :: bs). split; [done|]. by constructor.
Qed.

Lemma arabicNormalForm_unfold (name : list Z) :
  arabicNormalForm name
  = trim (collapseWhitespace
            (normalizeArabicPrefixes (normalizeArabicLetters (removeDiacritics name)))).
Proof. reflexivity. Qed.

Lemma arabicNormalForm_clean (name : list Z) : clean (arabicNormalForm name).
Proof.
  rewrite arabicNormalForm_unfold.
  apply trim_clean, collapseWhitespace_clean. rewrite normalizeArabicPrefixes_unfold.
  apply prefixes_clean; [apply PREFIXES_clean|].
  apply normalizeArabicLetters_clean, removeDiacritics_clean.
Qed.

Lemma normalizeArabicName_returns (name : list Z) :
  name <> [] ->
  exists code parts,
    arabicSoundex (removeWhitespace (arabicNormalForm name)) = Returns code
    /\ normalizeArabicName name
       = Returns {| original := name; normalized := arabicNormalForm name;
                    soundex := code; parts := parts |}.
Proof.
  intros Hne. unfold normalizeArabicName. rewrite bool_decide_eq_false_2 by done.
  rewrite <- arabicNormalForm_unfold.
  pose proof (arabicNormalForm_clean name) as Hclean.
  destruct (mapOutcome_returns
              (fun part => code ← arabicSoundex part;
                           Returns {| part_original := part; part_soundex := code |})
              (split 32 (arabicNormalForm name))) as (ps & -> & _).
  { eapply Forall_impl; [apply split_clean, Hclean|].
    intros part Hpart. simpl. destruct (arabicSoundex_clean part Hpart) as [code ->].
    by eexists. }
  destruct (arabicSoundex_clean (removeWhitespace (arabicNormalForm name)))
    as [code Hcode]; [by apply removeWhitespace_clean|].
  exists code, ps. split; [done|]. by rewrite bind_Returns, Hcode, bind_Returns.
Qed.

Lemma normalizeArabicName_total (name : list Z) :
  exists r, normalizeArabicName name = Returns r
            /\ normalized r = arabicNormalForm name
            /\ arabicSoundex (removeWhitespace (normalized r)) = Returns (soundex r).
Proof.
  destruct (decide (name = [])) as [->|Hne].
  - eexists. split; [done|]. done.
  - destruct (normalizeArabicName_returns name Hne) as (code & ps & Hcode & ->).
    eexists. split; [done|]. done.
Qed.

(** * The claims *)

(** C1 (totality of the core operations). The claim fails for the phonetic
    encoder: on the non-empty input made of the single diacritic U+064B,
    diacritic removal leaves the empty string, and [arabicSoundex] throws a
    [TypeError] instead of returning a string. *)
Theorem arabicSoundex_throws_on_lone_diacritic :
  removeDiacritics [0x064B] = [] /\ arabicSoundex [0x064B] = Throws TypeError.
Proof. split; reflexivity. Qed.

(** C5 (the phonetic code is empty or has exactly 6 characters). The claim
    fails on the same defect as C1: for the non-empty input fatha + shadda
    (U+064E U+0651) [arabicSoundex] throws, so it yields no string at all,
    neither the empty one nor one of 6 characters. *)
Theorem arabicSoundex_diacritics_only_has_no_code :
  arabicSoundex [0x064E; 0x0651] = Throws TypeError
  /\ forall code : list Z, arabicSoundex [0x064E; 0x0651] <> Returns code.
Proof. split; [reflexivity|]. intros code. vm_compute. discriminate. Qed.

(** C6 (range of the similarity scorer). For every pair of strings,
    [jaroWinkler] returns a value, and that value lies in the closed
    interval from 0 to 1. *)
Theorem jaroWinkler_unit_interval (a b : list Z) :
  exists q, jaroWinkler a b = Returns q /\ (0 <= q <= 1)%Q.
Proof. apply jaroWinkler_returns. Qed.

(** C7 (symmetry of the similarity scorer). For every pair of strings,
    [jaroWinkler a b] and [jaroWinkler b a] are the same. *)
Theorem jaroWinkler_symmetric (a b : list Z) : jaroWinkler a b = jaroWinkler b a.
Proof. apply jaroWinkler_swap. Qed.

(** The comparison route of the service on two Arabic names. For every
    pair of names that both contain a code unit of the Arabic block, the
    route returns; its two phonetic codes are the codes of the
    whitespace-free normalised names; the reported flag is the equality test
    of the two codes; and the final score is the maximum of the Jaro-Winkler
    similarity of the two normalised names and 0.85 when the codes are
    equal, and that similarity otherwise. *)
Lemma compareHandler_arabic_pair (n1 n2 : list Z) :
  isArabic n1 = true -> isArabic n2 = true ->
  exists norm1 norm2 jw,
    normalizeArabicName n1 = Returns norm1
    /\ normalizeArabicName n2 = Returns norm2
    /\ arabicSoundex (removeWhitespace (normalized norm1)) = Returns (soundex norm1)
    /\ arabicSoundex (removeWhitespace (normalized norm2)) = Returns (soundex norm2)
    /\ jaroWinkler (normalized norm1) (normalized norm2) = Returns jw
    /\ compareHandler n1 n2
       = Returns {| name1 := norm1; name2 := norm2;
                    soundexMatch := bool_decide (soundex norm1 = soundex norm2);
                    similarity := jw;
                    matchScore := if bool_decide (soundex norm1 = soundex norm2)
                                  then Qmax jw 0.85 else jw |}.
Proof.
  intros _ _.
  destruct (normalizeArabicName_total n1) as (norm1 & H1 & _ & C1).
  destruct (normalizeArabicName_total n2) as (norm2 & H2 & _ & C2).
  destruct (jaroWinkler_returns (normalized norm1) (normalized norm2)) as (jw & Hjw & _).
  exists norm1, norm2, jw. repeat (split; [done|]).
  unfold compareHandler. by rewrite H1, bind_Returns, H2, bind_Returns, Hjw, bind_Returns.
Qed.

Lemma compareHandler_arabic_pair_witness :
  exists norm1 norm2 jw,
    normalizeArabicName [0x0645; 0x062D; 0x0645; 0x062F] = Returns norm1
    /\ normalizeArabicName [0x0627; 0x0644; 0x0645; 0x062D; 0x0645; 0x0651; 0x062F]
       = Returns norm2
    /\ arabicSoundex (removeWhitespace (normalized norm1)) = Returns (soundex norm1)
    /\ arabicSoundex (removeWhitespace (normalized norm2)) = Returns (soundex norm2)
    /\ jaroWinkler (normalized norm1) (normalized norm2) = Returns jw
    /\ compareHandler [0x0645; 0x062D; 0x0645; 0x062F]
         [0x0627; 0x0644; 0x0645; 0x062D; 0x0645; 0x0651; 0x062F]
       = Returns {| name1 := norm1; name2 := norm2;
                    soundexMatch := bool_decide (soundex norm1 = soundex norm2);
                    similarity := jw;
                    matchScore := if bool_decide (soundex norm1 = soundex norm2)
                                  then Qmax jw 0.85 else jw |}.
Proof.
  apply (compareHandler_arabic_pair
           [0x0645; 0x062D; 0x0645; 0x062F]
           [0x0627; 0x0644; 0x0645; 0x062D; 0x0645; 0x0651; 0x062F]);
    reflexivity.
Defined.

(** C4 (comparison of two Arabic names). The claim holds on the comparison
    route of the service and fails on the Java [calculateNameSimilarity],
    whose script test requires the pattern to match the whole name, with
    dots that match no line terminator. For the names U+0645 U+062D U+0645
    U+062F and U+0645 U+0647 U+0646 U+062F, each followed by a line feed,
    both names contain code units of the Arabic block and their whole-name
    phonetic codes are equal; the Java method takes them for Latin names and
    returns 0.7, their Jaro-Winkler similarity, where the claim says
    max(0.7, 0.85) = 0.85. The route of the service reports a phonetic
    match and 0.85 for the same pair. *)
Theorem calculateNameSimilarity_unfloored_after_line_feed :
  isArabic [0x0645; 0x062D; 0x0645; 0x062F; 0x0A] = true
  /\ isArabic [0x0645; 0x0647; 0x0646; 0x062F; 0x0A] = true
  /\ exists norm1 norm2 code jw q r,
       Java.normalizeArabicName Java.ARABIC_PREFIXES (Some [0x0645; 0x062D; 0x0645; 0x062F; 0x0A])
       = Java.Normal norm1
       /\ Java.normalizeArabicName Java.ARABIC_PREFIXES (Some [0x0645; 0x0647; 0x0646; 0x062F; 0x0A])
          = Java.Normal norm2
       /\ Java.soundex norm1 = Some code
       /\ Java.soundex norm2 = Some code
       /\ Java.jaroWinkler (Some (Java.normalized norm1)) (Some (Java.normalized norm2))
          = Java.Normal jw
       /\ Java.calculateNameSimilarity Java.ARABIC_PREFIXES Java.ENGLISH_PREFIXES
            asciiToLower asciiCharToUpper
            (Some [0x0645; 0x062D; 0x0645; 0x062F; 0x0A]) (Some [0x0645; 0x0647; 0x0646; 0x062F; 0x0A])
          = Java.Normal q
       /\ (q == 0.7)%Q
       /\ ~ (q == Qmax jw 0.85)%Q
       /\ compareHandler [0x0645; 0x062D; 0x0645; 0x062F; 0x0A] [0x0645; 0x0647; 0x0646; 0x062F; 0x0A] = Returns r
       /\ soundexMatch r = true
       /\ (matchScore r == 0.85)%Q.
Proof.
  split; [reflexivity|]. split; [reflexivity|].
  do 6 eexists.
  split; [vm_compute; reflexivity|]. split; [vm_compute; reflexivity|].
  split; [reflexivity|]. split; [reflexivity|].
  split; [vm_compute; reflexivity|]. split; [vm_compute; reflexivity|].
  split; [reflexivity|]. split; [intros H; discriminate H|].
  split; [vm_compute; reflexivity|]. split; reflexivity.
Qed.

(** C3 (no phonetic match on mixed scripts). The claim fails on the
    comparison route, which takes no account of the script: for "Ali"
    followed by the Arabic comma U+060C against the Latin "Ali", a pair of
    which exactly one name contains a code unit of the Arabic block, the
    reported phonetic-match flag is [true]. *)
Theorem compareHandler_flags_mixed_pair :
  isArabic (lit "Ali" ++ [0x060C]) = true
  /\ isArabic (lit "Ali") = false
  /\ exists r, compareHandler (lit "Ali" ++ [0x060C]) (lit "Ali") = Returns r
               /\ soundexMatch r = true.
Proof.
  split; [reflexivity|]. split; [reflexivity|].
  eexists. split; [vm_compute; reflexivity | reflexivity].
Qed.

(** C2 (no phonetic floor on two Latin names). The claim fails on the
    comparison route, which sends every name through the Arabic branch: for
    the Latin names "Ahmed" and "Amr" the Jaro-Winkler similarity of the
    names normalised by the Latin branch is 0.72, and the route reports the
    floored score 0.85. *)
Theorem compareHandler_floors_latin_pair :
  isArabic (lit "Ahmed") = false
  /\ isArabic (lit "Amr") = false
  /\ exists jw r,
       jaroWinkler
         (en_normalized (normalizeEnglishName asciiToLower asciiToUpper (lit "Ahmed")))
         (en_normalized (normalizeEnglishName asciiToLower asciiToUpper (lit "Amr")))
       = Returns jw
       /\ (jw == 0.72)%Q
       /\ compareHandler (lit "Ahmed") (lit "Amr") = Returns r
       /\ soundexMatch r = true
       /\ (matchScore r == 0.85)%Q
       /\ ~ (matchScore r == jw)%Q.
Proof.
  split; [reflexivity|]. split; [reflexivity|].
  eexists. eexists. split; [vm_compute; reflexivity|].
  split; [reflexivity|]. split; [vm_compute; reflexivity|].
  split; [reflexivity|]. split; [reflexivity|]. intros H. discriminate H.
Qed.

(** ** Prefix scanning *)

Lemma fold_prefixStep_scan (table : list (list Z * list Z)) (s : list Z) :
  fold_left prefixStep table s = scanPrefixes table s.
Proof.
  revert s. induction table as [|[prefix replacement] table IH]; intros s; simpl.
  - done.
  - rewrite IH. unfold substring. by destruct (startsWith s prefix).
Qed.

(** C9 (prefix normalisation keeps scanning). Both prefix normalisers try
    every table entry in declaration order and, after a match, go on with
    the later entries on the rewritten string. Hence "al-abdel-x" becomes
    "abdelx", where stopping at the first match would leave "abdel-x"; and
    the article followed by "Abd Al-" loses the article and then has the
    second prefix contracted. *)
Theorem prefix_scan_continues :
  (forall text, normalizeArabicPrefixes text = scanPrefixes PREFIXES text)
  /\ (forall toLowerCase text,
        normalizeEnglishPrefixes toLowerCase text
        = scanPrefixes ENGLISH_PREFIXES (toLowerCase text))
  /\ scanPrefixes ENGLISH_PREFIXES (lit "al-abdel-x") = lit "abdelx"
  /\ stopAtFirstPrefix ENGLISH_PREFIXES (lit "al-abdel-x") = lit "abdel-x"
  /\ normalizeEnglishPrefixes asciiToLower (lit "Al-Abdel-X") = lit "abdelx"
  /\ normalizeArabicPrefixes
       [0x0627; 0x0644; 0x0639; 0x0628; 0x062F; 0x20; 0x0627; 0x0644; 0x0644; 0x0647]
     = [0x0639; 0x0628; 0x062F; 0x0627; 0x0644; 0x0644; 0x0647]
  /\ stopAtFirstPrefix PREFIXES
       [0x0627; 0x0644; 0x0639; 0x0628; 0x062F; 0x20; 0x0627; 0x0644; 0x0644; 0x0647]
     = [0x0639; 0x0628; 0x062F; 0x20; 0x0627; 0x0644; 0x0644; 0x0647].
Proof.
  split; [intros text; apply fold_prefixStep_scan|].
  split; [intros toLowerCase text; apply fold_prefixStep_scan|].
  repeat split; reflexivity.
Qed.

(** ** Whitespace-only names *)

Lemma normalizeArabicLetters_map (text : list Z) :
  normalizeArabicLetters text = map canonicalLetter text.
Proof.
  unfold normalizeArabicLetters, canonicalLetter.
  induction ARABIC_NORMALIZATIONS as [|[from to] table IH] in text |- *; simpl.
  - by rewrite map_id.
  - rewrite IH. unfold replaceAll. by rewrite map_map.
Qed.

Lemma blank_removeDiacritics (s : list Z) : blank s -> removeDiacritics s = s.
Proof.
  intros Hs. apply removeDiacritics_id. eapply Forall_impl; [apply Hs|].
  intros c. unfold isWhitespace, isDiacritic. lia.
Qed.

Lemma blank_normalizeArabicLetters (s : list Z) : blank s -> normalizeArabicLetters s = s.
Proof.
  intros Hs. rewrite normalizeArabicLetters_map.
  induction Hs as [|c s Hc _ IH]; simpl; [done|]. rewrite IH. f_equal.
  unfold canonicalLetter, isWhitespace in *. simpl.
  repeat match goal with |- context [?x =? ?y] => destruct (Z.eqb_spec x y); [lia|] end.
  done.
Qed.

Lemma blank_scan (table : list (list Z * list Z)) (s : list Z) :
  Forall startsWithLetter table -> blank s -> fold_left prefixStep table s = s.
Proof.
  intros Htable Hs. induction Htable as [|[prefix replacement] table He _ IH]; simpl.
  - done.
  - destruct He as (c & rest & He & Hc). simpl in He. subst prefix.
    destruct Hs as [|c0 s Hc0 Hs]; simpl; [by apply IH|].
    destruct (Z.eqb_spec c0 c) as [->|_]; [congruence|]. simpl. apply IH.
Qed.

Lemma PREFIXES_startsWithLetter : Forall startsWithLetter PREFIXES.
Proof. repeat constructor; eexists _, _; (split; [reflexivity|reflexivity]). Qed.

Lemma ENGLISH_PREFIXES_startsWithLetter : Forall startsWithLetter ENGLISH_PREFIXES.
Proof. repeat constructor; eexists _, _; (split; [reflexivity|reflexivity]). Qed.

Lemma blank_collapse (s : list Z) :
  blank s -> s <> [] -> trim (collapseWhitespace s) = [].
Proof.
  intros Hs Hne.
  assert (forall t, blank t -> collapseRuns true t = []) as Hrun.
  { induction 1 as [|c t Hc _ IH]; simpl; [done|]. by rewrite Hc. }
  destruct Hs as [|c s Hc Hs]; [done|].
  unfold collapseWhitespace. simpl. rewrite Hc, (Hrun _ Hs). reflexivity.
Qed.

(** C10 (whitespace-only names). For every non-empty name made of
    whitespace only, [normalizeArabicName] returns the empty normalised
    string together with a list of exactly one part, whose token and whose
    phonetic code are empty; and [normalizeEnglishName] returns the empty
    normalised string with the one-element list holding the empty string.
    The case conversion of the runtime leaves whitespace and the empty
    string as they are. *)
Theorem whitespace_only_name_has_one_empty_part
    (toLowerCase toUpperCase : list Z -> list Z) (name : list Z) :
  name <> [] -> Forall (fun c => isWhitespace c = true) name ->
  toLowerCase name = name -> toUpperCase [] = [] ->
  normalizeArabicName name
  = Returns {| original := name; normalized := []; soundex := [];
               parts := [ {| part_original := []; part_soundex := [] |} ] |}
  /\ normalizeEnglishName toLowerCase toUpperCase name
     = {| en_original := name; en_normalized := []; en_parts := [ [] ] |}.
Proof.
  intros Hne Hblank Hlower Hupper. split.
  - unfold normalizeArabicName. rewrite bool_decide_eq_false_2 by done.
    rewrite (blank_removeDiacritics _ Hblank), (blank_normalizeArabicLetters _ Hblank).
    rewrite normalizeArabicPrefixes_unfold.
    rewrite (blank_scan _ _ PREFIXES_startsWithLetter Hblank).
    rewrite (blank_collapse _ Hblank Hne). reflexivity.
  - unfold normalizeEnglishName.
    rewrite bool_decide_eq_false_2 by done.
    rewrite normalizeEnglishPrefixes_unfold, Hlower.
    rewrite (blank_scan _ _ ENGLISH_PREFIXES_startsWithLetter Hblank).
    rewrite (blank_collapse _ Hblank Hne). simpl.
    unfold capitalize, charAt0, slice1. simpl. rewrite Hupper. reflexivity.
Qed.

Lemma whitespace_only_name_has_one_empty_part_witness :
  normalizeArabicName [0x20; 0x09; 0x3000]
  = Returns {| original := [0x20; 0x09; 0x3000]; normalized := []; soundex := [];
               parts := [ {| part_original := []; part_soundex := [] |} ] |}
  /\ normalizeEnglishName asciiToLower asciiToUpper [0x20; 0x09; 0x3000]
     = {| en_original := [0x20; 0x09; 0x3000]; en_normalized := [];
          en_parts := [ [] ] |}.
Proof.
  apply (whitespace_only_name_has_one_empty_part
           asciiToLower asciiToUpper [0x20; 0x09; 0x3000]).
  - discriminate.
  - repeat constructor.
  - reflexivity.
  - reflexivity.
Defined.

(** ** The script-dispatched normalisation *)

Lemma notArabic_clean (s : list Z) : isArabic s = false -> clean s.
Proof.
  unfold isArabic, clean. induction s as [|c s IH]; simpl; [constructor|].
  intros [Hc Hs]%orb_false_iff. constructor; [|by apply IH].
  unfold isDiacritic. lia.
Qed.

Lemma map_clean {A B} (P : A -> Prop) (Q : B -> Prop) (f : A -> B) (l : list A) :
  Forall P l -> (forall a, P a -> Q (f a)) -> Forall Q (map f l).
Proof. intros Hl Hf. induction Hl; simpl; constructor; auto. Qed.

Lemma capitalize_clean (toUpperCase : list Z -> list Z) (part : list Z) :
  (forall s, clean s -> clean (toUpperCase s)) ->
  clean part -> clean (capitalize toUpperCase part).
Proof.
  intros Hupper Hpart. unfold capitalize, charAt0, slice1.
  apply Forall_app. split; [apply Hupper; by apply Forall_take | by apply Forall_drop].
Qed.

Lemma englishNormalForm_unfold (toLowerCase toUpperCase : list Z -> list Z)
    (name : list Z) :
  englishNormalForm toLowerCase toUpperCase name
  = join (lit " ")
      (map (capitalize toUpperCase)
         (split 0x20
            (trim (collapseWhitespace (normalizeEnglishPrefixes toLowerCase name))))).
Proof. reflexivity. Qed.

Lemma normalizeEnglishName_nonempty (toLowerCase toUpperCase : list Z -> list Z)
    (name : list Z) :
  name <> [] ->
  normalizeEnglishName toLowerCase toUpperCase name
  = {| en_original := name;
       en_normalized := englishNormalForm toLowerCase toUpperCase name;
       en_parts := split 0x20 (englishNormalForm toLowerCase toUpperCase name) |}.
Proof.
  intros Hne. unfold normalizeEnglishName, englishNormalForm.
  rewrite bool_decide_eq_false_2 by exact Hne. reflexivity.
Qed.

Lemma normalizeEnglishName_normalized (toLowerCase toUpperCase : list Z -> list Z)
    (name : list Z) :
  name <> [] ->
  en_normalized (normalizeEnglishName toLowerCase toUpperCase name)
  = englishNormalForm toLowerCase toUpperCase name.
Proof. intros Hne. rewrite normalizeEnglishName_nonempty by exact Hne. reflexivity. Qed.

Lemma normalizeEnglishName_clean (toLowerCase toUpperCase : list Z -> list Z)
    (name : list Z) :
  (forall s, clean s -> clean (toLowerCase s)) ->
  (forall s, clean s -> clean (toUpperCase s)) ->
  clean name -> clean (en_normalized (normalizeEnglishName toLowerCase toUpperCase name)).
Proof.
  intros Hlower Hupper Hname.
  destruct (decide (name = [])) as [->|Hne]; [constructor|].
  rewrite normalizeEnglishName_normalized by done.
  rewrite englishNormalForm_unfold.
  apply join_clean; [repeat constructor|].
  apply map_clean with (P := clean); [|intros part Hpart; by apply capitalize_clean].
  apply split_clean, trim_clean, collapseWhitespace_clean.
  rewrite normalizeEnglishPrefixes_unfold.
  apply prefixes_clean; [apply ENGLISH_PREFIXES_clean | by apply Hlower].
Qed.

Lemma asciiToLower_clean (s : list Z) : clean s -> clean (asciiToLower s).
Proof.
  unfold clean, asciiToLower. intros Hs. apply Forall_fmap.
  eapply Forall_impl; [apply Hs|]. intros c. unfold isDiacritic. simpl.
  destruct ((65 <=? c) && (c <=? 90)) eqn:E; lia.
Qed.

Lemma asciiToUpper_clean (s : list Z) : clean s -> clean (asciiToUpper s).
Proof.
  unfold clean, asciiToUpper. intros Hs. apply Forall_fmap.
  eapply Forall_impl; [apply Hs|]. intros c. unfold isDiacritic. simpl.
  destruct ((97 <=? c) && (c <=? 122)) eqn:E; lia.
Qed.

(** C8 (no diacritics in the normalised name). For every string, the
    normalisation chosen by script returns, and its [normalized] field
    contains no code unit in U+064B to U+065F and no U+0670. The case
    conversion of the runtime does not produce such code units from a
    string that has none. *)
Theorem dispatched_normalized_has_no_diacritics
    (toLowerCase toUpperCase : list Z -> list Z) (s : list Z) :
  (forall t, clean t -> clean (toLowerCase t)) ->
  (forall t, clean t -> clean (toUpperCase t)) ->
  exists r, soundexHandler toLowerCase toUpperCase s = Returns r
            /\ forall c, c ∈ normalizedField r ->
                         ~ (0x064B <= c <= 0x065F) /\ c <> 0x0670.
Proof.
  intros Hlower Hupper. unfold soundexHandler.
  destruct (isArabic s) eqn:Hscript.
  - destruct (normalizeArabicName_total s) as (r & -> & Hr & _).
    exists (inl r). split; [done|]. intros c Hc. simpl in Hc. rewrite Hr in Hc.
    apply isDiacritic_false.
    pose proof (arabicNormalForm_clean s) as Hclean.
    unfold clean in Hclean. rewrite Forall_forall in Hclean. by apply Hclean.
  - eexists. split; [done|]. intros c Hc. simpl in Hc.
    apply isDiacritic_false.
    pose proof (normalizeEnglishName_clean toLowerCase toUpperCase s Hlower Hupper
                  (notArabic_clean s Hscript)) as Hclean.
    unfold clean in Hclean. rewrite Forall_forall in Hclean. by apply Hclean.
Qed.

Lemma dispatched_normalized_has_no_diacritics_witness :
  exists r, soundexHandler asciiToLower asciiToUpper
              [0x0645; 0x064F; 0x062D; 0x064E; 0x0645; 0x0651; 0x064E; 0x062F]
            = Returns r
            /\ forall c, c ∈ normalizedField r ->
                         ~ (0x064B <= c <= 0x065F) /\ c <> 0x0670.
Proof.
  apply (dispatched_normalized_has_no_diacritics asciiToLower asciiToUpper
           [0x0645; 0x064F; 0x062D; 0x064E; 0x0645; 0x0651; 0x064E; 0x062F]).
  - apply asciiToLower_clean.
  - apply asciiToUpper_clean.
Defined.

(** * Further properties of the service *)

(** ** Letters and diacritics *)

Lemma canonicalLetter_spec (c : Z) :
  canonicalLetter c
  = if bool_decide (c = 0x0622 \/ c = 0x0623 \/ c = 0x0625 \/ c = 0x0671) then 0x0627
    else if bool_decide (c = 0x0629) then 0x0647
    else if bool_decide (c = 0x0649 \/ c = 0x0626) then 0x064A
    else if bool_decide (c = 0x0624) then 0x0648
    else c.
Proof.
  unfold canonicalLetter. simpl.
  repeat match goal with
         | |- context [c =? ?k] =>
             destruct (Z.eqb_spec c k) as [->|?]; [reflexivity|]
         end.
  repeat case_bool_decide; lia.
Qed.

Lemma canonicalLetter_idempotent (c : Z) :
  canonicalLetter (canonicalLetter c) = canonicalLetter c.
Proof.
  rewrite (canonicalLetter_spec c).
  repeat case_bool_decide; rewrite canonicalLetter_spec;
    repeat case_bool_decide; lia.
Qed.

Lemma map_canonicalLetter_idempotent (text : list Z) :
  map canonicalLetter (map canonicalLetter text) = map canonicalLetter text.
Proof. rewrite map_map. apply map_ext. intros c. apply canonicalLetter_idempotent. Qed.

(** X1. Letter canonicalisation is idempotent, although the service runs it
    as eight successive global replacements. *)
Theorem normalizeArabicLetters_idempotent (text : list Z) :
  normalizeArabicLetters (normalizeArabicLetters text) = normalizeArabicLetters text.
Proof.
  rewrite !normalizeArabicLetters_map. apply map_canonicalLetter_idempotent.
Qed.

(** ** The shape of a phonetic code *)

#[local] Transparent ARABIC_SOUNDEX.

Lemma ARABIC_SOUNDEX_digit (char : Z) (code : list Z) :
  ARABIC_SOUNDEX !! char = Some code -> exists d, code = [d] /\ 0x31 <= d <= 0x39.
Proof.
  intros H. apply elem_of_list_to_map_2 in H.
  assert (Forall (fun e => exists d, e.2 = [d] /\ 0x31 <= d <= 0x39)
            ARABIC_SOUNDEX_entries) as Hall.
  { repeat constructor; eexists; (split; [reflexivity | simpl; lia]). }
  rewrite Forall_forall in Hall. apply (Hall (char, code)). done.
Qed.

#[local] Opaque ARABIC_SOUNDEX.

Lemma soundexLoop_digits (rest soundex lastCode : list Z) :
  (length soundex <= 6)%nat ->
  exists digits,
    soundexLoop rest soundex lastCode = soundex ++ digits
    /\ (length soundex + length digits <= 6)%nat
    /\ Forall (fun d => 0x31 <= d <= 0x39) digits
    /\ collapsed lastCode digits.
Proof.
  revert soundex lastCode.
  induction rest as [|char rest IH]; intros soundex lastCode Hlen.
  - exists []. simpl. rewrite app_nil_r. repeat split; [lia | constructor].
  - simpl. destruct (Nat.ltb_spec (length soundex) 6) as [Hlt|Hge].
    2:{ exists []. rewrite app_nil_r. simpl. repeat split; [lia | constructor]. }
    destruct (ARABIC_SOUNDEX !! char) as [code|] eqn:Hcode; [|by apply IH].
    destruct (ARABIC_SOUNDEX_digit _ _ Hcode) as (d & -> & Hd).
    rewrite (bool_decide_eq_false_2 ([d] = [])) by done. simpl.
    case_bool_decide as Hsame; simpl; [by apply IH|].
    destruct (IH (soundex ++ [d]) [d]) as (digits & -> & Hn & Hdig & Hcol).
    { rewrite length_app. simpl. lia. }
    exists (d :: digits). rewrite <- app_assoc. simpl.
    rewrite length_app in Hn. simpl in Hn.
    repeat split; try done; try lia. by constructor.
Qed.

Lemma padZeros_zeros (rounds : nat) (soundex : list Z) :
  (length soundex <= 6 <= length soundex + rounds)%nat ->
  padZeros rounds soundex = soundex ++ replicate (6 - length soundex) 0x30.
Proof.
  revert soundex. induction rounds as [|rounds IH]; intros soundex Hlen; simpl.
  - replace (6 - length soundex)%nat with 0%nat by lia. simpl. by rewrite app_nil_r.
  - destruct (Nat.ltb_spec (length soundex) 6) as [Hlt|Hge].
    + rewrite IH by (rewrite length_app; simpl; lia).
      rewrite length_app. simpl.
      replace (6 - length soundex)%nat with (S (6 - (length soundex + 1))) by lia.
      simpl. by rewrite <- app_assoc.
    + replace (6 - length soundex)%nat with 0%nat by lia. simpl. by rewrite app_nil_r.
Qed.

Lemma Returns_inj {A} (a b : A) : Returns a = Returns b -> a = b.
Proof. by intros [= ->]. Qed.

(** X2. A phonetic code that is returned for a non-empty text is the first
    letter of the canonical text, then group digits between 1 and 9 of which
    none repeats the one before it (nor, for the first digit, the group of
    the first letter), then zeros up to six characters. *)
Theorem arabicSoundex_shape (text code : list Z) :
  text <> [] -> arabicSoundex text = Returns code ->
  exists first digits,
    normalizeArabicLetters (removeDiacritics text) !! 0%nat = Some first
    /\ code = first :: digits ++ replicate (5 - length digits) 0x30
    /\ (length digits <= 5)%nat
    /\ Forall (fun d => 0x31 <= d <= 0x39) digits
    /\ collapsed (default [] (ARABIC_SOUNDEX !! first)) digits.
Proof.
  intros Hne. unfold arabicSoundex. rewrite bool_decide_eq_false_2 by done.
  destruct (normalizeArabicLetters (removeDiacritics text) !! 0%nat)
    as [first|] eqn:Hfirst; [|done].
  intros Hcode%Returns_inj. subst code.
  destruct (soundexLoop_digits
              (drop 1 (normalizeArabicLetters (removeDiacritics text)))
              [first] (default [] (ARABIC_SOUNDEX !! first)))
    as (digits & -> & Hn & Hdig & Hcol); [simpl; lia|].
  simpl in Hn. rewrite padZeros_zeros by (rewrite length_app; simpl; lia).
  replace (6 - length ([first] ++ digits))%nat with (5 - length digits)%nat
    by (rewrite length_app; simpl; lia).
  exists first, digits. repeat split; try done; lia.
Qed.

Lemma arabicSoundex_shape_witness :
  exists first digits,
    normalizeArabicLetters (removeDiacritics [0x0645; 0x064F; 0x062D; 0x0645; 0x0651; 0x062F])
      !! 0%nat = Some first
    /\ [0x0645; 0x38; 0x35; 0x33; 0x30; 0x30]
       = first :: digits ++ replicate (5 - length digits) 0x30
    /\ (length digits <= 5)%nat
    /\ Forall (fun d => 0x31 <= d <= 0x39) digits
    /\ collapsed (default [] (ARABIC_SOUNDEX !! first)) digits.
Proof.
  apply (arabicSoundex_shape [0x0645; 0x064F; 0x062D; 0x0645; 0x0651; 0x062F]).
  - discriminate.
  - vm_compute. reflexivity.
Defined.

(** X3. The phonetic code does not depend on diacritics or on letter
    variants: a text that keeps a letter after diacritic removal has the
    code of its canonical form. *)
Theorem arabicSoundex_of_canonical_text (text : list Z) :
  removeDiacritics text <> [] ->
  arabicSoundex (normalizeArabicLetters (removeDiacritics text)) = arabicSoundex text.
Proof.
  intros Hne. unfold arabicSoundex.
  assert (text <> []) as Ht by (intros ->; done).
  assert (normalizeArabicLetters (removeDiacritics text) <> []) as Hn.
  { intros H. apply (f_equal length) in H.
    rewrite normalizeArabicLetters_length in H.
    destruct (removeDiacritics text); [done | discriminate]. }
  rewrite !bool_decide_eq_false_2 by done.
  rewrite (removeDiacritics_id (normalizeArabicLetters (removeDiacritics text))).
  - by rewrite !normalizeArabicLetters_map, map_canonicalLetter_idempotent.
  - apply normalizeArabicLetters_clean, removeDiacritics_clean.
Qed.

Lemma arabicSoundex_of_canonical_text_witness :
  arabicSoundex (normalizeArabicLetters (removeDiacritics [0x0623; 0x064E; 0x062D; 0x0645; 0x062F]))
  = arabicSoundex [0x0623; 0x064E; 0x062D; 0x0645; 0x062F].
Proof.
  apply (arabicSoundex_of_canonical_text [0x0623; 0x064E; 0x062D; 0x0645; 0x062F]).
  discriminate.
Defined.

(** ** The similarity of different strings *)

Lemma picked_all (s : list Z) (flags : list bool) :
  length s = length flags -> countTrue flags = length flags -> picked s flags = s.
Proof.
  revert flags. induction s as [|c s IH]; intros [|b flags] Hlen Hcount;
    simpl in *; try done.
  pose proof (countTrue_le_length flags).
  destruct b; [|lia]. f_equal. apply IH; lia.
Qed.

Lemma mismatches_zero (a b : list Z) :
  length a = length b -> mismatches a b = 0 -> a = b.
Proof.
  revert b. induction a as [|x a IH]; intros [|y b] Hlen Hzero; simpl in *; try done.
  pose proof (mismatches_bounds a b).
  destruct (Z.eqb_spec x y) as [->|]; [|lia]. f_equal. apply IH; lia.
Qed.

Lemma score_below_one (m t len1 len2 prefix : Z) :
  0 < m -> m <= len1 -> m <= len2 -> 0 <= t <= m -> 0 <= prefix <= 4 ->
  m < len1 \/ m < len2 \/ 0 < t ->
  (score m t len1 len2 prefix < 1)%Q.
Proof.
  intros Hm H1 H2 Ht Hp Hstrict. unfold score.
  assert (0 < inject_Z m)%Q as Qm by (rewrite <- (Zlt_Qlt 0); lia).
  assert (0 < inject_Z len1)%Q as Ql1 by (rewrite <- (Zlt_Qlt 0); lia).
  assert (0 < inject_Z len2)%Q as Ql2 by (rewrite <- (Zlt_Qlt 0); lia).
  assert (inject_Z m <= inject_Z len1)%Q as Qm1 by (rewrite <- Zle_Qle; lia).
  assert (inject_Z m <= inject_Z len2)%Q as Qm2 by (rewrite <- Zle_Qle; lia).
  assert (0 <= inject_Z t)%Q as Qt0 by (rewrite <- (Zle_Qle 0); lia).
  assert (inject_Z t <= inject_Z m)%Q as Qtm by (rewrite <- Zle_Qle; lia).
  assert (0 <= inject_Z prefix)%Q as Qp0 by (rewrite <- (Zle_Qle 0); lia).
  assert (inject_Z prefix <= 4)%Q as Qp4 by (rewrite <- (Zle_Qle _ 4); lia).
  assert (inject_Z m < inject_Z len1 \/ inject_Z m < inject_Z len2 \/ 0 < inject_Z t)%Q
    as Qstrict.
  { destruct Hstrict as [H|[H|H]]; [left | right; left | right; right].
    - by rewrite <- Zlt_Qlt.
    - by rewrite <- Zlt_Qlt.
    - by rewrite <- (Zlt_Qlt 0). }
  clear Hm H1 H2 Ht Hp Hstrict.
  set (qm := inject_Z m) in *. set (q1 := inject_Z len1) in *.
  set (q2 := inject_Z len2) in *. set (qt := inject_Z t) in *.
  set (p := inject_Z prefix) in *. clearbody qm q1 q2 qt p.
  assert (0 <= qm - qt / 2)%Q as Hd.
  { assert (qt / 2 <= qm)%Q; [apply Qle_shift_div_r|]; lra. }
  assert (qm - qt / 2 <= qm)%Q as He.
  { assert (0 <= qt / 2)%Q; [apply Qle_shift_div_l|]; lra. }
  pose proof (Qdiv_unit qm q1 ltac:(lra) Qm1 Ql1) as Ha.
  pose proof (Qdiv_unit qm q2 ltac:(lra) Qm2 Ql2) as Hb.
  pose proof (Qdiv_unit (qm - qt / 2) qm Hd He Qm) as Hc.
  assert (qm / q1 < 1 \/ qm / q2 < 1 \/ (qm - qt / 2) / qm < 1)%Q as Hlt.
  { destruct Qstrict as [H|[H|H]]; [left | right; left | right; right];
      apply Qlt_shift_div_r; try done; try lra.
    assert (0 < qt / 2)%Q; [apply Qlt_shift_div_l|]; lra. }
  generalize dependent (qm / q1)%Q. intros a Ha.
  generalize dependent (qm / q2)%Q. intros b Hb.
  generalize dependent ((qm - qt / 2) / qm)%Q. intros c Hc Hlt.
  assert ((a + b + c) / 3 < 1)%Q as Hj1.
  { apply Qlt_shift_div_r; lra. }
  pose proof (Qdiv_unit (a + b + c) 3 ltac:(lra) ltac:(lra) ltac:(lra)) as Hj.
  generalize dependent ((a + b + c) / 3)%Q. intros j Hj1 Hj.
  nra.
Qed.

(** X4. The similarity is 1 exactly for equal strings: two different
    strings always score strictly below 1. *)
Theorem jaroWinkler_one_iff_equal (a b : list Z) :
  exists q, jaroWinkler a b = Returns q /\ ((q == 1)%Q <-> a = b).
Proof.
  destruct (decide (a = b)) as [Heq|Hne].
  { exists 1%Q. unfold jaroWinkler. rewrite bool_decide_eq_true_2 by done.
    split; [done|]. split; [done | reflexivity]. }
  assert (forall q, (q < 1)%Q -> ((q == 1)%Q <-> a = b)) as Hbelow.
  { intros q Hq. split; [|done]. intros Hq1. rewrite Hq1 in Hq. lra. }
  destruct (decide (a = [] \/ b = [])) as [He|He].
  { exists 0%Q. split; [|apply Hbelow; lra].
    unfold jaroWinkler. rewrite bool_decide_eq_false_2 by done.
    destruct He as [E|E].
    - by rewrite (bool_decide_eq_true_2 (a = [])).
    - rewrite (bool_decide_eq_true_2 (b = [])) by done. by rewrite orb_true_r. }
  assert (a <> []) as H1 by tauto. assert (b <> []) as H2 by tauto.
  set (w := Z.max (Z.of_nat (length a)) (Z.of_nat (length b)) / 2 - 1).
  destruct (decide (matches (findMatches a b w) = 0)) as [Hm|Hm].
  { exists 0%Q. split; [|apply Hbelow; lra].
    unfold jaroWinkler. rewrite bool_decide_eq_false_2 by done.
    rewrite (bool_decide_eq_false_2 (a = [])) by done.
    rewrite (bool_decide_eq_false_2 (b = [])) by done.
    simpl orb. cbv iota. fold w. by rewrite Hm. }
  eexists. split; [by apply jaroWinkler_scored|]. apply Hbelow. fold w.
  destruct (findMatches_bounds a b w) as (Hb1 & Hb2 & Hb3).
  pose proof (mismatches_bounds (picked a (s1Matches (findMatches a b w)))
                (picked b (s2Matches (findMatches a b w)))) as Hb4.
  pose proof (commonPrefix_bounds 4 a b) as Hb5.
  apply score_below_one; try lia.
  destruct (findMatches_inv a b w) as [P HP].
  pose proof (mi_count1 HP) as C1. pose proof (mi_count2 HP) as C2.
  pose proof (mi_len1 HP) as L1. pose proof (mi_len2 HP) as L2.
  destruct (decide (matches (findMatches a b w) < Z.of_nat (length a))); [by left|].
  destruct (decide (matches (findMatches a b w) < Z.of_nat (length b)));
    [by right; left|].
  right. right.
  destruct (decide (0 < mismatches (picked a (s1Matches (findMatches a b w)))
                                   (picked b (s2Matches (findMatches a b w)))))
    as [|Hzero]; [done|]. exfalso. apply Hne.
  assert (picked a (s1Matches (findMatches a b w))
          = picked b (s2Matches (findMatches a b w))) as E.
  { apply mismatches_zero; [|lia]. rewrite !picked_length by lia. lia. }
  rewrite (picked_all a) in E by lia. rewrite (picked_all b) in E by lia. done.
Qed.

(** ** The comparison route *)

Lemma compareHandler_returns (n1 n2 : list Z) :
  exists norm1 norm2 jw,
    normalizeArabicName n1 = Returns norm1
    /\ normalizeArabicName n2 = Returns norm2
    /\ jaroWinkler (normalized norm1) (normalized norm2) = Returns jw
    /\ (0 <= jw <= 1)%Q
    /\ compareHandler n1 n2
       = Returns {| name1 := norm1; name2 := norm2;
                    soundexMatch := bool_decide (soundex norm1 = soundex norm2);
                    similarity := jw;
                    matchScore := if bool_decide (soundex norm1 = soundex norm2)
                                  then Qmax jw 0.85 else jw |}.
Proof.
  destruct (normalizeArabicName_total n1) as (norm1 & H1 & _).
  destruct (normalizeArabicName_total n2) as (norm2 & H2 & _).
  destruct (jaroWinkler_returns (normalized norm1) (normalized norm2)) as (jw & Hjw & Hr).
  exists norm1, norm2, jw. repeat (split; [done|]).
  unfold compareHandler. by rewrite H1, bind_Returns, H2, bind_Returns, Hjw, bind_Returns.
Qed.

(** X5. The comparison does not depend on the order of the two names:
    swapping them swaps the two normalised names and keeps the flag, the
    similarity and the final score. *)
Theorem compareHandler_symmetric (n1 n2 : list Z) :
  exists r r',
    compareHandler n1 n2 = Returns r /\ compareHandler n2 n1 = Returns r'
    /\ name1 r' = name2 r /\ name2 r' = name1 r
    /\ soundexMatch r' = soundexMatch r
    /\ similarity r' = similarity r
    /\ matchScore r' = matchScore r.
Proof.
  destruct (compareHandler_returns n1 n2) as (a & b & jw & Ha & Hb & Hjw & _ & ->).
  destruct (compareHandler_returns n2 n1) as (b' & a' & jw' & Hb' & Ha' & Hjw' & _ & ->).
  rewrite Ha in Ha'. rewrite Hb in Hb'.
  apply Returns_inj in Ha', Hb'. subst a' b'.
  rewrite jaroWinkler_swap, Hjw in Hjw'. apply Returns_inj in Hjw'. subst jw'.
  eexists _, _. split; [done|]. split; [done|]. simpl.
  assert (bool_decide (soundex b = soundex a) = bool_decide (soundex a = soundex b)) as ->.
  { apply bool_decide_ext. split; congruence. }
  done.
Qed.

(** X6. The final score of a comparison lies between the similarity and 1,
    and a phonetic match lifts it to at least 0.85. *)
Theorem compareHandler_score_bounds (n1 n2 : list Z) :
  exists r,
    compareHandler n1 n2 = Returns r
    /\ (0 <= similarity r)%Q /\ (similarity r <= matchScore r)%Q
    /\ (matchScore r <= 1)%Q
    /\ (soundexMatch r = true -> (0.85 <= matchScore r)%Q)
    /\ (soundexMatch r = false -> matchScore r = similarity r).
Proof.
  destruct (compareHandler_returns n1 n2) as (a & b & jw & _ & _ & _ & [H0 H1] & ->).
  eexists. split; [done|]. simpl.
  destruct (bool_decide (soundex a = soundex b)).
  - split; [done|]. split; [apply Q.le_max_l|]. split.
    + apply Q.max_lub; [done | lra].
    + split; [intros _; apply Q.le_max_r | done].
  - split; [done|]. split; [lra|]. split; [done|]. split; [done | done].
Qed.

Lemma jaroWinkler_same (s : list Z) : jaroWinkler s s = Returns 1%Q.
Proof. unfold jaroWinkler. by rewrite bool_decide_eq_true_2. Qed.

(** X7. Two names that differ only in diacritics and letter variants are a
    perfect match: the flag is raised and both scores are 1. *)
Theorem compareHandler_same_letters (n1 n2 : list Z) :
  normalizeArabicLetters (removeDiacritics n1)
  = normalizeArabicLetters (removeDiacritics n2) ->
  exists r,
    compareHandler n1 n2 = Returns r
    /\ normalized (name1 r) = normalized (name2 r)
    /\ soundexMatch r = true /\ similarity r = 1%Q /\ matchScore r = 1%Q.
Proof.
  intros Hsame.
  destruct (normalizeArabicName_total n1) as (a & Ha & Na & Ca).
  destruct (normalizeArabicName_total n2) as (b & Hb & Nb & Cb).
  assert (normalized a = normalized b) as Hn.
  { rewrite Na, Nb, !arabicNormalForm_unfold, Hsame. reflexivity. }
  assert (soundex a = soundex b) as Hs.
  { rewrite Hn, Cb in Ca. by apply Returns_inj in Ca. }
  eexists. split.
  - unfold compareHandler. rewrite Ha, bind_Returns, Hb, bind_Returns, Hn.
    rewrite jaroWinkler_same, bind_Returns. reflexivity.
  - simpl. rewrite bool_decide_eq_true_2 by done. done.
Qed.

Lemma compareHandler_same_letters_witness :
  exists r,
    compareHandler [0x0623; 0x062D; 0x0645; 0x062F]
                   [0x0627; 0x064E; 0x062D; 0x0652; 0x0645; 0x064E; 0x062F] = Returns r
    /\ normalized (name1 r) = normalized (name2 r)
    /\ soundexMatch r = true /\ similarity r = 1%Q /\ matchScore r = 1%Q.
Proof.
  apply (compareHandler_same_letters
           [0x0623; 0x062D; 0x0645; 0x062F]
           [0x0627; 0x064E; 0x062D; 0x0652; 0x0645; 0x064E; 0x062F]).
  reflexivity.
Defined.

(** ** The tokens of a normalised name *)

Lemma split_nonempty (sep : Z) (s : list Z) : split sep s <> [].
Proof.
  destruct s as [|c s]; simpl; [done|].
  destruct (c =? sep); [done|]. by destruct (split sep s).
Qed.

(** Splitting at a separator and joining with it gives the string back. *)
Lemma join_split (sep : Z) (s : list Z) : join [sep] (split sep s) = s.
Proof.
  induction s as [|c s IH]; simpl; [done|].
  pose proof (split_nonempty sep s) as Hne.
  destruct (Z.eqb_spec c sep) as [->|Hc].
  - destruct (split sep s) as [|p ps]; [done|].
    change (join [sep] ([] :: p :: ps)) with ([] ++ [sep] ++ join [sep] (p :: ps)).
    by rewrite IH.
  - destruct (split sep s) as [|p ps]; [done|].
    destruct ps as [|q ps]; simpl in *; by rewrite <- IH.
Qed.

Lemma singleSpaced_weaken (b : bool) (s : list Z) :
  singleSpaced b s -> singleSpaced false s.
Proof.
  destruct s as [|c s]; simpl; [done|].
  destruct (isWhitespace c); [|done]. intros (? & ? & ?). done.
Qed.

Lemma collapseRuns_singleSpaced (inRun : bool) (s : list Z) :
  singleSpaced inRun (collapseRuns inRun s).
Proof.
  revert inRun. induction s as [|c s IH]; intros inRun; simpl; [done|].
  destruct (isWhitespace c) eqn:Hc.
  - destruct inRun; [apply IH|]. simpl. split; [done|]. split; [done | apply IH].
  - simpl. rewrite Hc. apply IH.
Qed.

Lemma trimStart_singleSpaced (b : bool) (s : list Z) :
  singleSpaced b s -> singleSpaced true (trimStart s).
Proof.
  revert b. induction s as [|c s IH]; intros b; simpl; [done|].
  destruct (isWhitespace c) eqn:Hc.
  - intros (_ & _ & H). by apply (IH true).
  - intros H. simpl. by rewrite Hc.
Qed.

Lemma trimEnd_snoc (s : list Z) (c : Z) :
  trimEnd (s ++ [c]) = if isWhitespace c then trimEnd s else s ++ [c].
Proof.
  unfold trimEnd. rewrite rev_app_distr. simpl.
  destruct (isWhitespace c); [done|]. simpl. by rewrite rev_involutive.
Qed.

Lemma singleSpaced_app_l (b : bool) (s t : list Z) :
  singleSpaced b (s ++ t) -> singleSpaced b s.
Proof.
  revert b. induction s as [|c s IH]; intros b; simpl; [done|].
  destruct (isWhitespace c).
  - intros (? & ? & H). repeat split; try done. by apply IH.
  - apply IH.
Qed.

(** [trimEnd s] is a beginning of [s] whose last code unit, if any, is not
    whitespace. *)
Lemma trimEnd_spec (s : list Z) :
  (exists t, s = trimEnd s ++ t)
  /\ forall c, last (trimEnd s) = Some c -> isWhitespace c = false.
Proof.
  induction s as [|c s [[t Ht] Hlast]] using rev_ind.
  - split; [by exists [] | done].
  - rewrite trimEnd_snoc. destruct (isWhitespace c) eqn:Hc.
    + split; [|done]. exists (t ++ [c]). by rewrite app_assoc, <- Ht.
    + split; [exists []; by rewrite app_nil_r|].
      intros c'. rewrite last_snoc. by intros [= <-].
Qed.

(** The shape of [trim (collapseWhitespace s)]. *)
Lemma trim_collapse_singleSpaced (s : list Z) :
  singleSpaced true (trim (collapseWhitespace s))
  /\ forall c, last (trim (collapseWhitespace s)) = Some c -> isWhitespace c = false.
Proof.
  unfold trim. destruct (trimEnd_spec (trimStart (collapseWhitespace s))) as [[t Ht] Hlast].
  split; [|done].
  apply singleSpaced_app_l with (t := t). rewrite <- Ht.
  apply (trimStart_singleSpaced false), collapseRuns_singleSpaced.
Qed.

Lemma last_cons_cons {A} (x y : A) (l : list A) : last (x :: y :: l) = last (y :: l).
Proof. done. Qed.

(** The parts of a single-spaced string that does not end in whitespace:
    only the first can be empty, and only when the string is empty or
    begins with a space. *)
Lemma split_singleSpaced (s : list Z) :
  singleSpaced false s ->
  (forall c, last s = Some c -> isWhitespace c = false) ->
  exists p ps, split 0x20 s = p :: ps
               /\ Forall (fun c => isWhitespace c = false) p
               /\ Forall isToken ps
               /\ (p = [] -> s = [] \/ head s = Some 0x20).
Proof.
  induction s as [|c s IH]; intros Hs Hlast.
  - exists [], []. split; [done|]. split; [constructor|]. split; [constructor|].
    intros _. by left.
  - simpl in Hs. destruct (isWhitespace c) eqn:Hc.
    + destruct Hs as (-> & _ & Hs). simpl.
      destruct s as [|c' s].
      { specialize (Hlast 0x20 eq_refl). done. }
      destruct IH as (p & ps & Hsplit & Hp & Hps & Hempty).
      { by apply (singleSpaced_weaken true). }
      { intros c0 H0. apply Hlast. by rewrite last_cons_cons. }
      rewrite Hsplit. exists [], (p :: ps).
      split; [done|]. split; [constructor|]. split; [|intros _; by right].
      constructor; [|done]. split; [|done]. intros ->.
      destruct (Hempty eq_refl) as [?|Hhead]; [done|].
      simpl in Hs, Hhead. injection Hhead as ->. simpl in Hs. by destruct Hs as (_ & ? & _).
    + simpl. destruct (Z.eqb_spec c 0x20) as [->|_]; [done|].
      destruct IH as (p & ps & Hsplit & Hp & Hps & Hempty).
      { done. }
      { intros c0 H0. apply Hlast. destruct s; [done|]. by rewrite last_cons_cons. }
      rewrite Hsplit. exists (c :: p), ps.
      split; [done|]. split; [by constructor|]. split; [done | done].
Qed.

(** The parts of [trim (collapseWhitespace s)], when it is not empty, are
    tokens. *)
Lemma split_trim_collapse (s : list Z) :
  trim (collapseWhitespace s) <> [] ->
  Forall isToken (split 0x20 (trim (collapseWhitespace s))).
Proof.
  intros Hne. destruct (trim_collapse_singleSpaced s) as [Hs Hlast].
  destruct (split_singleSpaced _ (singleSpaced_weaken _ _ Hs) Hlast)
    as (p & ps & -> & Hp & Hps & Hempty).
  constructor; [|done]. split; [|done]. intros ->.
  destruct (Hempty eq_refl) as [?|Hhead]; [done|].
  destruct (trim (collapseWhitespace s)) as [|c t]; [done|].
  simpl in Hhead. injection Hhead as ->. simpl in Hs. by destruct Hs as (_ & ? & _).
Qed.

Lemma normalizeArabicName_parts (name : list Z) :
  name <> [] ->
  exists code ps,
    normalizeArabicName name
    = Returns {| original := name; normalized := arabicNormalForm name;
                 soundex := code; parts := ps |}
    /\ Forall2 (fun a p => part_original p = a
                           /\ arabicSoundex a = Returns (part_soundex p))
         (split 0x20 (arabicNormalForm name)) ps.
Proof.
  intros Hne. unfold normalizeArabicName. rewrite bool_decide_eq_false_2 by done.
  rewrite <- arabicNormalForm_unfold.
  pose proof (arabicNormalForm_clean name) as Hclean.
  destruct (mapOutcome_returns
              (fun part => code ← arabicSoundex part;
                           Returns {| part_original := part; part_soundex := code |})
              (split 32 (arabicNormalForm name))) as (ps & -> & Hps).
  { eapply Forall_impl; [apply split_clean, Hclean|].
    intros part Hpart. cbv beta. destruct (arabicSoundex_clean part Hpart) as [code ->].
    by eexists. }
  destruct (arabicSoundex_clean (removeWhitespace (arabicNormalForm name)))
    as [code Hcode]; [by apply removeWhitespace_clean|].
  exists code, ps. split; [by rewrite bind_Returns, Hcode, bind_Returns|].
  eapply Forall2_impl; [apply Hps|]. intros a p. cbv beta.
  destruct (arabicSoundex a) as [c| |]; try done.
  rewrite bind_Returns. intros H%Returns_inj. subst p. done.
Qed.

Lemma Forall2_transfer {A B} (R : A -> B -> Prop) (P : A -> Prop) (Q : B -> Prop)
    (l : list A) (k : list B) :
  Forall2 R l k -> Forall P l -> (forall a b, R a b -> P a -> Q b) -> Forall Q k.
Proof.
  intros HR HP HQ. induction HR as [|a b l k Hab _ IH]; [constructor|].
  inversion HP; subst. constructor; eauto.
Qed.

(** X8. The parts of a normalised Arabic name, joined by single spaces,
    give the normalised name back; and when that name is not empty, every
    part is a token (not empty, free of whitespace) that carries its own
    phonetic code of six characters. *)
Theorem normalizeArabicName_tokens (name : list Z) :
  exists r,
    normalizeArabicName name = Returns r
    /\ join (lit " ") (map part_original (parts r)) = normalized r
    /\ (normalized r <> [] ->
        Forall (fun p => isToken (part_original p)
                         /\ arabicSoundex (part_original p) = Returns (part_soundex p)
                         /\ length (part_soundex p) = 6%nat)
               (parts r)).
Proof.
  destruct (decide (name = [])) as [->|Hne].
  { eexists. split; [reflexivity|]. split; [reflexivity | done]. }
  destruct (normalizeArabicName_parts name Hne) as (code & ps & -> & Hps).
  eexists. split; [reflexivity|]. cbn [parts normalized].
  pose proof (arabicNormalForm_clean name) as Hclean.
  revert Hps Hclean. rewrite arabicNormalForm_unfold.
  generalize (normalizeArabicPrefixes (normalizeArabicLetters (removeDiacritics name))).
  intros s Hps Hclean. split.
  - assert (map part_original ps = split 32 (trim (collapseWhitespace s))) as ->.
    { clear Hclean. induction Hps as [|a p l k [Ha _] _ IH]; simpl; [done|].
      by rewrite Ha, IH. }
    apply (join_split 32).
  - intros Hnonempty.
    apply (Forall2_transfer _ (fun a => isToken a /\ clean a) _ _ _ Hps).
    + apply Forall_and. split; [by apply split_trim_collapse | by apply split_clean].
    + intros a p [<- Hcode] [Htoken Hca]. split; [done|]. split; [done|].
      destruct (arabicSoundex_code (part_original p)) as (first & rest & _ & Hret & Hlen).
      { rewrite removeDiacritics_id by done. apply Htoken. }
      rewrite Hret in Hcode. apply Returns_inj in Hcode. rewrite <- Hcode.
      simpl. by rewrite Hlen.
Qed.

Lemma parts_join_record (o s : list Z) :
  join (lit " ")
    (en_parts {| en_original := o; en_normalized := s; en_parts := split 0x20 s |})
  = en_normalized {| en_original := o; en_normalized := s; en_parts := split 0x20 s |}.
Proof. apply (join_split 32). Qed.

(** X9. The parts of a normalised English name, joined by single spaces,
    give the normalised name back. *)
Theorem normalizeEnglishName_parts_join
    (toLowerCase toUpperCase : list Z -> list Z) (name : list Z) :
  join (lit " ") (en_parts (normalizeEnglishName toLowerCase toUpperCase name))
  = en_normalized (normalizeEnglishName toLowerCase toUpperCase name).
Proof.
  destruct (decide (name = [])) as [->|Hne]; [reflexivity|].
  rewrite normalizeEnglishName_nonempty by done. apply parts_join_record.
Qed.

(** ** Lengths *)

Lemma filter_length_bound {A} (f : A -> bool) (l : list A) :
  (length (List.filter f l) <= length l)%nat.
Proof. induction l as [|a l IH]; simpl; [done|]. destruct (f a); simpl; lia. Qed.

Lemma startsWith_length (s prefix : list Z) :
  startsWith s prefix = true -> (length prefix <= length s)%nat.
Proof.
  revert s. induction prefix as [|p prefix IH]; intros [|c s]; simpl; try done; try lia.
  intros [_ H]%andb_true_iff. apply IH in H. lia.
Qed.

Lemma prefixes_length (table : list (list Z * list Z)) (s : list Z) :
  Forall (fun e => (length e.2 <= length e.1)%nat) table ->
  (length (fold_left prefixStep table s) <= length s)%nat.
Proof.
  intros Htable. revert s.
  induction Htable as [|[prefix replacement] table He _ IH]; intros s; simpl; [done|].
  etransitivity; [apply IH|]. simpl in He.
  destruct (startsWith s prefix) eqn:Hstart; [|done].
  apply startsWith_length in Hstart. unfold substring.
  rewrite length_app, length_drop. lia.
Qed.

Lemma collapseRuns_length (inRun : bool) (s : list Z) :
  (length (collapseRuns inRun s) <= length s)%nat.
Proof.
  revert inRun. induction s as [|c s IH]; intros inRun; simpl; [done|].
  pose proof (IH true). pose proof (IH false).
  destruct (isWhitespace c), inRun; simpl; lia.
Qed.

Lemma trimStart_length (s : list Z) : (length (trimStart s) <= length s)%nat.
Proof. induction s as [|c s IH]; simpl; [done|]. destruct (isWhitespace c); simpl; lia. Qed.

Lemma trim_length (s : list Z) : (length (trim s) <= length s)%nat.
Proof.
  unfold trim, trimEnd. rewrite length_rev.
  etransitivity; [apply trimStart_length|]. rewrite length_rev. apply trimStart_length.
Qed.

(** X10. Normalising an Arabic name never makes it longer. *)
Theorem normalizeArabicName_not_longer (name : list Z) :
  exists r, normalizeArabicName name = Returns r
            /\ (length (normalized r) <= length name)%nat.
Proof.
  destruct (normalizeArabicName_total name) as (r & Hr & Hn & _).
  exists r. split; [done|]. rewrite Hn, arabicNormalForm_unfold.
  etransitivity; [apply trim_length|].
  etransitivity; [apply collapseRuns_length|].
  rewrite normalizeArabicPrefixes_unfold.
  etransitivity; [apply prefixes_length; repeat constructor; simpl; lia|].
  rewrite normalizeArabicLetters_length. apply filter_length_bound.
Qed.

(** ** [normalizePatientNames] *)

Section PatientNamesProperties.

Variable toLowerCase toUpperCase : list Z -> list Z.

Lemma push_lookup (l : nat) (x : Extension) (h : list (list Extension))
    (array : list Extension) :
  h !! l = Some array ->
  push l x h !! l = Some (array ++ [x])
  /\ (forall l', l' <> l -> push l x h !! l' = h !! l')
  /\ length (push l x h) = length h.
Proof.
  intros Hl. unfold push. split; [by rewrite list_lookup_alter_eq, Hl|].
  split; [|apply length_alter].
  intros l' Hne. by apply list_lookup_alter_ne.
Qed.

Lemma normalizeName_spec (l : nat) (h : list (list Extension)) (name : HumanName)
    (array : list Extension) :
  h !! l = Some array ->
  exists h' out,
    normalizeName toLowerCase toUpperCase l h name = Returns (h', out)
    /\ h' !! l = Some (array ++ nameExtensions toLowerCase toUpperCase name)
    /\ (forall l', l' <> l -> h' !! l' = h !! l')
    /\ length h' = length h
    /\ normalizedFrom toLowerCase toUpperCase name out.
Proof.
  intros Hl. unfold normalizeName, nameExtensions, normalizedFrom.
  destruct (isArabic (scriptProbe name)).
  - destruct (normalizeArabicName_total (fullName name)) as (r & -> & _).
    rewrite bind_Returns.
    destruct (push_lookup l (stringExtension URL_NORMALIZED_ARABIC (normalized r))
                h array Hl) as (H1 & H2 & H3).
    destruct (push_lookup l (stringExtension URL_SOUNDEX_ARABIC (soundex r))
                _ _ H1) as (H4 & H5 & H6).
    eexists _, _. split; [reflexivity|]. cbn [source _originalText _normalized _soundex].
    split; [by rewrite H4, <- app_assoc|].
    split; [intros l' Hne; by rewrite H5, H2|].
    split; [by rewrite H6, H3|].
    split; [done|]. split; [done|]. by exists r.
  - destruct (push_lookup l
                (stringExtension URL_NORMALIZED_ENGLISH
                   (en_normalized
                      (normalizeEnglishName toLowerCase toUpperCase (fullName name))))
                h array Hl) as (H1 & H2 & H3).
    eexists _, _. split; [reflexivity|]. cbn [source _originalText _normalized _soundex].
    split; [exact H1|]. split; [exact H2|]. split; [exact H3|].
    split; [reflexivity|]. split; reflexivity || (split; reflexivity).
Qed.

Lemma mapNames_spec (l : nat) (names : list HumanName) :
  forall (h : list (list Extension)) (array : list Extension),
  h !! l = Some array ->
  exists h' outs,
    mapNames toLowerCase toUpperCase l h names = Returns (h', outs)
    /\ h' !! l
       = Some (array ++ concat (map (nameExtensions toLowerCase toUpperCase) names))
    /\ (forall l', l' <> l -> h' !! l' = h !! l')
    /\ length h' = length h
    /\ Forall2 (normalizedFrom toLowerCase toUpperCase) names outs.
Proof.
  induction names as [|name names IH]; intros h array Hl.
  - exists h, []. simpl. rewrite app_nil_r. repeat split; done.
  - destruct (normalizeName_spec l h name array Hl)
      as (h1 & out & Hone & H1 & H2 & H3 & H4).
    destruct (IH h1 _ H1) as (h2 & outs & Hrest & H5 & H6 & H7 & H8).
    exists h2, (out :: outs).
    split.
    { cbn [mapNames]. rewrite Hone, bind_Returns. cbn [fst snd].
      rewrite Hrest, bind_Returns. reflexivity. }
    split; [by rewrite H5, <- app_assoc|].
    split; [intros l' Hne; by rewrite H6, H2|].
    split; [by rewrite H7, H3|]. by constructor.
Qed.

End PatientNamesProperties.

Lemma normalizePatientNames_spec
    (toLowerCase toUpperCase : list Z -> list Z)
    (h : list (list Extension)) (patient : Patient) (names : list HumanName)
    (l : nat) (old : list Extension) :
  patient_name patient = Some names ->
  extensionArray h patient l old ->
  exists h' outs,
    normalizePatientNames toLowerCase toUpperCase h patient
    = Returns (h', {| enriched_name := Some outs; enriched_extension := Some l |})
    /\ Forall2 (normalizedFrom toLowerCase toUpperCase) names outs
    /\ h' !! l
       = Some (old ++ concat (map (nameExtensions toLowerCase toUpperCase) names))
    /\ (forall l', l' <> l -> (l' < length h)%nat -> h' !! l' = h !! l').
Proof.
  intros Hnames Harray. unfold normalizePatientNames, extensionArray in *.
  rewrite Hnames. destruct (patient_extension patient) as [l0|].
  - destruct Harray as [-> Hl].
    destruct (mapNames_spec toLowerCase toUpperCase l0 names h old Hl)
      as (h' & outs & -> & H1 & H2 & _ & H4).
    exists h', outs. rewrite bind_Returns. cbn [fst snd].
    split; [done|]. split; [done|]. split; [done|]. intros l' Hne _. by apply H2.
  - destruct Harray as [-> ->].
    destruct (mapNames_spec toLowerCase toUpperCase (length h) names (h ++ [[]]) [])
      as (h' & outs & -> & H1 & H2 & _ & H4).
    { by rewrite list_lookup_middle. }
    exists h', outs. rewrite bind_Returns. cbn [fst snd].
    split; [done|]. split; [done|]. split; [done|].
    intros l' Hne Hlt. rewrite H2 by done. by rewrite lookup_app_l.
Qed.

(** X11. With a [name] array, [normalizePatientNames] returns; it keeps one
    entry per name, in order, each a copy of its source with the
    normalisation of the script found in [text] or [family]; and it appends
    to the [extension] array, per name and in order, two extensions for an
    Arabic entry and one otherwise. The array is the patient's own when the
    patient has one, so that the caller's array grows, and a new one
    otherwise; no other array of the heap changes. *)
Theorem normalizePatientNames_extends
    (toLowerCase toUpperCase : list Z -> list Z)
    (h : list (list Extension)) (patient : Patient) (names : list HumanName)
    (l : nat) (old : list Extension) :
  patient_name patient = Some names ->
  extensionArray h patient l old ->
  exists h' outs,
    normalizePatientNames toLowerCase toUpperCase h patient
    = Returns (h', {| enriched_name := Some outs; enriched_extension := Some l |})
    /\ Forall2 (normalizedFrom toLowerCase toUpperCase) names outs
    /\ h' !! l
       = Some (old ++ concat (map (nameExtensions toLowerCase toUpperCase) names))
    /\ (forall l', l' <> l -> (l' < length h)%nat -> h' !! l' = h !! l').
Proof. apply normalizePatientNames_spec. Qed.


Lemma normalizePatientNames_extends_witness :
  exists h' outs,
    normalizePatientNames asciiToLower asciiToUpper
      [ [ {| url := lit "https://fhir.healthflow.eg/StructureDefinition/uhis-tier";
             valueString := None; valueCode := Some (lit "gold");
             valueBoolean := None; conceptCode := None |} ] ]
      {| patient_name :=
           Some [ {| text := Some [0x0623; 0x062D; 0x0645; 0x064E; 0x062F];
                     family := None; given := None |};
                  {| text := None; family := Some (lit "al-Sayed");
                     given := Some [ lit "Omar" ] |} ];
         patient_extension := Some 0%nat |}
    = Returns (h', {| enriched_name := Some outs; enriched_extension := Some 0%nat |})
    /\ Forall2 (normalizedFrom asciiToLower asciiToUpper)
         [ {| text := Some [0x0623; 0x062D; 0x0645; 0x064E; 0x062F];
              family := None; given := None |};
           {| text := None; family := Some (lit "al-Sayed");
              given := Some [ lit "Omar" ] |} ] outs
    /\ h' !! 0%nat
       = Some ([ {| url := lit "https://fhir.healthflow.eg/StructureDefinition/uhis-tier";
                    valueString := None; valueCode := Some (lit "gold");
                    valueBoolean := None; conceptCode := None |} ]
               ++ concat (map (nameExtensions asciiToLower asciiToUpper)
                    [ {| text := Some [0x0623; 0x062D; 0x0645; 0x064E; 0x062F];
                         family := None; given := None |};
                      {| text := None; family := Some (lit "al-Sayed");
                         given := Some [ lit "Omar" ] |} ]))
    /\ (forall l', l' <> 0%nat -> (l' < 1)%nat ->
        h' !! l'
        = [ [ {| url := lit "https://fhir.healthflow.eg/StructureDefinition/uhis-tier";
                 valueString := None; valueCode := Some (lit "gold");
                 valueBoolean := None; conceptCode := None |} ] ] !! l').
Proof.
  apply (normalizePatientNames_extends asciiToLower asciiToUpper
           [ [ {| url := lit "https://fhir.healthflow.eg/StructureDefinition/uhis-tier";
                  valueString := None; valueCode := Some (lit "gold");
                  valueBoolean := None; conceptCode := None |} ] ]).
  - reflexivity.
  - split; reflexivity.
Defined.

(** ** The normaliser's extensions read back by the registry bridge *)

Lemma find_app {A} (f : A -> bool) (l1 l2 : list A) :
  List.find f (l1 ++ l2)
  = match List.find f l1 with Some x => Some x | None => List.find f l2 end.
Proof. induction l1 as [|a l1 IH]; simpl; [done|]. by destruct (f a). Qed.

Lemma find_all_false {A} (f : A -> bool) (l : list A) :
  Forall (fun a => f a = false) l -> List.find f l = None.
Proof. induction 1 as [|a l Ha _ IH]; simpl; [done|]. by rewrite Ha. Qed.

Lemma extensionValue_string (u v : list Z) :
  v <> [] -> extensionValue (stringExtension u v) = VString v.
Proof. intros Hv. unfold extensionValue. simpl. by destruct v. Qed.

Lemma normalizeArabicName_code_length (name : list Z) (r : ArabicName) :
  normalizeArabicName name = Returns r -> normalized r <> [] ->
  length (soundex r) = 6%nat.
Proof.
  intros Hr Hne.
  destruct (normalizeArabicName_total name) as (r' & Hr' & Hn & Hcode).
  rewrite Hr in Hr'. apply Returns_inj in Hr'. subst r'.
  rewrite Hn, arabicNormalForm_unfold in Hne.
  pose proof (arabicNormalForm_clean name) as Hclean.
  rewrite Hn in Hcode. revert Hcode Hclean. rewrite arabicNormalForm_unfold.
  revert Hne.
  generalize (normalizeArabicPrefixes (normalizeArabicLetters (removeDiacritics name))).
  intros s Hne Hcode Hclean.
  destruct (trim_collapse_singleSpaced s) as [Hs _].
  destruct (trim (collapseWhitespace s)) as [|c t] eqn:E; [done|].
  simpl in Hs. destruct (isWhitespace c) eqn:Hc; [by destruct Hs as (_ & ? & _)|].
  destruct (arabicSoundex_code (removeWhitespace (c :: t)))
    as (first & rest & _ & Hret & Hlen).
  { rewrite removeDiacritics_id by (by apply removeWhitespace_clean).
    unfold removeWhitespace. simpl. by rewrite Hc. }
  rewrite Hret in Hcode. apply Returns_inj in Hcode. rewrite <- Hcode.
  simpl. by rewrite Hlen.
Qed.

Lemma english_entry_not_found (toLowerCase toUpperCase : list Z -> list Z)
    (key : list Z) (names : list HumanName) :
  includes URL_NORMALIZED_ENGLISH key = false ->
  Forall (fun n => isArabic (scriptProbe n) = false) names ->
  List.find (fun e => includes (url e) key)
    (concat (map (nameExtensions toLowerCase toUpperCase) names)) = None.
Proof.
  intros Hkey. induction 1 as [|n names Hn _ IH]; [done|].
  cbn [map concat]. rewrite find_app, IH. unfold nameExtensions. rewrite Hn.
  cbn [List.find url stringExtension]. by rewrite Hkey.
Qed.

(** X12. What the registry bridge reads back. After [normalizePatientNames],
    for the first name entry of Arabic script, when its normalised name is
    not empty and no extension that was already there has a URL containing
    the two keys, [extractExtension] finds that entry's normalised name under
    "name-normalized-arabic" and its phonetic code under
    "name-soundex-arabic". *)
Theorem extractExtension_reads_first_arabic_name
    (toLowerCase toUpperCase : list Z -> list Z)
    (h : list (list Extension)) (patient : Patient)
    (before after : list HumanName) (name : HumanName)
    (l : nat) (old : list Extension) (r : ArabicName) :
  patient_name patient = Some (before ++ name :: after) ->
  extensionArray h patient l old ->
  Forall (fun e => includes (url e) (lit "name-normalized-arabic") = false
                   /\ includes (url e) (lit "name-soundex-arabic") = false) old ->
  Forall (fun n => isArabic (scriptProbe n) = false) before ->
  isArabic (scriptProbe name) = true ->
  normalizeArabicName (fullName name) = Returns r ->
  normalized r <> [] ->
  exists h' enriched,
    normalizePatientNames toLowerCase toUpperCase h patient = Returns (h', enriched)
    /\ extractExtension h' (enriched_extension enriched) (lit "name-normalized-arabic")
       = VString (normalized r)
    /\ extractExtension h' (enriched_extension enriched) (lit "name-soundex-arabic")
       = VString (soundex r).
Proof.
  intros Hnames Harray Hold Hbefore Hscript Hr Hne.
  destruct (normalizePatientNames_spec toLowerCase toUpperCase h patient _ l old
              Hnames Harray) as (h' & outs & -> & _ & Hl & _).
  eexists _, _. split; [reflexivity|].
  unfold extractExtension. cbn [enriched_extension mbind option_bind]. rewrite Hl.
  rewrite map_app, concat_app. cbn [map concat].
  assert (nameExtensions toLowerCase toUpperCase name
          = [ stringExtension URL_NORMALIZED_ARABIC (normalized r);
              stringExtension URL_SOUNDEX_ARABIC (soundex r) ]) as ->.
  { unfold nameExtensions. by rewrite Hscript, Hr. }
  assert (soundex r <> []) as Hcode.
  { intros E. pose proof (normalizeArabicName_code_length _ _ Hr Hne) as H6.
    by rewrite E in H6. }
  split.
  - rewrite find_app, find_all_false.
    2:{ eapply Forall_impl; [apply Hold|]. by intros e [? _]. }
    rewrite find_app, english_entry_not_found by done.
    cbn [app List.find url stringExtension].
    replace (includes URL_NORMALIZED_ARABIC (lit "name-normalized-arabic"))
      with true by (vm_compute; reflexivity).
    by apply extensionValue_string.
  - rewrite find_app, find_all_false.
    2:{ eapply Forall_impl; [apply Hold|]. by intros e [_ ?]. }
    rewrite find_app, english_entry_not_found by done.
    cbn [app List.find url stringExtension].
    replace (includes URL_NORMALIZED_ARABIC (lit "name-soundex-arabic"))
      with false by (vm_compute; reflexivity).
    replace (includes URL_SOUNDEX_ARABIC (lit "name-soundex-arabic"))
      with true by (vm_compute; reflexivity).
    by apply extensionValue_string.
Qed.

Lemma extractExtension_reads_first_arabic_name_witness :
  exists h' enriched,
    normalizePatientNames asciiToLower asciiToUpper []
      {| patient_name :=
           Some ([ {| text := Some (lit "Ahmed Ali"); family := None; given := None |} ]
                 ++ {| text := Some [0x0623; 0x062D; 0x0645; 0x064E; 0x062F];
                       family := None; given := None |} :: []);
         patient_extension := None |}
    = Returns (h', enriched)
    /\ extractExtension h' (enriched_extension enriched) (lit "name-normalized-arabic")
       = VString [0x0627; 0x062D; 0x0645; 0x062F]
    /\ extractExtension h' (enriched_extension enriched) (lit "name-soundex-arabic")
       = VString [0x0627; 0x38; 0x35; 0x33; 0x30; 0x30].
Proof.
  apply (extractExtension_reads_first_arabic_name asciiToLower asciiToUpper []
           {| patient_name :=
                Some ([ {| text := Some (lit "Ahmed Ali"); family := None;
                           given := None |} ]
                      ++ {| text := Some [0x0623; 0x062D; 0x0645; 0x064E; 0x062F];
                            family := None; given := None |} :: []);
              patient_extension := None |}
           [ {| text := Some (lit "Ahmed Ali"); family := None; given := None |} ]
           []
           {| text := Some [0x0623; 0x062D; 0x0645; 0x064E; 0x062F];
              family := None; given := None |}
           0%nat []
           {| original := [0x0623; 0x062D; 0x0645; 0x064E; 0x062F];
              normalized := [0x0627; 0x062D; 0x0645; 0x062F];
              soundex := [0x0627; 0x38; 0x35; 0x33; 0x30; 0x30];
              parts := [ {| part_original := [0x0627; 0x062D; 0x0645; 0x062F];
                            part_soundex := [0x0627; 0x38; 0x35; 0x33; 0x30; 0x30] |} ] |}).
  - reflexivity.
  - split; reflexivity.
  - constructor.
  - repeat constructor.
  - reflexivity.
  - vm_compute. reflexivity.
  - discriminate.
Defined.

(** ** Diacritics in the normalised entries of a patient *)

Lemma truthy_Some (o : option (list Z)) (t : list Z) :
  truthy o = Some t -> o = Some t /\ t <> [].
Proof. destruct o as [[|c s]|]; simpl; try done. by intros [= <-]. Qed.

Lemma normalizedFrom_clean (toLowerCase toUpperCase : list Z -> list Z)
    (name : HumanName) (out : NormalizedHumanName) :
  (forall t, clean t -> clean (toLowerCase t)) ->
  (forall t, clean t -> clean (toUpperCase t)) ->
  normalizedFrom toLowerCase toUpperCase name out ->
  isArabic (scriptProbe name) = true \/ truthy (text name) <> None ->
  clean (_normalized out).
Proof.
  intros Hlower Hupper (_ & _ & Hout) Hcase.
  destruct (isArabic (scriptProbe name)) eqn:Hscript.
  - destruct Hout as (r & Hr & -> & _).
    destruct (normalizeArabicName_total (fullName name)) as (r' & Hr' & Hn & _).
    rewrite Hr in Hr'. apply Returns_inj in Hr'. subst r'. rewrite Hn.
    apply arabicNormalForm_clean.
  - destruct Hout as [-> _]. destruct Hcase as [?|Htext]; [done|].
    apply normalizeEnglishName_clean; try done.
    unfold scriptProbe, fullName in *.
    destruct (truthy (text name)) as [t|]; [|done]. simpl in Hscript.
    by apply notArabic_clean.
Qed.

(** X13. In the result of [normalizePatientNames], the [_normalized] string
    of an entry holds no Arabic diacritic whenever the entry was taken for
    Arabic or has a non-empty [text]. (Without [text] the script is probed
    on [family] alone, while [given] is normalised along with it.) The case
    conversion of the runtime does not produce diacritics. *)
Theorem normalizePatientNames_no_diacritics
    (toLowerCase toUpperCase : list Z -> list Z)
    (h : list (list Extension)) (patient : Patient) (names : list HumanName)
    (l : nat) (old : list Extension) :
  (forall t, clean t -> clean (toLowerCase t)) ->
  (forall t, clean t -> clean (toUpperCase t)) ->
  patient_name patient = Some names ->
  extensionArray h patient l old ->
  exists h' outs,
    normalizePatientNames toLowerCase toUpperCase h patient
    = Returns (h', {| enriched_name := Some outs; enriched_extension := Some l |})
    /\ Forall (fun out =>
                 isArabic (scriptProbe (source out)) = true
                 \/ truthy (text (source out)) <> None ->
                 forall c, c ∈ _normalized out ->
                           ~ (0x064B <= c <= 0x065F) /\ c <> 0x0670)
              outs.
Proof.
  intros Hlower Hupper Hnames Harray.
  destruct (normalizePatientNames_spec toLowerCase toUpperCase h patient _ l old
              Hnames Harray) as (h' & outs & -> & Hfrom & _).
  exists h', outs. split; [done|]. clear Hnames Harray.
  induction Hfrom as [|name out names outs Hone _ IH]; [constructor|].
  constructor; [|done]. intros Hcase c Hc. apply isDiacritic_false.
  assert (source out = name) as Hsrc by apply Hone. rewrite Hsrc in Hcase.
  pose proof (normalizedFrom_clean _ _ _ _ Hlower Hupper Hone Hcase) as Hclean.
  unfold clean in Hclean. rewrite Forall_forall in Hclean. by apply Hclean.
Qed.

Lemma normalizePatientNames_no_diacritics_witness :
  exists h' outs,
    normalizePatientNames asciiToLower asciiToUpper []
      {| patient_name :=
           Some [ {| text := Some [0x0645; 0x064F; 0x062D; 0x064E; 0x0645; 0x0651; 0x062F];
                     family := None; given := None |} ];
         patient_extension := None |}
    = Returns (h', {| enriched_name := Some outs; enriched_extension := Some 0%nat |})
    /\ Forall (fun out =>
                 isArabic (scriptProbe (source out)) = true
                 \/ truthy (text (source out)) <> None ->
                 forall c, c ∈ _normalized out ->
                           ~ (0x064B <= c <= 0x065F) /\ c <> 0x0670)
              outs.
Proof.
  apply (normalizePatientNames_no_diacritics asciiToLower asciiToUpper []
           {| patient_name :=
                Some [ {| text := Some [0x0645; 0x064F; 0x062D; 0x064E; 0x0645; 0x0651; 0x062F];
                          family := None; given := None |} ];
              patient_extension := None |}
           [ {| text := Some [0x0645; 0x064F; 0x062D; 0x064E; 0x0645; 0x0651; 0x062F];
                family := None; given := None |} ]
           0%nat []).
  - apply asciiToLower_clean.
  - apply asciiToUpper_clean.
  - reflexivity.
  - split; reflexivity.
Defined.

(** * The Java sibling against the service *)

(** ** Letters *)

Lemma java_canonicalLetter (c : Z) :
  default c (Java.ARABIC_NORMALIZATIONS !! c) = canonicalLetter c.
Proof.
  unfold Java.ARABIC_NORMALIZATIONS, Java.puts. simpl foldl.
  repeat match goal with
         | |- context [ <[?k := _]> _ !! c ] =>
             destruct (decide (c = k)) as [->|?];
             [vm_compute; reflexivity | rewrite lookup_insert_ne by congruence]
         end.
  rewrite lookup_empty, canonicalLetter_spec. simpl.
  repeat case_bool_decide; lia.
Qed.

Lemma java_letters (text : list Z) :
  Java.normalizeArabicLetters text = normalizeArabicLetters text.
Proof.
  rewrite normalizeArabicLetters_map. unfold Java.normalizeArabicLetters.
  apply map_ext. intros c. apply java_canonicalLetter.
Qed.

(** X14. The Java method, which looks every character up once in the
    table, returns what the service's eight successive global replacements
    return. *)
Theorem java_normalizeArabicLetters_agrees (text : list Z) :
  Java.normalizeArabicLetters text = normalizeArabicLetters text.
Proof. apply java_letters. Qed.

(** ** The phonetic encoder *)

Lemma java_ARABIC_SOUNDEX (c : Z) :
  ARABIC_SOUNDEX !! c = (fun d => [d]) <$> (Java.ARABIC_SOUNDEX !! c).
Proof.
  assert (ARABIC_SOUNDEX = (fun d => [d]) <$> Java.ARABIC_SOUNDEX) as ->
    by (vm_compute; reflexivity).
  apply lookup_fmap.
Qed.

#[local] Opaque Java.ARABIC_SOUNDEX.

Lemma java_soundexLoop (rest soundex : list Z) (lastCode : option Z) :
  soundexLoop rest soundex (from_option (fun d => [d]) [] lastCode)
  = Java.soundexLoop rest soundex lastCode.
Proof.
  revert soundex lastCode.
  induction rest as [|c rest IH]; intros soundex lastCode; [reflexivity|].
  simpl. destruct (length soundex <? 6)%nat; [|reflexivity].
  rewrite java_ARABIC_SOUNDEX.
  destruct (Java.ARABIC_SOUNDEX !! c) as [d|]; simpl; [|apply IH].
  destruct (decide (Some d = lastCode)) as [<-|Hne].
  - simpl. rewrite !bool_decide_eq_true_2 by done. simpl. apply (IH _ (Some d)).
  - rewrite (bool_decide_eq_false_2 (Some d = lastCode)) by done.
    rewrite bool_decide_eq_false_2.
    + simpl. apply (IH _ (Some d)).
    + destruct lastCode as [d'|]; simpl; congruence.
Qed.

Lemma java_soundex_agrees (text : list Z) :
  agrees (arabicSoundex text) (Java.arabicSoundex text).
Proof.
  unfold arabicSoundex, Java.arabicSoundex.
  destruct (bool_decide (text = [])); [reflexivity|].
  change (Java.removeDiacritics text) with (removeDiacritics text).
  rewrite java_letters.
  destruct (normalizeArabicLetters (removeDiacritics text) !! 0%nat) as [c|];
    [|exact I].
  cbv [agrees]. f_equal. f_equal. rewrite java_ARABIC_SOUNDEX.
  rewrite <- java_soundexLoop.
  by destruct (Java.ARABIC_SOUNDEX !! c).
Qed.

(** X15. The Java method ends the way the service's function does on every
    string: it returns the same code, and it raises
    StringIndexOutOfBoundsException exactly where the function throws its
    TypeError. *)
Theorem java_arabicSoundex_agrees (text : list Z) :
  agrees (arabicSoundex text) (Java.arabicSoundex text).
Proof. apply java_soundex_agrees. Qed.

(** ** The similarity scorer *)

Lemma wrap32_small (x : Z) : - 2 ^ 31 <= x < 2 ^ 31 -> Java.wrap32 x = x.
Proof. intros H. unfold Java.wrap32. rewrite Z.mod_small by lia. lia. Qed.

#[local] Arguments Java.skipUnmatched : simpl never.

Lemma java_transpositions (s1 s2 : list Z) (A B : list bool) :
  agrees (countTranspositions s1 s2 A B) (Java.countTranspositions s1 s2 A B).
Proof.
  unfold countTranspositions, Java.countTranspositions.
  assert (forall l o r, agrees o r ->
            agrees (fold_left (transpositionStep s1 s2 A B) l o)
                   (fold_left (Java.transpositionStep s1 s2 A B) l r)) as Hfold.
  { induction l as [|i l IH]; intros o r Hor; [done|].
    simpl. apply IH.
    destruct o as [st|[]|], r as [st'|[]]; simpl in Hor; try done.
    subst st'. unfold transpositionStep, Java.transpositionStep. simpl.
    destruct (negb (flag A i)); [done|].
    change (Java.skipUnmatched (S (length B)) B st.1)
      with (skipUnmatched (S (length B)) B st.1).
    destruct (skipUnmatched (S (length B)) B st.1); [exact eq_refl | exact I]. }
  specialize (Hfold (seq 0 (length s1)) (Returns (0%nat, 0)) (Java.Normal (0%nat, 0)) eq_refl).
  destruct (fold_left (transpositionStep s1 s2 A B) _ _) as [st|[]|],
           (fold_left (Java.transpositionStep s1 s2 A B) _ _) as [st'|[]];
    simpl in *; try done.
  by subst.
Qed.

Section JavaMatching.

Variables (s1 s2 : list Z) (w : Z).

Lemma java_matchStep_inv (n : nat) (st : matchState) :
  (n < length s1)%nat -> countersInv s1 s2 n st ->
  countersInv s1 s2 (S n) (Java.matchStep s1 s2 w st n).
Proof.
  intros Hn (L1 & L2 & M & C & F). unfold Java.matchStep.
  set (e := Java.wrap32 _). clearbody e.
  destruct (List.find _ _) as [j|] eqn:Hfind.
  - apply find_seq_Some in Hfind as (Hrange & Hj & _).
    apply negb_true_iff, orb_false_iff in Hj as [Hj _].
    assert (j < length (s2Matches st))%nat as Hlt by lia.
    assert (s1Matches st !! n = Some false) as Hn1.
    { apply flag_false_lt; [lia | apply F; lia]. }
    assert (s2Matches st !! j = Some false) as Hj2 by by apply flag_false_lt.
    unfold countersInv. simpl.
    rewrite !length_insert, !countTrue_insert by done.
    repeat split; [done | done | lia | lia |].
    intros i Hi. destruct (flag (<[n:=true]> (s1Matches st)) i) eqn:Hf; [|done].
    exfalso. apply flag_insert in Hf; [|lia].
    destruct Hf as [->|Hf]; [lia|].
    rewrite F in Hf by lia. done.
  - repeat split; try done. intros i Hi. apply F. lia.
Qed.

Lemma java_matchLoop_inv (n : nat) :
  (n <= length s1)%nat ->
  countersInv s1 s2 n
    (fold_left (Java.matchStep s1 s2 w) (seq 0 n) (initialState s1 s2)).
Proof.
  induction n as [|n IH]; intros Hn.
  - unfold countersInv, initialState. simpl.
    rewrite !length_replicate, !countTrue_replicate_false.
    repeat split; try done. intros i _. apply flag_replicate_false.
  - rewrite seq_S, fold_left_app. simpl.
    apply java_matchStep_inv; [lia | apply IH; lia].
Qed.

Lemma java_findMatches_inv :
  countersInv s1 s2 (length s1) (Java.findMatches s1 s2 w).
Proof. apply java_matchLoop_inv. lia. Qed.

End JavaMatching.

Lemma java_jaroWinkler_scored (s1 s2 : list Z) :
  s1 <> s2 -> s1 <> [] -> s2 <> [] ->
  let w := Z.max 0 (Z.max (Z.of_nat (length s1)) (Z.of_nat (length s2)) ÷ 2 - 1) in
  let st := Java.findMatches s1 s2 w in
  matches st <> 0 ->
  Java.jaroWinkler (Some s1) (Some s2)
  = Java.Normal (score (matches st)
                   (mismatches (picked s1 (s1Matches st)) (picked s2 (s2Matches st)))
                   (Z.of_nat (length s1)) (Z.of_nat (length s2))
                   (commonPrefix 4 s1 s2)).
Proof.
  intros Hne H1 H2 w st Hm. unfold Java.jaroWinkler.
  rewrite bool_decide_eq_false_2 by done.
  rewrite (bool_decide_eq_false_2 (s1 = [])) by done.
  rewrite (bool_decide_eq_false_2 (s2 = [])) by done.
  simpl orb. cbv iota. fold w. fold st.
  destruct (Z.eqb_spec (matches st) 0) as [|_]; [done|].
  destruct (java_findMatches_inv s1 s2 w) as (L1 & L2 & M & C & _). fold st in L1, L2, M, C.
  pose proof (java_transpositions s1 s2 (s1Matches st) (s2Matches st)) as Hag.
  rewrite countTranspositions_spec in Hag by (done || lia).
  destruct (Java.countTranspositions s1 s2 (s1Matches st) (s2Matches st)) as [t|e];
    [|by destruct e].
  simpl in Hag. subst t. reflexivity.
Qed.

Lemma java_jaroWinkler_returns (s1 s2 : option (list Z)) :
  exists q, Java.jaroWinkler s1 s2 = Java.Normal q /\ (0 <= q <= 1)%Q.
Proof.
  destruct s1 as [s1|]; [|exists 0%Q; split; [done | lra]].
  destruct s2 as [s2|]; [|exists 0%Q; split; [done | lra]].
  destruct (decide (s1 = s2)) as [Heq|Hne].
  { exists 1%Q. unfold Java.jaroWinkler. rewrite bool_decide_eq_true_2 by done.
    split; [done | lra]. }
  destruct (decide (s1 = [])) as [H1|H1].
  { exists 0%Q. unfold Java.jaroWinkler. rewrite bool_decide_eq_false_2 by done.
    rewrite (bool_decide_eq_true_2 (s1 = [])) by done. split; [done | lra]. }
  destruct (decide (s2 = [])) as [H2|H2].
  { exists 0%Q. unfold Java.jaroWinkler. rewrite bool_decide_eq_false_2 by done.
    rewrite (bool_decide_eq_true_2 (s2 = [])) by done. rewrite orb_true_r.
    split; [done | lra]. }
  set (w := Z.max 0 (Z.max (Z.of_nat (length s1)) (Z.of_nat (length s2)) ÷ 2 - 1)).
  destruct (decide (matches (Java.findMatches s1 s2 w) = 0)) as [Hm|Hm].
  { exists 0%Q. unfold Java.jaroWinkler. rewrite bool_decide_eq_false_2 by done.
    rewrite (bool_decide_eq_false_2 (s1 = [])) by done.
    rewrite (bool_decide_eq_false_2 (s2 = [])) by done.
    simpl orb. cbv iota. fold w. rewrite Hm. split; [done | lra]. }
  eexists. split; [by apply java_jaroWinkler_scored|].
  fold w. destruct (java_findMatches_inv s1 s2 w) as (L1 & L2 & M & C & _).
  set (st := Java.findMatches s1 s2 w) in *.
  pose proof (countTrue_le_length (s1Matches st)) as B1.
  pose proof (countTrue_le_length (s2Matches st)) as B2.
  pose proof (mismatches_bounds (picked s1 (s1Matches st)) (picked s2 (s2Matches st))) as B3.
  rewrite picked_length in B3 by done.
  pose proof (commonPrefix_bounds 4 s1 s2) as B4.
  apply score_range; lia.
Qed.

(** X16. The Java scorer never raises an exception, null arguments
    included, and its score lies between 0 and 1 (numbers as exact
    rationals), whatever the window that the 32-bit arithmetic yields. *)
Theorem java_jaroWinkler_unit_interval (s1 s2 : option (list Z)) :
  exists q, Java.jaroWinkler s1 s2 = Java.Normal q /\ (0 <= q <= 1)%Q.
Proof. apply java_jaroWinkler_returns. Qed.

Lemma fold_left_ext_in {A B} (f g : A -> B -> A) (l : list B) (a : A) :
  (forall x a, x ∈ l -> f a x = g a x) -> fold_left f l a = fold_left g l a.
Proof.
  revert a. induction l as [|x l IH]; intros a H; [done|].
  simpl. rewrite H by left. apply IH. intros y b Hy. apply H. by right.
Qed.

Lemma java_findMatches (s1 s2 : list Z) :
  s1 <> s2 -> s1 <> [] -> s2 <> [] ->
  Z.of_nat (length s1) < 2 ^ 30 -> Z.of_nat (length s2) < 2 ^ 30 ->
  Java.findMatches s1 s2
    (Z.max 0 (Z.max (Z.of_nat (length s1)) (Z.of_nat (length s2)) ÷ 2 - 1))
  = findMatches s1 s2
      (Z.max (Z.of_nat (length s1)) (Z.of_nat (length s2)) / 2 - 1).
Proof.
  intros Hne H1 H2 B1 B2.
  rewrite Z.quot_div_nonneg by lia.
  destruct (decide (Z.max (Z.of_nat (length s1)) (Z.of_nat (length s2)) < 2)) as [Hs|Hs].
  - destruct s1 as [|x [|? ?]]; [done | | simpl in Hs; lia].
    destruct s2 as [|y [|? ?]]; [done | | simpl in Hs; lia].
    assert (x <> y) by congruence.
    unfold Java.findMatches, findMatches, Java.matchStep, matchStep. simpl.
    rewrite bool_decide_eq_true_2 by congruence. reflexivity.
  - set (m := Z.max _ _) in *.
    assert (1 <= m / 2) by (apply Z.div_le_lower_bound; lia).
    assert (m / 2 < 2 ^ 29) by (apply Z.div_lt_upper_bound; lia).
    rewrite Z.max_r by lia.
    unfold Java.findMatches, findMatches. apply fold_left_ext_in.
    intros i st Hi. apply elem_of_seq in Hi.
    unfold Java.matchStep, matchStep.
    rewrite (wrap32_small (Z.of_nat i + (m / 2 - 1))) by lia.
    rewrite wrap32_small by lia. reflexivity.
Qed.

(** X17. On strings shorter than 2^30 characters, where no sum of the
    matching loop leaves the range of an int, the Java scorer and the
    service's scorer return the same score. *)
Theorem java_jaroWinkler_agrees (a b : list Z) :
  Z.of_nat (length a) < 2 ^ 30 -> Z.of_nat (length b) < 2 ^ 30 ->
  exists q, jaroWinkler a b = Returns q
            /\ Java.jaroWinkler (Some a) (Some b) = Java.Normal q.
Proof.
  intros B1 B2.
  destruct (decide (a = b)) as [Heq|Hne].
  { exists 1%Q. unfold jaroWinkler, Java.jaroWinkler.
    rewrite !bool_decide_eq_true_2 by done. done. }
  destruct (decide (a = [])) as [H1|H1].
  { exists 0%Q. unfold jaroWinkler, Java.jaroWinkler.
    rewrite !(bool_decide_eq_false_2 (a = b)) by done.
    rewrite !(bool_decide_eq_true_2 (a = [])) by done. done. }
  destruct (decide (b = [])) as [H2|H2].
  { exists 0%Q. unfold jaroWinkler, Java.jaroWinkler.
    rewrite !(bool_decide_eq_false_2 (a = b)) by done.
    rewrite !(bool_decide_eq_true_2 (b = [])) by done.
    rewrite !orb_true_r. done. }
  pose proof (java_findMatches a b Hne H1 H2 B1 B2) as Hst.
  set (w := Z.max (Z.of_nat (length a)) (Z.of_nat (length b)) / 2 - 1) in *.
  destruct (decide (matches (findMatches a b w) = 0)) as [Hm|Hm].
  { exists 0%Q. unfold jaroWinkler, Java.jaroWinkler.
    rewrite !(bool_decide_eq_false_2 (a = b)) by done.
    rewrite !(bool_decide_eq_false_2 (a = [])) by done.
    rewrite !(bool_decide_eq_false_2 (b = [])) by done.
    simpl orb. cbv iota zeta. rewrite Hst. fold w. rewrite Hm. done. }
  eexists. split; [by apply jaroWinkler_scored|].
  rewrite java_jaroWinkler_scored by (done || by rewrite Hst).
  cbv zeta. rewrite Hst. reflexivity.
Qed.

Lemma java_jaroWinkler_agrees_witness :
  exists q, jaroWinkler (lit "MARTHA") (lit "MARHTA") = Returns q
            /\ Java.jaroWinkler (Some (lit "MARTHA")) (Some (lit "MARHTA"))
               = Java.Normal q.
Proof.
  apply (java_jaroWinkler_agrees (lit "MARTHA") (lit "MARHTA")); reflexivity.
Defined.

(** ** The order in which the prefix tables are iterated *)

Lemma startsWith_comparable (s k1 k2 : list Z) :
  startsWith s k1 = true -> startsWith s k2 = true ->
  startsWith k1 k2 = true \/ startsWith k2 k1 = true.
Proof.
  revert k1 k2. induction s as [|c s IH]; intros [|a k1] [|b k2]; simpl; auto;
    try discriminate.
  intros [Ha H1]%andb_true_iff [Hb H2]%andb_true_iff.
  apply Z.eqb_eq in Ha, Hb. subst a b. rewrite Z.eqb_refl. simpl. by apply IH.
Qed.

Lemma prefixFree_exclusive (table : list (list Z * list Z)) (s : list Z)
    (e1 e2 : list Z * list Z) :
  prefixFree table = true -> e1 ∈ table -> e2 ∈ table ->
  startsWith s e1.1 = true -> startsWith s e2.1 = true -> e1 = e2.
Proof.
  unfold prefixFree. rewrite forallb_forall. intros Hfree H1 H2 S1 S2.
  apply list_elem_of_In in H1, H2.
  pose proof (Hfree e1 H1) as F12. rewrite forallb_forall in F12.
  pose proof (Hfree e2 H2) as F21. rewrite forallb_forall in F21.
  specialize (F12 e2 H2). specialize (F21 e1 H1).
  apply orb_true_iff in F12 as [F12|F12]; [by apply bool_decide_eq_true in F12|].
  apply orb_true_iff in F21 as [F21|F21]; [by apply bool_decide_eq_true in F21|].
  apply negb_true_iff in F12, F21.
  destruct (startsWith_comparable s e1.1 e2.1 S1 S2); congruence.
Qed.

Lemma prefixLoop_match (order : list (list Z * list Z)) (s : list Z)
    (e : list Z * list Z) :
  e ∈ order -> startsWith s e.1 = true ->
  (forall e', e' ∈ order -> startsWith s e'.1 = true -> e' = e) ->
  Java.prefixLoop order s = e.2 ++ drop (length e.1) s.
Proof.
  induction order as [|[k v] order IH]; intros He Hs Huniq.
  - by apply elem_of_nil in He.
  - simpl. destruct (startsWith s k) eqn:Hk.
    + rewrite <- (Huniq (k, v)); [done | left | done].
    + apply elem_of_cons in He as [->|He]; [simpl in Hs; congruence|].
      apply IH; [done | done |]. intros e' He'. apply Huniq. by right.
Qed.

Lemma prefixLoop_nomatch (order : list (list Z * list Z)) (s : list Z) :
  (forall e, e ∈ order -> startsWith s e.1 = false) ->
  Java.prefixLoop order s = s.
Proof.
  induction order as [|[k v] order IH]; intros Hnone; [done|].
  simpl. assert (startsWith s k = false) as -> by (apply (Hnone (k, v)); left).
  apply IH.
  intros e He. apply Hnone. by right.
Qed.

Lemma prefixLoop_permutation (table order1 order2 : list (list Z * list Z))
    (s : list Z) :
  prefixFree table = true -> order1 ≡ₚ table -> order2 ≡ₚ table ->
  Java.prefixLoop order1 s = Java.prefixLoop order2 s.
Proof.
  intros Hfree P1 P2.
  destruct (List.find (fun e => startsWith s e.1) table) as [e|] eqn:Hfind.
  - apply find_some in Hfind as [He Hs]. apply list_elem_of_In in He.
    rewrite (prefixLoop_match order1 s e), (prefixLoop_match order2 s e); try done.
    + by rewrite P2.
    + intros e' He' Hs'. rewrite P2 in He'.
      by apply (prefixFree_exclusive table s).
    + by rewrite P1.
    + intros e' He' Hs'. rewrite P1 in He'.
      by apply (prefixFree_exclusive table s).
  - pose proof (find_none _ _ Hfind) as Hnone.
    rewrite !prefixLoop_nomatch; [done | |].
    + intros e He. rewrite P2 in He. apply Hnone. by apply list_elem_of_In.
    + intros e He. rewrite P1 in He. apply Hnone. by apply list_elem_of_In.
Qed.

(** X18. The Java prefix normalisers stop at the first entry that matches,
    in the iteration order of a HashMap; as no key of either table starts
    another key, the result does not depend on that order. *)
Theorem java_prefixes_any_iteration_order
    (arabic1 arabic2 english1 english2 : list (list Z * list Z))
    (toLowerCase : list Z -> list Z) (text : list Z) :
  arabic1 ≡ₚ Java.ARABIC_PREFIXES -> arabic2 ≡ₚ Java.ARABIC_PREFIXES ->
  english1 ≡ₚ Java.ENGLISH_PREFIXES -> english2 ≡ₚ Java.ENGLISH_PREFIXES ->
  Java.normalizeArabicPrefixes arabic1 text
  = Java.normalizeArabicPrefixes arabic2 text
  /\ Java.normalizeEnglishPrefixes english1 toLowerCase text
     = Java.normalizeEnglishPrefixes english2 toLowerCase text.
Proof.
  intros A1 A2 E1 E2. split.
  - by apply (prefixLoop_permutation Java.ARABIC_PREFIXES).
  - by apply (prefixLoop_permutation Java.ENGLISH_PREFIXES).
Qed.

Lemma java_prefixes_any_iteration_order_witness :
  Java.normalizeArabicPrefixes Java.ARABIC_PREFIXES (lit "Abdel-Rahman")
  = Java.normalizeArabicPrefixes (rev Java.ARABIC_PREFIXES) (lit "Abdel-Rahman")
  /\ Java.normalizeEnglishPrefixes Java.ENGLISH_PREFIXES asciiToLower (lit "Abdel-Rahman")
     = Java.normalizeEnglishPrefixes (rev Java.ENGLISH_PREFIXES) asciiToLower
         (lit "Abdel-Rahman").
Proof.
  apply (java_prefixes_any_iteration_order
           Java.ARABIC_PREFIXES (rev Java.ARABIC_PREFIXES)
           Java.ENGLISH_PREFIXES (rev Java.ENGLISH_PREFIXES)
           asciiToLower (lit "Abdel-Rahman")).
  - reflexivity.
  - symmetry. apply Permutation_rev.
  - reflexivity.
  - symmetry. apply Permutation_rev.
Defined.

(** ** The script test *)

(** X19. The Java script test agrees with the service's test on strings
    without line terminators, and it answers false on every string that
    holds one: the pattern must match the whole string and its dots match
    no line terminator. *)
Theorem java_isArabic_spec (text : list Z) :
  Java.isArabic text = isArabic text && forallb Java.isDot text.
Proof.
  induction text as [|c text IH]; [reflexivity|].
  simpl. rewrite IH.
  assert ((0x0600 <=? c) && (c <=? 0x06FF) = true -> Java.isDot c = true) as Hdot.
  { unfold Java.isDot. lia. }
  destruct ((0x0600 <=? c) && (c <=? 0x06FF)); [rewrite Hdot by done|];
    destruct (Java.isDot c), (isArabic text), (forallb Java.isDot text); reflexivity.
Qed.

(** ** [calculateNameSimilarity] *)

Lemma java_bind_Normal {A B} (a : A) (k : A -> Java.result B) :
  (Java.Normal a ≫= k) = k a.
Proof. reflexivity. Qed.

Lemma java_prefixLoop_clean (order : list (list Z * list Z)) (s : list Z) :
  Forall (fun e => clean e.2) order -> clean s -> clean (Java.prefixLoop order s).
Proof.
  intros Horder Hs. induction Horder as [|[k v] order Hv _ IH]; simpl; [done|].
  destruct (startsWith s k); [|done].
  apply Forall_app. split; [done|]. by apply Forall_drop.
Qed.

Lemma java_collapseRuns_clean (inRun : bool) (s : list Z) :
  clean s -> clean (Java.collapseRuns inRun s).
Proof.
  intros Hs. revert inRun. induction Hs as [|c s Hc _ IH]; intros inRun; simpl.
  - constructor.
  - destruct (Java.isWhitespace c), inRun; try apply IH; constructor; try done; apply IH.
Qed.

Lemma java_trimStart_clean (s : list Z) : clean s -> clean (Java.trimStart s).
Proof.
  induction 1 as [|c s Hc Hs IH]; simpl; [constructor|].
  destruct (c <=? 0x20); [done | by constructor].
Qed.

Lemma java_trim_clean (s : list Z) : clean s -> clean (Java.trim s).
Proof.
  intros Hs. unfold Java.trim.
  apply Forall_rev, java_trimStart_clean, Forall_rev. by apply java_trimStart_clean.
Qed.

Lemma java_removeSpaces_clean (s : list Z) : clean s -> clean (Java.removeSpaces s).
Proof.
  unfold Java.removeSpaces. induction 1 as [|c s Hc _ IH]; simpl; [constructor|].
  destruct (c =? 0x20); simpl; [done | by constructor].
Qed.

Lemma java_ARABIC_PREFIXES_clean (order : list (list Z * list Z)) :
  order ≡ₚ Java.ARABIC_PREFIXES -> Forall (fun e => clean e.2) order.
Proof. intros ->. repeat constructor. Qed.

Lemma java_normalizeArabicName_returns (order : list (list Z * list Z))
    (name : option (list Z)) :
  order ≡ₚ Java.ARABIC_PREFIXES ->
  exists r code,
    Java.normalizeArabicName order name = Java.Normal r
    /\ Java.soundex r = Some code.
Proof.
  intros Horder. apply java_ARABIC_PREFIXES_clean in Horder.
  destruct name as [text|]; [|by eexists _, _].
  unfold Java.normalizeArabicName.
  destruct (bool_decide (text = [])); [by eexists _, _|].
  cbv zeta.
  set (n := Java.trim _).
  assert (clean n) as Hn.
  { apply java_trim_clean, java_collapseRuns_clean, java_prefixLoop_clean; [done|].
    rewrite java_letters. apply normalizeArabicLetters_clean, removeDiacritics_clean. }
  destruct (arabicSoundex_clean (Java.removeSpaces n)) as [code Hcode];
    [by apply java_removeSpaces_clean|].
  pose proof (java_soundex_agrees (Java.removeSpaces n)) as Hag.
  rewrite Hcode in Hag.
  destruct (Java.arabicSoundex (Java.removeSpaces n)) as [code'|e]; [|done].
  rewrite java_bind_Normal. by eexists _, _.
Qed.

Lemma Qmax_unit (q : Q) : (0 <= q <= 1)%Q -> (0 <= Qmax q 0.85 <= 1)%Q.
Proof.
  intros [H0 H1]. split.
  - apply Qle_trans with q; [done | apply Q.le_max_l].
  - apply Q.max_lub; [done | lra].
Qed.

Section JavaSimilarity.

Variable arabicEntrySet englishEntrySet : list (list Z * list Z).
Variable toLowerCase : list Z -> list Z.
Variable toUpperCase : Z -> Z.
Hypothesis arabicEntries : arabicEntrySet ≡ₚ Java.ARABIC_PREFIXES.

Lemma java_similarity_returns (name1 name2 : option (list Z)) :
  exists q,
    Java.calculateNameSimilarity arabicEntrySet englishEntrySet
      toLowerCase toUpperCase name1 name2 = Java.Normal q
    /\ (0 <= q <= 1)%Q.
Proof.
  destruct name1 as [text1|]; [|exists 0%Q; split; [done | lra]].
  destruct name2 as [text2|]; [|exists 0%Q; split; [done | lra]].
  unfold Java.calculateNameSimilarity. cbv zeta.
  destruct (java_normalizeArabicName_returns arabicEntrySet (Some text1) arabicEntries)
    as (a1 & c1 & Ha1 & Hc1).
  destruct (java_normalizeArabicName_returns arabicEntrySet (Some text2) arabicEntries)
    as (a2 & c2 & Ha2 & Hc2).
  destruct (Java.isArabic text1), (Java.isArabic text2); simpl andb; cbv iota.
  - rewrite Ha1, java_bind_Normal, Ha2, java_bind_Normal, Hc1, Hc2.
    unfold Java.equals. rewrite java_bind_Normal.
    destruct (java_jaroWinkler_returns (Some (Java.normalized a1))
                (Some (Java.normalized a2))) as (q & -> & Hq).
    rewrite java_bind_Normal.
    destruct (bool_decide (Some c1 = Some c2)); eexists; (split; [done|]);
      [by apply Qmax_unit | done].
  - rewrite Ha1, !java_bind_Normal. apply java_jaroWinkler_returns.
  - rewrite java_bind_Normal, Ha2, java_bind_Normal. apply java_jaroWinkler_returns.
  - apply java_jaroWinkler_returns.
Qed.

Lemma java_similarity_same (text : list Z) :
  Java.calculateNameSimilarity arabicEntrySet englishEntrySet
    toLowerCase toUpperCase (Some text) (Some text) = Java.Normal 1%Q.
Proof.
  unfold Java.calculateNameSimilarity. cbv zeta.
  destruct (java_normalizeArabicName_returns arabicEntrySet (Some text) arabicEntries)
    as (a & c & Ha & Hc).
  assert (forall s, Java.jaroWinkler (Some s) (Some s) = Java.Normal 1%Q) as Hsame.
  { intros s. unfold Java.jaroWinkler. by rewrite bool_decide_eq_true_2. }
  destruct (Java.isArabic text); simpl andb; cbv iota.
  - rewrite Ha, !java_bind_Normal, Hc. unfold Java.equals.
    rewrite java_bind_Normal, Hsame, java_bind_Normal.
    by rewrite bool_decide_eq_true_2.
  - apply Hsame.
Qed.

End JavaSimilarity.

(** X20. For every pair of names, null included, every case mapping and
    every iteration order of the prefix maps, [calculateNameSimilarity]
    raises no exception, although [arabicSoundex] on its own can, and its
    score lies between 0 and 1. *)
Theorem java_calculateNameSimilarity_unit_interval
    (arabicEntrySet englishEntrySet : list (list Z * list Z))
    (toLowerCase : list Z -> list Z) (toUpperCase : Z -> Z)
    (name1 name2 : option (list Z)) :
  arabicEntrySet ≡ₚ Java.ARABIC_PREFIXES ->
  exists q,
    Java.calculateNameSimilarity arabicEntrySet englishEntrySet
      toLowerCase toUpperCase name1 name2 = Java.Normal q
    /\ (0 <= q <= 1)%Q.
Proof. intros H. by apply java_similarity_returns. Qed.

Lemma java_calculateNameSimilarity_unit_interval_witness :
  exists q,
    Java.calculateNameSimilarity Java.ARABIC_PREFIXES Java.ENGLISH_PREFIXES
      asciiToLower (fun c => if (0x61 <=? c) && (c <=? 0x7A) then c - 0x20 else c)
      (Some [0x0627; 0x0644; 0x064E]) (Some [0x0645; 0x062D; 0x0645; 0x062F])
    = Java.Normal q
    /\ (0 <= q <= 1)%Q.
Proof.
  apply (java_calculateNameSimilarity_unit_interval
           Java.ARABIC_PREFIXES Java.ENGLISH_PREFIXES
           asciiToLower (fun c => if (0x61 <=? c) && (c <=? 0x7A) then c - 0x20 else c)
           (Some [0x0627; 0x0644; 0x064E]) (Some [0x0645; 0x062D; 0x0645; 0x062F])).
  reflexivity.
Defined.

(** X21. A name that is not null, compared with itself, scores exactly 1,
    whatever its script. *)
Theorem java_calculateNameSimilarity_same
    (arabicEntrySet englishEntrySet : list (list Z * list Z))
    (toLowerCase : list Z -> list Z) (toUpperCase : Z -> Z) (text : list Z) :
  arabicEntrySet ≡ₚ Java.ARABIC_PREFIXES ->
  Java.calculateNameSimilarity arabicEntrySet englishEntrySet
    toLowerCase toUpperCase (Some text) (Some text) = Java.Normal 1%Q.
Proof. intros H. by apply java_similarity_same. Qed.

Lemma java_calculateNameSimilarity_same_witness :
  Java.calculateNameSimilarity Java.ARABIC_PREFIXES Java.ENGLISH_PREFIXES
    asciiToLower (fun c => if (0x61 <=? c) && (c <=? 0x7A) then c - 0x20 else c)
    (Some [0x0645; 0x064F; 0x062D; 0x0645; 0x062F])
    (Some [0x0645; 0x064F; 0x062D; 0x0645; 0x062F])
  = Java.Normal 1%Q.
Proof.
  apply (java_calculateNameSimilarity_same
           Java.ARABIC_PREFIXES Java.ENGLISH_PREFIXES
           asciiToLower (fun c => if (0x61 <=? c) && (c <=? 0x7A) then c - 0x20 else c)
           [0x0645; 0x064F; 0x062D; 0x0645; 0x062F]).
  reflexivity.
Defined.

(** * The validator of national identity numbers *)

(** ** The checksum *)

Lemma isDigit_range (c : Z) :
  EgyptNationalIdValidator.isDigit c = true <-> 0x30 <= c <= 0x39.
Proof. unfold EgyptNationalIdValidator.isDigit. lia. Qed.

Lemma luhnDigit_range (alternate : bool) (c : Z) :
  0x30 <= c <= 0x39 -> 0 <= luhnDigit alternate c <= 9.
Proof.
  intros Hc. unfold luhnDigit. cbv zeta.
  destruct alternate; [destruct (Z.ltb_spec 9 ((c - 48) * 2))|]; lia.
Qed.

Lemma luhnDigit_inj (alternate : bool) (c c' : Z) :
  0x30 <= c <= 0x39 -> 0x30 <= c' <= 0x39 ->
  luhnDigit alternate c = luhnDigit alternate c' -> c = c'.
Proof.
  intros Hc Hc'. unfold luhnDigit. cbv zeta.
  destruct alternate; [|lia].
  destruct (Z.ltb_spec 9 ((c - 48) * 2)), (Z.ltb_spec 9 ((c' - 48) * 2)); lia.
Qed.

Lemma luhnTotal_range (rest : list Z) (alternate : bool) :
  Forall (fun c => 0x30 <= c <= 0x39) rest ->
  0 <= luhnTotal rest alternate <= 9 * Z.of_nat (length rest).
Proof.
  intros Hrest. revert alternate.
  induction Hrest as [|c rest Hc _ IH]; intros alternate; simpl; [lia|].
  pose proof (luhnDigit_range alternate c Hc).
  specialize (IH (negb alternate)). lia.
Qed.

Lemma luhnLoop_total (rest : list Z) (sum : Z) (alternate : bool) :
  Forall (fun c => 0x30 <= c <= 0x39) rest ->
  0 <= sum -> sum + 9 * Z.of_nat (length rest) < 2 ^ 31 ->
  EgyptNationalIdValidator.luhnLoop rest sum alternate
  = sum + luhnTotal rest alternate.
Proof.
  intros Hrest. revert sum alternate.
  induction Hrest as [|c rest Hc _ IH]; intros sum alternate Hsum Hbound; simpl.
  - lia.
  - pose proof (luhnDigit_range alternate c Hc) as Hd.
    change (if alternate
            then if 9 <? EgyptNationalIdValidator.getNumericValue c * 2
                 then EgyptNationalIdValidator.getNumericValue c * 2 - 9
                 else EgyptNationalIdValidator.getNumericValue c * 2
            else EgyptNationalIdValidator.getNumericValue c)
      with (luhnDigit alternate c).
    simpl length in Hbound.
    rewrite wrap32_small by lia. rewrite IH by lia. lia.
Qed.

Lemma luhnTotal_app (a b : list Z) (alternate : bool) :
  exists alternate',
    forall c, luhnTotal (a ++ c :: b) alternate
              = luhnTotal a alternate + luhnDigit alternate' c
                + luhnTotal b (negb alternate').
Proof.
  revert alternate. induction a as [|x a IH]; intros alternate.
  - exists alternate. intros c. simpl. lia.
  - destruct (IH (negb alternate)) as [alternate' H].
    exists alternate'. intros c. simpl. rewrite H. lia.
Qed.

Lemma validateLuhn_total (nid : list Z) :
  forallb EgyptNationalIdValidator.isDigit nid = true ->
  Z.of_nat (length nid) < 2 ^ 27 ->
  EgyptNationalIdValidator.validateLuhn nid
  = (luhnTotal (rev nid) false mod 10 =? 0).
Proof.
  intros Hdigits Hlen. unfold EgyptNationalIdValidator.validateLuhn.
  assert (Forall (fun c => 0x30 <= c <= 0x39) (rev nid)) as Hrev.
  { apply Forall_rev, Forall_forall. intros c Hc.
    apply isDigit_range. rewrite forallb_forall in Hdigits.
    by apply Hdigits, list_elem_of_In. }
  rewrite luhnLoop_total; [|done|lia|rewrite length_rev; lia].
  pose proof (luhnTotal_range (rev nid) false Hrev).
  rewrite Z.rem_mod_nonneg by lia. reflexivity.
Qed.

(** X22. The checksum detects every single wrong digit: if a string of
    fewer than 2^27 digits passes [validateLuhn], the string with one digit
    replaced by a different digit does not. *)
Theorem validateLuhn_detects_single_digit_error (before after : list Z) (d d' : Z) :
  forallb EgyptNationalIdValidator.isDigit (before ++ d :: after) = true ->
  EgyptNationalIdValidator.isDigit d' = true ->
  d <> d' ->
  Z.of_nat (length (before ++ d :: after)) < 2 ^ 27 ->
  EgyptNationalIdValidator.validateLuhn (before ++ d :: after) = true ->
  EgyptNationalIdValidator.validateLuhn (before ++ d' :: after) = false.
Proof.
  intros Hdigits Hd' Hne Hlen Hvalid.
  assert (EgyptNationalIdValidator.isDigit d = true
          /\ forallb EgyptNationalIdValidator.isDigit before = true
          /\ forallb EgyptNationalIdValidator.isDigit after = true) as (Hd & Hb & Ha).
  { rewrite forallb_app in Hdigits. simpl in Hdigits.
    apply andb_true_iff in Hdigits as [? [? ?]%andb_true_iff]. done. }
  assert (forallb EgyptNationalIdValidator.isDigit (before ++ d' :: after) = true) as Hdigits'.
  { rewrite forallb_app. simpl. by rewrite Hb, Hd', Ha. }
  assert (length (before ++ d' :: after) = length (before ++ d :: after)) as Hlen'.
  { rewrite !length_app. reflexivity. }
  rewrite validateLuhn_total in Hvalid by done.
  rewrite validateLuhn_total by (done || lia).
  rewrite !rev_app_distr in *. simpl in *. rewrite <- !app_assoc in *. simpl in *.
  destruct (luhnTotal_app (rev after) (rev before) false) as [alternate H].
  rewrite H in *.
  apply isDigit_range in Hd, Hd'.
  pose proof (luhnDigit_range alternate d Hd).
  pose proof (luhnDigit_range alternate d' Hd').
  assert (luhnDigit alternate d <> luhnDigit alternate d') as Hdiff.
  { intros Heq. by apply luhnDigit_inj in Heq. }
  apply Z.eqb_eq in Hvalid. apply Z.eqb_neq. intros Hvalid'.
  set (K := luhnTotal (rev after) false + _ + _) in Hvalid.
  apply Z.mod_divide in Hvalid as [q1 Hq1]; [|lia].
  apply Z.mod_divide in Hvalid' as [q2 Hq2]; [|lia].
  lia.
Qed.

Lemma validateLuhn_detects_single_digit_error_witness :
  EgyptNationalIdValidator.validateLuhn (lit "7992739871" ++ 0x33 :: []) = true
  /\ EgyptNationalIdValidator.validateLuhn (lit "7992739871" ++ 0x30 :: []) = false.
Proof.
  split; [reflexivity|].
  apply (validateLuhn_detects_single_digit_error (lit "7992739871") [] 0x33 0x30);
    (reflexivity || lia).
Defined.

(** ** [validate] *)

Lemma charAt_lt (s : list Z) (i : nat) :
  (i < length s)%nat -> exists c, EgyptNationalIdValidator.charAt s i = Java.Normal c.
Proof.
  intros Hi. unfold EgyptNationalIdValidator.charAt.
  destruct (lookup_lt_is_Some_2 s i Hi) as [c ->]. by exists c.
Qed.

Lemma substring_spec (s t : list Z) (b e : nat) :
  EgyptNationalIdValidator.substring s b e = Java.Normal t ->
  t = take (e - b) (drop b s) /\ length t = (e - b)%nat.
Proof.
  unfold EgyptNationalIdValidator.substring.
  destruct (Nat.leb_spec b e), (Nat.leb_spec e (length s)); simpl; try discriminate.
  intros [= <-]. split; [done|].
  rewrite length_take, length_drop. lia.
Qed.

Lemma substring_in_range (s : list Z) (b e : nat) :
  (b <= e)%nat -> (e <= length s)%nat ->
  EgyptNationalIdValidator.substring s b e = Java.Normal (take (e - b) (drop b s)).
Proof.
  intros Hb He. unfold EgyptNationalIdValidator.substring.
  destruct (Nat.leb_spec b e), (Nat.leb_spec e (length s)); simpl; (done || lia).
Qed.

Lemma parseInt_two (s : list Z) (n : Z) :
  EgyptNationalIdValidator.parseInt s = Java.Normal n -> length s = 2%nat ->
  0 <= n <= 99.
Proof.
  unfold EgyptNationalIdValidator.parseInt.
  destruct s as [|a [|b [|? ?]]]; try discriminate. intros H _. revert H.
  rewrite (bool_decide_eq_false_2 ([a; b] = [])) by done. simpl.
  destruct (EgyptNationalIdValidator.isDigit a) eqn:Ha; [|discriminate].
  destruct (EgyptNationalIdValidator.isDigit b) eqn:Hb; [|discriminate].
  simpl. intros [= <-]. apply isDigit_range in Ha, Hb. lia.
Qed.

Lemma LocalDate_of_fields (y m d : Z) (date : EgyptNationalIdValidator.LocalDate) :
  EgyptNationalIdValidator.LocalDate_of y m d = Java.Normal date ->
  EgyptNationalIdValidator.year date = y
  /\ EgyptNationalIdValidator.monthValue date = m
  /\ EgyptNationalIdValidator.dayOfMonth date = d.
Proof.
  unfold EgyptNationalIdValidator.LocalDate_of.
  destruct (_ && _); [|discriminate]. by intros [= <-].
Qed.

Lemma birthDateBlock_out (today : EgyptNationalIdValidator.LocalDate)
    (cleanNid : list Z) (centuryBase : Z)
    (result : EgyptNationalIdValidator.ValidationResult)
    (out : EgyptNationalIdValidator.ValidationResult
           + EgyptNationalIdValidator.ValidationResult) :
  EgyptNationalIdValidator.birthDateBlock today cleanNid centuryBase result
  = Java.Normal out ->
  match out with
  | inl r => exists e, r = EgyptNationalIdValidator.refuse e result
  | inr r =>
      exists date,
        r = EgyptNationalIdValidator.setBirthDate date result
        /\ EgyptNationalIdValidator.LocalDate_of
             (EgyptNationalIdValidator.year date)
             (EgyptNationalIdValidator.monthValue date)
             (EgyptNationalIdValidator.dayOfMonth date) = Java.Normal date
        /\ EgyptNationalIdValidator.isAfter date today = false
        /\ centuryBase <= EgyptNationalIdValidator.year date <= centuryBase + 99
  end.
Proof.
  unfold EgyptNationalIdValidator.birthDateBlock.
  destruct (EgyptNationalIdValidator.substring cleanNid 1 3) as [t1|] eqn:S1;
    [|discriminate].
  rewrite java_bind_Normal.
  destruct (EgyptNationalIdValidator.parseInt t1) as [yy|] eqn:P1; [|discriminate].
  rewrite java_bind_Normal.
  destruct (EgyptNationalIdValidator.substring cleanNid 3 5) as [t2|] eqn:S2;
    [|discriminate].
  rewrite java_bind_Normal.
  destruct (EgyptNationalIdValidator.parseInt t2) as [month|] eqn:P2; [|discriminate].
  rewrite java_bind_Normal.
  destruct (EgyptNationalIdValidator.substring cleanNid 5 7) as [t3|] eqn:S3;
    [|discriminate].
  rewrite java_bind_Normal.
  destruct (EgyptNationalIdValidator.parseInt t3) as [day|] eqn:P3; [|discriminate].
  rewrite java_bind_Normal.
  destruct ((month <? 1) || (12 <? month)).
  { intros [= <-]. by eexists. }
  destruct ((day <? 1) || (31 <? day)).
  { intros [= <-]. by eexists. }
  destruct (EgyptNationalIdValidator.LocalDate_of (centuryBase + yy) month day)
    as [date|] eqn:Hdate; [|discriminate].
  rewrite java_bind_Normal.
  destruct (EgyptNationalIdValidator.isAfter date today) eqn:Hafter.
  { intros [= <-]. by eexists. }
  intros [= <-]. exists date.
  destruct (LocalDate_of_fields _ _ _ _ Hdate) as (Hy & Hm & Hd).
  apply substring_spec in S1 as [_ L1].
  pose proof (parseInt_two t1 yy P1 L1).
  rewrite Hy, Hm, Hd. repeat split; (done || lia).
Qed.

Lemma validate_cases (today : EgyptNationalIdValidator.LocalDate)
    (nid : option (list Z)) :
  exists r warned,
    EgyptNationalIdValidator.validate today nid = Java.Normal (r, warned)
    /\ ((EgyptNationalIdValidator.valid r = false
         /\ (exists e, EgyptNationalIdValidator.error r = Some e)
         /\ warned = false)
        \/ (EgyptNationalIdValidator.valid r = true
            /\ EgyptNationalIdValidator.error r = None
            /\ exists raw date code name,
                nid = Some raw
                /\ EgyptNationalIdValidator.nationalId r
                   = Some (EgyptNationalIdValidator.removeSeparators raw)
                /\ EgyptNationalIdValidator.NID_PATTERN
                     (EgyptNationalIdValidator.removeSeparators raw) = true
                /\ EgyptNationalIdValidator.birthDate r = Some date
                /\ EgyptNationalIdValidator.LocalDate_of
                     (EgyptNationalIdValidator.year date)
                     (EgyptNationalIdValidator.monthValue date)
                     (EgyptNationalIdValidator.dayOfMonth date) = Java.Normal date
                /\ EgyptNationalIdValidator.isAfter date today = false
                /\ 1900 <= EgyptNationalIdValidator.year date <= 2099
                /\ EgyptNationalIdValidator.governorateCode r = Some code
                /\ EgyptNationalIdValidator.GOVERNORATES !! code = Some name
                /\ EgyptNationalIdValidator.governorateName r = Some name
                /\ (EgyptNationalIdValidator.gender r = Some (lit "male")
                    \/ EgyptNationalIdValidator.gender r = Some (lit "female"))
                /\ warned = negb (EgyptNationalIdValidator.validateLuhn
                                    (EgyptNationalIdValidator.removeSeparators raw)))).
Proof.
  unfold EgyptNationalIdValidator.validate. cbv zeta.
  destruct nid as [raw|]; [|eexists _, _; split; [done|]; left; by eauto].
  destruct (bool_decide (raw = [])); [eexists _, _; split; [done|]; left; by eauto|].
  set (cleanNid := EgyptNationalIdValidator.removeSeparators raw).
  destruct (Nat.eqb_spec (length cleanNid) 14) as [Hlen|_]; simpl negb; cbv iota;
    [|eexists _, _; split; [done|]; left; by eauto].
  destruct (EgyptNationalIdValidator.NID_PATTERN cleanNid) eqn:Hpattern;
    simpl negb; cbv iota; [|eexists _, _; split; [done|]; left; by eauto].
  destruct (charAt_lt cleanNid 0) as [c0 ->]; [lia|]. rewrite java_bind_Normal.
  set (result := EgyptNationalIdValidator.setCenturyDigit _ _).
  set (centuryBase := if _ =? 2 then 1900 else 2000).
  assert (centuryBase = 1900 \/ centuryBase = 2000) as Hbase.
  { unfold centuryBase. destruct (_ =? 2); auto. }
  destruct (EgyptNationalIdValidator.birthDateBlock today cleanNid centuryBase result)
    as [[r1|r2]|e] eqn:Hblock.
  - apply birthDateBlock_out in Hblock as [e ->].
    eexists _, _; split; [done|]. left. by eauto.
  - apply birthDateBlock_out in Hblock as (date & -> & Hreal & Hafter & Hyear).
    rewrite substring_in_range by lia. rewrite java_bind_Normal.
    destruct (EgyptNationalIdValidator.GOVERNORATES !! _) as [name|] eqn:Hgov;
      [|eexists _, _; split; [done|]; left; by eauto].
    destruct (charAt_lt cleanNid 12) as [c12 ->]; [lia|]. rewrite java_bind_Normal.
    eexists _, _; split; [done|]. right.
    split; [done|]. split; [done|].
    exists raw, date, (take (9 - 7) (drop 7 cleanNid)), name.
    repeat split; try done; try lia.
    simpl. destruct (_ =? 1); auto.
  - eexists _, _; split; [done|]. left. by eauto.
Qed.

(** X23. [validate] raises no exception on any argument, null included:
    it returns a result that is either valid without an error or refused
    with an error, and the checksum warning is logged only for numbers it
    accepts. *)
Theorem validate_returns (today : EgyptNationalIdValidator.LocalDate)
    (nid : option (list Z)) :
  exists r warned,
    EgyptNationalIdValidator.validate today nid = Java.Normal (r, warned)
    /\ (EgyptNationalIdValidator.valid r = true
        <-> EgyptNationalIdValidator.error r = None)
    /\ (warned = true -> EgyptNationalIdValidator.valid r = true).
Proof.
  destruct (validate_cases today nid)
    as (r & warned & Hv & [(Hvalid & [e He] & Hw)|(Hvalid & He & _)]);
    exists r, warned; (split; [done|]); rewrite Hvalid, He.
  - subst warned. split; [split; discriminate | discriminate].
  - done.
Qed.

(** X24. A number that [validate] accepts is, once spaces and dashes are
    removed, a 2 or a 3 and thirteen digits; the birth date of the result
    exists in the calendar, is not after today and falls in 1900 to 2099;
    the governorate is an entry of the table; the gender is male or female;
    and the checksum warning is logged exactly when [validateLuhn] fails. *)
Theorem validate_accepts_only_well_formed
    (today : EgyptNationalIdValidator.LocalDate) (nid : option (list Z))
    (r : EgyptNationalIdValidator.ValidationResult) (warned : bool) :
  EgyptNationalIdValidator.validate today nid = Java.Normal (r, warned) ->
  EgyptNationalIdValidator.valid r = true ->
  exists raw date code name,
    nid = Some raw
    /\ EgyptNationalIdValidator.nationalId r
       = Some (EgyptNationalIdValidator.removeSeparators raw)
    /\ EgyptNationalIdValidator.NID_PATTERN
         (EgyptNationalIdValidator.removeSeparators raw) = true
    /\ EgyptNationalIdValidator.birthDate r = Some date
    /\ EgyptNationalIdValidator.LocalDate_of
         (EgyptNationalIdValidator.year date)
         (EgyptNationalIdValidator.monthValue date)
         (EgyptNationalIdValidator.dayOfMonth date) = Java.Normal date
    /\ EgyptNationalIdValidator.isAfter date today = false
    /\ 1900 <= EgyptNationalIdValidator.year date <= 2099
    /\ EgyptNationalIdValidator.governorateCode r = Some code
    /\ EgyptNationalIdValidator.GOVERNORATES !! code = Some name
    /\ EgyptNationalIdValidator.governorateName r = Some name
    /\ (EgyptNationalIdValidator.gender r = Some (lit "male")
        \/ EgyptNationalIdValidator.gender r = Some (lit "female"))
    /\ warned = negb (EgyptNationalIdValidator.validateLuhn
                        (EgyptNationalIdValidator.removeSeparators raw)).
Proof.
  intros Hv Hvalid.
  destruct (validate_cases today nid)
    as (r' & warned' & Hv' & [(Hinvalid & _)|(_ & _ & H)]);
    rewrite Hv in Hv'; injection Hv' as <- <-.
  - congruence.
  - exact H.
Qed.

Lemma validate_accepts_only_well_formed_witness :
  let today :=
    {| EgyptNationalIdValidator.year := 2026;
       EgyptNationalIdValidator.monthValue := 11;
       EgyptNationalIdValidator.dayOfMonth := 2 |} in
  let r :=
    {| EgyptNationalIdValidator.valid := true;
       EgyptNationalIdValidator.nationalId := Some (lit "29001011234567");
       EgyptNationalIdValidator.error := None;
       EgyptNationalIdValidator.birthDate :=
         Some {| EgyptNationalIdValidator.year := 1990;
                 EgyptNationalIdValidator.monthValue := 1;
                 EgyptNationalIdValidator.dayOfMonth := 1 |};
       EgyptNationalIdValidator.gender := Some (lit "female");
       EgyptNationalIdValidator.governorateCode := Some (lit "12");
       EgyptNationalIdValidator.governorateName := Some (lit "Dakahlia");
       EgyptNationalIdValidator.centuryDigit := 2 |} in
  EgyptNationalIdValidator.validate today (Some (lit "2900-1011 234567"))
  = Java.Normal (r, true)
  /\ EgyptNationalIdValidator.valid r = true
  /\ exists date code name,
       EgyptNationalIdValidator.birthDate r = Some date
       /\ EgyptNationalIdValidator.isAfter date today = false
       /\ 1900 <= EgyptNationalIdValidator.year date <= 2099
       /\ EgyptNationalIdValidator.governorateCode r = Some code
       /\ EgyptNationalIdValidator.GOVERNORATES !! code = Some name.
Proof.
  intros today r.
  split; [reflexivity|]. split; [reflexivity|].
  destruct (validate_accepts_only_well_formed today
              (Some (lit "2900-1011 234567")) r true eq_refl eq_refl)
    as (raw & date & code & name & _ & _ & _ & Hdate & _ & Hafter & Hyear
        & Hcode & Hname & _).
  by exists date, code, name.
Defined.

Lemma removeSeparators_idempotent (nid : list Z) :
  EgyptNationalIdValidator.removeSeparators
    (EgyptNationalIdValidator.removeSeparators nid)
  = EgyptNationalIdValidator.removeSeparators nid.
Proof.
  unfold EgyptNationalIdValidator.removeSeparators.
  induction nid as [|c nid IH]; [reflexivity|].
  simpl. destruct (negb _) eqn:Hc; [|exact IH].
  simpl. rewrite Hc. by rewrite IH.
Qed.

(** X25. Spaces and dashes in a number do not matter: as long as something
    is left when they are removed, [validate] returns for the number what
    it returns for the number without them. *)
Theorem validate_ignores_separators
    (today : EgyptNationalIdValidator.LocalDate) (nid : list Z) :
  EgyptNationalIdValidator.removeSeparators nid <> [] ->
  EgyptNationalIdValidator.validate today (Some nid)
  = EgyptNationalIdValidator.validate today
      (Some (EgyptNationalIdValidator.removeSeparators nid)).
Proof.
  intros Hclean.
  assert (nid <> []) as Hnid by (intros ->; by apply Hclean).
  unfold EgyptNationalIdValidator.validate.
  rewrite !bool_decide_eq_false_2 by done.
  cbv zeta. rewrite removeSeparators_idempotent. reflexivity.
Qed.

Lemma validate_ignores_separators_witness :
  EgyptNationalIdValidator.validate
    {| EgyptNationalIdValidator.year := 2026;
       EgyptNationalIdValidator.monthValue := 11;
       EgyptNationalIdValidator.dayOfMonth := 2 |}
    (Some (lit "2 9001-01 1234567"))
  = EgyptNationalIdValidator.validate
      {| EgyptNationalIdValidator.year := 2026;
         EgyptNationalIdValidator.monthValue := 11;
         EgyptNationalIdValidator.dayOfMonth := 2 |}
      (Some (EgyptNationalIdValidator.removeSeparators (lit "2 9001-01 1234567"))).
Proof.
  apply (validate_ignores_separators
           {| EgyptNationalIdValidator.year := 2026;
              EgyptNationalIdValidator.monthValue := 11;
              EgyptNationalIdValidator.dayOfMonth := 2 |}
           (lit "2 9001-01 1234567")).
  vm_compute. discriminate.
Defined.
